(** * The natural-language command interpreter of the ledger app

    A shallow embedding of the parsing module (the first, stricter copy of
    the module: [isCreditCommand] anchors the credit formats at the start of
    the text) together with the JavaScript string and RegExp operations it
    is written with.

    - A JavaScript string is a sequence of UTF-16 code units: [jsstring] is
      [list N].
    - A JavaScript regular expression is a value of [regex]; matching follows
      the backtracking semantics of ECMA-262 (alternatives left to right,
      greedy and lazy quantifiers, an iteration of a quantifier that matches
      the empty string is rejected, captures of a quantified atom are reset
      at each iteration).
    - A JavaScript number is an IEEE-754 double ([number]): the binary64
      format of the Standard Library's specification of floating-point
      arithmetic, with its rounding to nearest, overflow to Infinity, and
      NaN.  [parseFloat] is only ever applied to texts of the shape
      [\d+(\.\d+)?], and gives the double nearest to the decimal, as the
      engines compute it (Infinity beyond the largest double, 0 below the
      smallest).
    - A function that can throw returns in [throws]; an awaited promise is
      its outcome, [Awaited]; an [async] function is the function of its
      result.
    - What the module gets from its host (the price store, the clock, case
      mapping outside ASCII, the printing of numbers) is a [Runtime]. *)

From Stdlib Require Import List NArith ZArith QArith Qround Qabs Bool String Ascii Lia Lqa.
From Stdlib Require Import SpecFloat.
Import ListNotations.

Set Implicit Arguments.
Close Scope Q_scope.
Open Scope string_scope.
Open Scope list_scope.
Open Scope nat_scope.

(* ================================================================== *)
(** * Code units and strings *)
(* ================================================================== *)

Definition char := N.
Definition jsstring := list char.

(** An ASCII literal of the source as a sequence of code units. *)
Definition str (s : string) : jsstring :=
  map N_of_ascii (list_ascii_of_string s).

(** U+20B9 INDIAN RUPEE SIGN, one code unit. *)
Definition rupee_sign : char := 8377%N.

Local Open Scope N_scope.

Definition is_digit (c : char) : bool := (48 <=? c) && (c <=? 57).
Definition is_upper (c : char) : bool := (65 <=? c) && (c <=? 90).
Definition is_lower (c : char) : bool := (97 <=? c) && (c <=? 122).
Definition is_ascii (c : char) : bool := c <? 128.

(** [\w] without the unicode flag: [A-Za-z0-9_]. *)
Definition is_word (c : char) : bool :=
  is_digit c || is_upper c || is_lower c || (c =? 95).

(** [\s], and what [trim] strips: WhiteSpace and LineTerminator. *)
Definition is_space (c : char) : bool :=
  ((9 <=? c) && (c <=? 13)) || (c =? 32) || (c =? 160) || (c =? 5760)
  || ((8192 <=? c) && (c <=? 8202)) || (c =? 8232) || (c =? 8233)
  || (c =? 8239) || (c =? 8287) || (c =? 12288) || (c =? 65279).

Definition is_line_terminator (c : char) : bool :=
  (c =? 10) || (c =? 13) || (c =? 8232) || (c =? 8233).

Definition ascii_lower (c : char) : char := if is_upper c then c + 32 else c.
Definition ascii_upper (c : char) : char := if is_lower c then c - 32 else c.

Local Close Scope N_scope.

Fixpoint str_eqb (a b : jsstring) : bool :=
  match a, b with
  | [], [] => true
  | x :: a', y :: b' => N.eqb x y && str_eqb a' b'
  | _, _ => false
  end.

Fixpoint starts_with (p s : jsstring) : bool :=
  match p, s with
  | [], _ => true
  | x :: p', y :: s' => N.eqb x y && starts_with p' s'
  | _ :: _, [] => false
  end.

(** [s.includes(p)] *)
Fixpoint includes (s p : jsstring) : bool :=
  starts_with p s ||
  match s with
  | [] => false
  | _ :: s' => includes s' p
  end.

(** [arr.includes(x)] on an array of strings *)
Definition arr_includes (arr : list jsstring) (x : jsstring) : bool :=
  existsb (str_eqb x) arr.

Fixpoint trimStart (s : jsstring) : jsstring :=
  match s with
  | c :: s' => if is_space c then trimStart s' else s
  | [] => []
  end.

Definition trimEnd (s : jsstring) : jsstring := rev (trimStart (rev s)).

(** [s.trim()] *)
Definition trim (s : jsstring) : jsstring := trimEnd (trimStart s).

Definition is_empty (s : jsstring) : bool :=
  match s with [] => true | _ => false end.

(** [s.split(' ')]: always at least one piece. *)
Fixpoint split_space (s : jsstring) : list jsstring :=
  match s with
  | [] => [[]]
  | c :: s' =>
      if N.eqb c 32 then [] :: split_space s'
      else match split_space s' with
           | w :: ws => (c :: w) :: ws
           | [] => [[c]]
           end
  end.

(** [arr.join(sep)] *)
Fixpoint join (sep : jsstring) (arr : list jsstring) : jsstring :=
  match arr with
  | [] => []
  | [w] => w
  | w :: ws => w ++ sep ++ join sep ws
  end.

(** [s.charAt(0)] and [s.slice(1)] *)
Definition charAt0 (s : jsstring) : jsstring :=
  match s with [] => [] | c :: _ => [c] end.
Definition slice1 (s : jsstring) : jsstring := tl s.

(* ================================================================== *)
(** * Regular expressions *)
(* ================================================================== *)

Inductive class_item :=
| CChar (c : char)               (* a single character *)
| CRange (lo hi : char)          (* lo-hi *)
| CDigit                         (* \d *)
| CSpace                         (* \s *)
| CWord.                         (* \w *)

Inductive regex :=
| Empty
| Char (c : char)
| Dot
| Class (negated : bool) (items : list class_item)
| Seq (r1 r2 : regex)
| Alt (r1 r2 : regex)
| Quant (min : nat) (max : option nat) (greedy : bool) (r : regex)
| Group (idx : nat) (r : regex)
| InputStart                     (* ^ *)
| InputEnd                       (* $ *)
| WordBoundary                   (* \b *)
| LookAhead (positive : bool) (r : regex)       (* (?=r) and (?!r) *)
| PrecededBy (items : list class_item).         (* (?<=[items]) *)

(** Canonicalize of ECMA-262 without the unicode flag, as a comparison of
    an input code unit with the code units that occur in the patterns of
    this module (ASCII and the rupee sign): outside ASCII a code unit never
    canonicalizes to an ASCII one. *)
Definition canonicalize (ignoreCase : bool) (c : char) : char :=
  if ignoreCase then ascii_upper c else c.

Definition item_matches (ic : bool) (it : class_item) (c : char) : bool :=
  match it with
  | CChar a => N.eqb (canonicalize ic a) (canonicalize ic c)
  | CRange lo hi =>
      (N.leb lo c && N.leb c hi)
      || (ic && ((N.leb lo (ascii_upper c) && N.leb (ascii_upper c) hi)
                 || (N.leb lo (ascii_lower c) && N.leb (ascii_lower c) hi)))
  | CDigit => is_digit c
  | CSpace => is_space c
  | CWord => is_word c
  end.

Definition class_matches (ic : bool) (negated : bool) (items : list class_item)
    (c : char) : bool :=
  xorb negated (existsb (fun it => item_matches ic it c) items).

(** The state of a match: the code unit before the current position (for
    [\b] and the look-behind), the input from the current position on, the
    current index, and the captures so far. *)
Record mstate := MState {
  prev : option char;
  rest : jsstring;
  pos : nat;
  caps : list (nat * jsstring)
}.

Definition advance (st : mstate) : option (char * mstate) :=
  match rest st with
  | [] => None
  | c :: s' => Some (c, MState (Some c) s' (S (pos st)) (caps st))
  end.

Definition is_word_opt (o : option char) : bool :=
  match o with Some c => is_word c | None => false end.

Fixpoint groups_of (r : regex) : list nat :=
  match r with
  | Seq a b | Alt a b => groups_of a ++ groups_of b
  | Quant _ _ _ a | LookAhead _ a => groups_of a
  | Group i a => i :: groups_of a
  | _ => []
  end.

Definition cap_get (i : nat) (cs : list (nat * jsstring)) : option jsstring :=
  option_map snd (find (fun p => Nat.eqb (fst p) i) cs).

Definition clear_caps (gs : list nat) (st : mstate) : mstate :=
  MState (prev st) (rest st) (pos st)
    (filter (fun p => negb (existsb (Nat.eqb (fst p)) gs)) (caps st)).

Definition set_cap (i : nat) (v : jsstring) (st : mstate) : mstate :=
  MState (prev st) (rest st) (pos st)
    ((i, v) :: filter (fun p => negb (Nat.eqb (fst p) i)) (caps st)).

Definition with_caps (st from : mstate) : mstate :=
  MState (prev st) (rest st) (pos st) (caps from).

Definition opt_or {A} (a b : option A) : option A :=
  match a with Some _ => a | None => b end.

Definition dec_max (mx : option nat) : option nat := option_map Nat.pred mx.

(** RepeatMatcher of ECMA-262: [m] matches the quantified atom, [gs] are
    its capture groups, [k] is the rest of the pattern.  The loop runs on a
    budget of [min] plus the number of code units left plus one; each turn
    either lowers [min] or consumes input, so the budget is never used up. *)
Fixpoint RepeatMatcher (m : mstate -> (mstate -> option mstate) -> option mstate)
    (gs : list nat) (greedy : bool) (k : mstate -> option mstate)
    (budget mn : nat) (mx : option nat) (x : mstate) {struct budget}
    : option mstate :=
  match budget with
  | O => None
  | S budget' =>
      match mx with
      | Some O => k x
      | _ =>
          let d := fun y =>
            if Nat.eqb mn 0 && Nat.eqb (pos y) (pos x) then None
            else RepeatMatcher m gs greedy k budget' (Nat.pred mn) (dec_max mx) y in
          let xr := clear_caps gs x in
          if negb (Nat.eqb mn 0) then m xr d
          else if greedy then opt_or (m xr d) (k x)
          else opt_or (k x) (m xr d)
      end
  end.

(** The matcher, in continuation-passing style as in ECMA-262: [k] is the
    rest of the pattern. *)
Fixpoint mtch (ic : bool) (r : regex) (st : mstate)
    (k : mstate -> option mstate) {struct r} : option mstate :=
  match r with
  | Empty => k st
  | Char c =>
      match advance st with
      | Some (x, st') =>
          if N.eqb (canonicalize ic c) (canonicalize ic x) then k st' else None
      | None => None
      end
  | Dot =>
      match advance st with
      | Some (x, st') => if is_line_terminator x then None else k st'
      | None => None
      end
  | Class neg items =>
      match advance st with
      | Some (x, st') => if class_matches ic neg items x then k st' else None
      | None => None
      end
  | Seq r1 r2 => mtch ic r1 st (fun st1 => mtch ic r2 st1 k)
  | Alt r1 r2 => opt_or (mtch ic r1 st k) (mtch ic r2 st k)
  | Quant mn mx greedy r1 =>
      RepeatMatcher (mtch ic r1) (groups_of r1) greedy k
        (S (mn + List.length (rest st))) mn mx st
  | Group i r1 =>
      mtch ic r1 st
        (fun st1 => k (set_cap i (firstn (pos st1 - pos st) (rest st)) st1))
  | InputStart => match prev st with None => k st | Some _ => None end
  | InputEnd => match rest st with [] => k st | _ :: _ => None end
  | WordBoundary =>
      if xorb (is_word_opt (prev st)) (is_word_opt (hd_error (rest st)))
      then k st else None
  | LookAhead true r1 =>
      match mtch ic r1 st Some with
      | Some st1 => k (with_caps st st1)
      | None => None
      end
  | LookAhead false r1 =>
      match mtch ic r1 st Some with
      | Some _ => None
      | None => k st
      end
  | PrecededBy items =>
      match prev st with
      | Some c => if class_matches ic false items c then k st else None
      | None => None
      end
  end.

(** A RegExp object: pattern and flags. *)
Record RegExp := mkRegExp {
  pattern : regex;
  ignoreCase : bool;
  global : bool
}.

Record MatchResult := mkMatch {
  m_index : nat;                      (* where the match starts *)
  m_end : nat;                        (* where it ends *)
  m_groups : list (nat * jsstring)    (* the captures that took part *)
}.

(** A match that starts exactly at the position of [st]. *)
Definition match_at (re : RegExp) (st : mstate) : option MatchResult :=
  match mtch (ignoreCase re) (pattern re) st Some with
  | Some st' => Some (mkMatch (pos st) (pos st') (caps st'))
  | None => None
  end.

(** The leftmost match at or after the position [(p, s, i)]. *)
Fixpoint search (re : RegExp) (p : option char) (s : jsstring) (i : nat)
    : option MatchResult :=
  match match_at re (MState p s i []) with
  | Some m => Some m
  | None =>
      match s with
      | [] => None
      | c :: s' => search re (Some c) s' (S i)
      end
  end.

(** [re.exec(s)] / [s.match(re)] for a RegExp without the global flag. *)
Definition exec (re : RegExp) (s : jsstring) : option MatchResult :=
  search re None s 0.

(** [re.test(s)] *)
Definition test (re : RegExp) (s : jsstring) : bool :=
  match exec re s with Some _ => true | None => false end.

(** [m[i]]: [None] is [undefined]. *)
Definition group (i : nat) (m : MatchResult) : option jsstring :=
  cap_get i (m_groups m).

(** [s.replace(re, by)] where [by] has no [$] pattern, [re] not global. *)
Definition replace_first (re : RegExp) (s by_ : jsstring) : jsstring :=
  match exec re s with
  | Some m => firstn (m_index m) s ++ by_ ++ skipn (m_end m) s
  | None => s
  end.

(** The global replacement: [drop] is the number of code units that
    still belong to the match just replaced; after an empty match the
    search resumes one code unit further. *)
Fixpoint replace_scan (re : RegExp) (by_ : jsstring) (p : option char)
    (s : jsstring) (i : nat) (drop : nat) {struct s} : jsstring :=
  match drop with
  | S n =>
      match s with
      | [] => []
      | c :: s' => replace_scan re by_ (Some c) s' (S i) n
      end
  | O =>
      match match_at re (MState p s i []) with
      | Some m =>
          by_ ++
          match s with
          | [] => []
          | c :: s' =>
              match m_end m - i with
              | O => c :: replace_scan re by_ (Some c) s' (S i) 0
              | S n => replace_scan re by_ (Some c) s' (S i) n
              end
          end
      | None =>
          match s with
          | [] => []
          | c :: s' => c :: replace_scan re by_ (Some c) s' (S i) 0
          end
      end
  end.

(** [s.replace(re, by)] *)
Definition replace (re : RegExp) (s by_ : jsstring) : jsstring :=
  if global re then replace_scan re by_ None s 0 0
  else replace_first re s by_.

(** [s.split(re)] for a pattern without capture groups: [cur] is the piece
    being collected (reversed), [p] the end of the last separator; a match
    is looked for at each index below the length, and an empty match at [p]
    is skipped. *)
Fixpoint split_scan (re : RegExp) (pv : option char) (s : jsstring) (i : nat)
    (drop : nat) (cur : jsstring) (p : nat) {struct s} : list jsstring :=
  match s with
  | [] => [rev cur]
  | c :: s' =>
      match drop with
      | S n => split_scan re (Some c) s' (S i) n [] p
      | O =>
          match match_at re (MState pv s i []) with
          | Some m =>
              if Nat.eqb (m_end m) p
              then split_scan re (Some c) s' (S i) 0 (c :: cur) p
              else
                match m_end m - i with
                | O => rev cur :: split_scan re (Some c) s' (S i) 0 [c] i
                | S n => rev cur :: split_scan re (Some c) s' (S i) n [] (m_end m)
                end
          | None => split_scan re (Some c) s' (S i) 0 (c :: cur) p
          end
      end
  end.

Definition re_split (re : RegExp) (s : jsstring) : list jsstring :=
  match s with
  | [] => match match_at re (MState None [] 0 []) with
          | Some _ => []
          | None => [[]]
          end
  | _ => split_scan re None s 0 0 [] 0
  end.

(** ** Writing patterns *)

Definition lit_units (s : jsstring) : regex :=
  fold_right (fun c r => match r with Empty => Char c | _ => Seq (Char c) r end)
    Empty s.

(** A literal ASCII text. *)
Definition lit (s : string) : regex := lit_units (str s).

Fixpoint seqs (rs : list regex) : regex :=
  match rs with
  | [] => Empty
  | [r] => r
  | r :: rs' => Seq r (seqs rs')
  end.

Fixpoint alts (rs : list regex) : regex :=
  match rs with
  | [] => Empty
  | [r] => r
  | r :: rs' => Alt r (alts rs')
  end.

(** [w1|w2|...] *)
Definition any_of (l : list string) : regex := alts (map lit l).

Definition star (r : regex) := Quant 0 None true r.             (* r*  *)
Definition plus1 (r : regex) := Quant 1 None true r.            (* r+  *)
Definition opt (r : regex) := Quant 0 (Some 1) true r.          (* r?  *)
Definition lazy_star (r : regex) := Quant 0 None false r.       (* r*? *)
Definition lazy_plus (r : regex) := Quant 1 None false r.       (* r+? *)
Definition between (lo hi : nat) (r : regex) := Quant lo (Some hi) true r.

(** The code unit of a one-character ASCII literal. *)
Definition code (s : string) : char := hd 0%N (str s).
Definition rng (lo hi : string) : class_item := CRange (code lo) (code hi).
Definition chars (s : string) : list class_item := map CChar (str s).

Definition ws := Class false [CSpace].              (* \s *)
Definition digit := Class false [CDigit].           (* \d *)
Definition ch (s : string) : regex := lit s.
Definition rupee := Char rupee_sign.

(** Flags *)
Definition re_ (r : regex) := mkRegExp r false false.      (* /r/   *)
Definition re_i (r : regex) := mkRegExp r true false.      (* /r/i  *)
Definition re_g (r : regex) := mkRegExp r false true.      (* /r/g  *)
Definition re_gi (r : regex) := mkRegExp r true true.      (* /r/gi *)

(* ================================================================== *)
(** * Numbers *)
(* ================================================================== *)

(** A JavaScript number is a double: 53 bits of precision, exponents up
    to 1024.  The operations of [SpecFloat] compute the IEEE 754 results:
    rounded to nearest, ties to even, with overflow to Infinity, gradual
    underflow, and NaN. *)
Definition prec : Z := 53.
Definition emax : Z := 1024.

Definition number := spec_float.

Definition NaN : number := S754_nan.
Definition Infinity : number := S754_infinity false.

(** The number of an integer literal, and the number nearest to [n / d]:
    the division takes the two integers as they are, mantissas of any
    length with exponent 0, and rounds their quotient once. *)
Definition num (z : Z) : number := binary_normalize prec emax z 0 false.

Definition ratio (n : Z) (d : positive) : number :=
  match n with
  | Z0 => S754_zero false
  | Zpos m => SFdiv prec emax (S754_finite false m 0) (S754_finite false d 0)
  | Zneg m => SFdiv prec emax (S754_finite true m 0) (S754_finite false d 0)
  end.

Definition isNaN (n : number) : bool :=
  match n with S754_nan => true | _ => false end.

(** [a > 0], [a >= 0], [a <= 0], [a < 0], [a === 0]: every comparison with
    NaN is false, and [-0] equals [0]. *)
Definition gt0 (n : number) : bool := SFltb (num 0) n.
Definition ge0 (n : number) : bool := SFleb (num 0) n.
Definition le0 (n : number) : bool := SFleb n (num 0).
Definition lt0 (n : number) : bool := SFltb n (num 0).
Definition is0 (n : number) : bool := SFeqb n (num 0).

(** ToBoolean of a number: [0], [-0] and NaN are falsy. *)
Definition truthy (n : number) : bool := negb (is0 n || isNaN n).

(** [a || d] on numbers, [a * b], [a + b], and [a / d] for a literal [d] *)
Definition num_or (a d : number) : number := if truthy a then a else d.
Definition mul (a b : number) : number := SFmul prec emax a b.
Definition add (a b : number) : number := SFadd prec emax a b.
Definition divide_by (a : number) (d : positive) : number :=
  SFdiv prec emax a (num (Zpos d)).

(** [a || d] on strings: the empty string is falsy. *)
Definition str_or (a d : jsstring) : jsstring := if is_empty a then d else a.

Definition digit_value (c : char) : Z := Z.of_N c - 48.

Fixpoint take_digits (s : jsstring) : jsstring * jsstring :=
  match s with
  | c :: s' =>
      if is_digit c
      then let (d, r) := take_digits s' in (c :: d, r)
      else ([], s)
  | [] => ([], [])
  end.

Definition digits_value (ds : jsstring) : Z :=
  fold_left (fun acc c => 10 * acc + digit_value c)%Z ds 0%Z.

(** [parseFloat(s)] on the texts this module gives it, which are made of
    decimal digits, at most one dot, and digits: leading white space is
    skipped, then the longest prefix [digits] or [digits.digits] is read;
    a text that does not start with a digit is NaN.  The result is the
    double nearest to the decimal that was read (ties to even), Infinity
    when the decimal is beyond the doubles.  (Signs, exponents, a leading
    dot and "Infinity" are not in the domain.) *)
Definition parseFloat (s : jsstring) : number :=
  match take_digits (trimStart s) with
  | ([], _) => NaN
  | (ip, r) =>
      match r with
      | c :: r' =>
          if N.eqb c 46 then
            let (fp, _) := take_digits r' in
            let scale := Z.pow 10 (Z.of_nat (List.length fp)) in
            ratio (digits_value ip * scale + digits_value fp) (Z.to_pos scale)
          else num (digits_value ip)
      | [] => num (digits_value ip)
      end
  end.

(* ================================================================== *)
(** * The host *)
(* ================================================================== *)

(** What a thrown value is: a [ParsingError] of the module with its code,
    or an error of the host. *)
Inductive error_code := EMPTY_INPUT | UNKNOWN_ITEM.

Inductive exn :=
| ParsingError (message : jsstring) (code : error_code)
| HostError (message : jsstring).

(** A computation that returns or throws. *)
Definition throws (A : Type) := sum exn A.

(** The outcome of awaiting [lookupPrice(item)]: the promise resolves to a
    number or to null, or it rejects. *)
Inductive Awaited (A : Type) :=
| Resolved (v : A)
| Rejected (e : exn).
Arguments Resolved {A} v.
Arguments Rejected {A} e.

Record Runtime := mkRuntime {
  (** the price store: [lookupPrice] imported from the storage module *)
  lookupPrice : jsstring -> Awaited (option number);
  (** [toLowerCase] and [toUpperCase] of a string that has a code unit
      outside ASCII *)
  unicodeLowerCase : jsstring -> jsstring;
  unicodeUpperCase : jsstring -> jsstring;
  (** [String(n)], the text of a number in a template literal *)
  numberToString : number -> jsstring;
  (** [new Date().toISOString()]: what the clock reads during the call
      under study; a call at another instant is a call on a host with
      another reading *)
  nowISOString : jsstring
}.

(* ================================================================== *)
(** * Data model *)
(* ================================================================== *)

(** ['cash-in' | 'cash-out'] *)
Inductive transaction_type := cash_in | cash_out.

(** ['sale' | 'payment'] *)
Inductive credit_type := sale | payment.

(** ['transaction' | 'order' | 'price' | 'credit'] *)
Inductive result_type := T_transaction | T_order | T_price | T_credit.

(** The fields of [Partial<Entry>] that the parser sets, and the
    [price_source] that the price lookup adds ([None] is [undefined]). *)
Module Entry.
Record t := mk {
  item : jsstring;
  qty : number;
  unit : jsstring;
  price : number;
  total : number;
  type : transaction_type;
  source_text : jsstring;
  transaction_date : jsstring;
  price_source : option jsstring
}.
End Entry.

Module OrderItem.
Record t := mk {
  item : jsstring;
  qty : number;
  price : option number;             (* null when not extracted *)
  delivery_date : option jsstring
}.
End OrderItem.

Module Order.
Record t := mk {
  customer : jsstring;
  items : list OrderItem.t
}.
End Order.

Module PriceUpdate.
Record t := mk {
  item : jsstring;
  price : number
}.
End PriceUpdate.

Module CreditItem.
Record t := mk {
  item : jsstring;
  qty : number;
  unit : jsstring;
  price : number;
  total : number
}.
End CreditItem.

Module Credit.
Record t := mk {
  type : credit_type;
  customer : jsstring;
  amount : option number;
  item : option jsstring;
  qty : option number;
  unit : option jsstring;
  price : option number;
  items : option (list CreditItem.t)
}.
End Credit.

(** The envelope; an absent field is [None]. *)
Module ParsedResult.
Record t := mk {
  type : result_type;
  entry : option Entry.t;
  order : option Order.t;
  priceUpdates : option (list PriceUpdate.t);
  credit : option Credit.t;
  warnings : list jsstring;
  source_text : jsstring;
  forceReview : option bool
}.
End ParsedResult.

(** [{ entries, warnings }], what the price lookup returns. *)
Module PriceLookup.
Record t := mk {
  entries : list Entry.t;
  warnings : list jsstring
}.
End PriceLookup.

(** [{ type, warnings, source_text }]: a result without payload. *)
Definition without_payload (ty : result_type) (warnings : list jsstring)
    (source_text : jsstring) : ParsedResult.t :=
  ParsedResult.mk ty None None None None warnings source_text None.

(** The fields of a [Partial<Entry>] that [validateEntry] reads; [None] is
    [undefined]. *)
Module Partial.
Record t := mk {
  item : option jsstring;
  qty : option number;
  price : option number
}.
End Partial.

(** An entry of the parser seen as a [Partial<Entry>]: its fields are set. *)
Definition as_partial (e : Entry.t) : Partial.t :=
  Partial.mk (Some (Entry.item e)) (Some (Entry.qty e)) (Some (Entry.price e)).

(** [{ isValid, errors }] *)
Module Validation.
Record t := mk {
  isValid : bool;
  errors : list jsstring
}.
End Validation.

(** [{ entry, warnings }], what the legacy [parseSingleSentence] returns. *)
Module SingleSentence.
Record t := mk {
  entry : Entry.t;
  warnings : list jsstring
}.
End SingleSentence.

(** The text of a match, [m[0]]. *)
Definition matched_text (m : MatchResult) (s : jsstring) : jsstring :=
  firstn (m_end m - m_index m) (skipn (m_index m) s).

Section Parser.

Variable rt : Runtime.

(** [s.toLowerCase()] and [s.toUpperCase()] *)
Definition toLowerCase (s : jsstring) : jsstring :=
  if forallb is_ascii s then map ascii_lower s else unicodeLowerCase rt s.

Definition toUpperCase (s : jsstring) : jsstring :=
  if forallb is_ascii s then map ascii_upper s else unicodeUpperCase rt s.

(** [word.charAt(0).toUpperCase() + word.slice(1).toLowerCase()] *)
Definition capitalize (word : jsstring) : jsstring :=
  toUpperCase (charAt0 word) ++ toLowerCase (slice1 word).

(** [s.split(' ').map(capitalize).join(' ')] *)
Definition titleCase (s : jsstring) : jsstring :=
  join (str " ") (map capitalize (split_space s)).

(* ================================================================== *)
(** * Lexical helpers *)
(* ================================================================== *)

Definition KNOWN_UNITS : list string :=
  ["kg"; "g"; "gram"; "grams"; "kilo"; "kilos"; "kilogram"; "kilograms";
   "l"; "liter"; "liters"; "litre"; "litres"; "ml"; "milliliter"; "milliliters";
   "packet"; "packets"; "pack"; "packs"; "box"; "boxes"; "item"; "items";
   "dozen"; "dozens"; "piece"; "pieces"; "pc"; "pcs";
   "bottle"; "bottles"; "btl"; "can"; "cans";
   "bag"; "bags"; "sack"; "sacks"].

Definition ORDER_KEYWORDS : list string :=
  ["order"; "orders"; "ordered"; "ordering";
   "deliver"; "delivery"; "delivers"; "delivering";
   "book"; "booking"; "booked"; "books";
   "reserve"; "reservation"; "reserved"; "reserves"].

(** The keys of [SPECIAL_CASE_ITEMS] in insertion order, with their values. *)
Definition SPECIAL_CASE_ITEMS : list (string * string) :=
  [("parle g", "Parle G"); ("parle-g", "Parle G"); ("maggi", "Maggi");
   ("lays", "Lays"); ("amul", "Amul"); ("tata", "Tata");
   ("britannia", "Britannia"); ("nuti g", "Nuti G")].

(** [[w1, w2, ...].includes(x)] for an array literal of the source *)
Definition one_of (l : list string) (x : jsstring) : bool :=
  arr_includes (map str l) x.

Definition normalizeUnit (unit : jsstring) : jsstring :=
  let unit := trim (toLowerCase unit) in
  if one_of ["kgs"; "kilos"; "kilograms"] unit then str "kg"
  else if one_of ["grams"; "gram"; "gm"; "gms"] unit then str "g"
  else if one_of ["litres"; "litre"; "ltr"; "ltrs"; "liters"; "liter"] unit
       then str "l"
  else if one_of ["milliliters"; "milliliter"; "mls"] unit then str "ml"
  else if one_of ["pcs"; "pieces"; "piece"; "pc"] unit then str "piece"
  else if one_of ["packets"; "pack"; "packs"] unit then str "packet"
  else if one_of ["bottles"; "btl"; "btls"] unit then str "bottle"
  else if one_of ["dozens"] unit then str "dozen"
  else unit.

Definition isOrderCommand (text : jsstring) : bool :=
  if is_empty text then false
  else
    let lowerText := toLowerCase text in
    existsb (fun keyword => includes lowerText (str keyword)) ORDER_KEYWORDS.

(** [/^credit\s+sales?\s+/i] and [/^credit\s+paid\s+/i] *)
Definition re_credit_sales : RegExp :=
  re_i (seqs [InputStart; lit "credit"; plus1 ws; lit "sale"; opt (ch "s"); plus1 ws]).
Definition re_credit_paid : RegExp :=
  re_i (seqs [InputStart; lit "credit"; plus1 ws; lit "paid"; plus1 ws]).

Definition isCreditCommand (text : jsstring) : bool :=
  if is_empty text then false
  else
    let trimmed := trim text in
    let startsWithCreditSales := test re_credit_sales trimmed in
    let startsWithCreditPaid := test re_credit_paid trimmed in
    startsWithCreditSales || startsWithCreditPaid.

Definition getCreditCommandType (text : jsstring) : option credit_type :=
  if is_empty text then None
  else
    let trimmed := trim text in
    if test re_credit_sales trimmed then Some sale
    else if test re_credit_paid trimmed then Some payment
    else None.

Definition letter := Class false [rng "a" "z"; rng "A" "Z"].            (* [a-zA-Z] *)
Definition letter_or_space := Class false [rng "a" "z"; rng "A" "Z"; CSpace].

(** [/\bfor\s+([a-zA-Z][a-zA-Z\s]*?)(?:\s*$)/] *)
Definition re_for_customer : RegExp :=
  re_ (seqs [WordBoundary; lit "for"; plus1 ws;
             Group 1 (Seq letter (lazy_star letter_or_space));
             Seq (star ws) InputEnd]).

Definition excludeWords : list string :=
  ["one"; "two"; "three"; "four"; "five"; "six"; "seven"; "eight"; "nine"; "ten";
   "kg"; "gram"; "grams"; "packet"; "packets"; "piece"; "pieces"; "liter"; "liters";
   "rice"; "wheat"; "sugar"; "oil"; "milk"; "bread"; "biscuit"; "biscuits"].

(** [None] is [undefined]. *)
Definition extractCustomerName (text : jsstring) : option jsstring :=
  if is_empty text then None
  else
    let lowerText := toLowerCase text in
    match exec re_for_customer lowerText with
    | Some forMatch =>
        match group 1 forMatch with
        | Some g =>
            if is_empty g then None
            else
              let customerName := trim g in
              if one_of excludeWords (toLowerCase customerName) then None
              else if Nat.eqb (List.length customerName) 1 then None
              else Some (titleCase customerName)
        | None => None
        end
    | None => None
    end.

(** [rs\.?|rupees?|₹] *)
Definition currency : regex :=
  alts [Seq (lit "rs") (opt (ch ".")); Seq (lit "rupee") (opt (ch "s")); rupee].

Definition cashInPatterns : list RegExp :=
  [ (* /\b(sold|sell|selling|sale|sales)\b/ *)
    re_ (seqs [WordBoundary;
               Group 1 (any_of ["sold"; "sell"; "selling"; "sale"; "sales"]);
               WordBoundary]);
    (* /\b(income|earned|received|got)\b/ *)
    re_ (seqs [WordBoundary;
               Group 1 (any_of ["income"; "earned"; "received"; "got"]);
               WordBoundary]);
    (* /\b(customer|client)\s+(bought|purchased)/ *)
    re_ (seqs [WordBoundary; Group 1 (any_of ["customer"; "client"]); plus1 ws;
               Group 2 (any_of ["bought"; "purchased"])]);
    (* /\b(made|earned)\s+(money|profit|rs|rupees|₹)/ *)
    re_ (seqs [WordBoundary; Group 1 (any_of ["made"; "earned"]); plus1 ws;
               Group 2 (alts [lit "money"; lit "profit"; lit "rs"; lit "rupees"; rupee])])
  ].

Definition cashOutPatterns : list RegExp :=
  [ (* /\b(bought|buy|buying|purchased|purchase|purchasing)\b/ *)
    re_ (seqs [WordBoundary;
               Group 1 (any_of ["bought"; "buy"; "buying"; "purchased"; "purchase";
                                "purchasing"]);
               WordBoundary]);
    (* /\b(spent|spend|spending|expense|expenses|cost|costs)\b/ *)
    re_ (seqs [WordBoundary;
               Group 1 (any_of ["spent"; "spend"; "spending"; "expense"; "expenses";
                                "cost"; "costs"]);
               WordBoundary]);
    (* /\b(paid|pay|paying|payment)\s+(?!to\s+customer|from\s+customer)/ *)
    re_ (seqs [WordBoundary; Group 1 (any_of ["paid"; "pay"; "paying"; "payment"]);
               plus1 ws;
               LookAhead false
                 (Alt (seqs [lit "to"; plus1 ws; lit "customer"])
                      (seqs [lit "from"; plus1 ws; lit "customer"]))]);
    (* /\b(invested|investment|supplies|supply)\b/ *)
    re_ (seqs [WordBoundary;
               Group 1 (any_of ["invested"; "investment"; "supplies"; "supply"]);
               WordBoundary]);
    (* /\b(bill|bills|invoice|invoices)\b/ *)
    re_ (seqs [WordBoundary;
               Group 1 (any_of ["bill"; "bills"; "invoice"; "invoices"]);
               WordBoundary])
  ].

(** [/\b(rs\.?|rupees?|₹|\d+)/i] *)
Definition re_price_indicators : RegExp :=
  re_i (Seq WordBoundary
          (Group 1 (alts [Seq (lit "rs") (opt (ch ".")); Seq (lit "rupee") (opt (ch "s"));
                          rupee; plus1 digit]))).

Definition determineTransactionType (text : jsstring) : transaction_type :=
  if is_empty text || is_empty (trim text) then cash_in
  else
    let lowerText := trim (toLowerCase text) in
    if existsb (fun pattern => test pattern lowerText) cashOutPatterns then cash_out
    else if existsb (fun pattern => test pattern lowerText) cashInPatterns then cash_in
    else
      let hasPriceIndicators := test re_price_indicators lowerText in
      if hasPriceIndicators then cash_in
      else cash_in.

(** [\d+(?:\.\d{1,2})?] and [\d+(?:\.\d+)?] *)
Definition price_number : regex :=
  Seq (plus1 digit) (opt (Seq (ch ".") (between 1 2 digit))).
Definition decimal_number : regex :=
  Seq (plus1 digit) (opt (Seq (ch ".") (plus1 digit))).

Definition pricePatterns : list RegExp :=
  [ (* /(?:for\s+)?(?:rs\.?|rupees?|₹)\s*(\d+(?:\.\d{1,2})?)/i *)
    re_i (seqs [opt (Seq (lit "for") (plus1 ws)); currency; star ws;
                Group 1 price_number]);
    (* /(?:for\s+)?(\d+(?:\.\d{1,2})?)\s*(?:rs\.?|rupees?|₹)/i *)
    re_i (seqs [opt (Seq (lit "for") (plus1 ws)); Group 1 price_number; star ws;
                currency]);
    (* /(?:at|for)\s*(\d+(?:\.\d{1,2})?)\s*(?:rs\.?|rupees?|₹)?\s*(?:each|per|a\s+piece)/i *)
    re_i (seqs [any_of ["at"; "for"]; star ws; Group 1 price_number; star ws;
                opt currency; star ws;
                alts [lit "each"; lit "per"; seqs [lit "a"; plus1 ws; lit "piece"]]]);
    (* /(?:costs?|price)\s*(?:rs\.?|rupees?|₹)?\s*(\d+(?:\.\d{1,2})?)/i *)
    re_i (seqs [Alt (Seq (lit "cost") (opt (ch "s"))) (lit "price"); star ws;
                opt currency; star ws; Group 1 price_number]);
    (* /(?:^|[^\d])(\d+(?:\.\d{1,2})?)(?:\s*(?:rs\.?|rupees?|₹))/i *)
    re_i (seqs [Alt InputStart (Class true [CDigit]); Group 1 price_number;
                Seq (star ws) currency])
  ].

(** The body of the loop over the patterns of [extractPrice] and
    [extractQuantity]: the first pattern whose first capture reads as a
    number above 0 decides. *)
Fixpoint first_positive (patterns : list RegExp) (text : jsstring) : option number :=
  match patterns with
  | [] => None
  | pattern :: more =>
      match exec pattern text with
      | Some m =>
          match group 1 m with
          | Some g =>
              if is_empty g then first_positive more text
              else
                let value := parseFloat g in
                if negb (isNaN value) && gt0 value then Some value
                else first_positive more text
          | None => first_positive more text
          end
      | None => first_positive more text
      end
  end.

(** [None] is [null]. *)
Definition extractPrice (text : jsstring) : option number :=
  if is_empty text then None
  else first_positive pricePatterns text.

Definition quantityPatterns : list RegExp :=
  [ (* /\b(\d+(?:\.\d+)?)\s*(?:kg|g|gram|...|dozen|dozens)\b/i *)
    re_i (seqs [WordBoundary; Group 1 decimal_number; star ws;
                any_of ["kg"; "g"; "gram"; "grams"; "kilo"; "kilos"; "kilogram";
                        "kilograms"; "l"; "liter"; "liters"; "litre"; "litres"; "ml";
                        "packet"; "packets"; "pack"; "packs"; "piece"; "pieces"; "pc";
                        "pcs"; "box"; "boxes"; "bottle"; "bottles"; "can"; "cans";
                        "bag"; "bags"; "dozen"; "dozens"];
                WordBoundary]);
    (* /^\s*(\d+(?:\.\d+)?)\b/ *)
    re_ (seqs [InputStart; star ws; Group 1 decimal_number; WordBoundary]);
    (* /\b(\d+(?:\.\d+)?)\s+of\b/i *)
    re_i (seqs [WordBoundary; Group 1 decimal_number; plus1 ws; lit "of"; WordBoundary])
  ].

Definition one : number := num 1.
Definition zero : number := num 0.

Definition extractQuantity (text : jsstring) : number :=
  if is_empty text then one
  else
    match first_positive quantityPatterns text with
    | Some quantity => quantity
    | None => one
    end.

(** [/parle[\s-]*g\b/i] *)
Definition re_parle_g : RegExp :=
  re_i (seqs [lit "parle"; star (Class false [CSpace; CChar (code "-")]); lit "g";
              WordBoundary]).

Fixpoint first_brand (table : list (string * string)) (text : jsstring)
    : option jsstring :=
  match table with
  | [] => None
  | (brand, name) :: more =>
      if includes text (str brand) then Some (str name) else first_brand more text
  end.

Definition containsSpecialBrand (text : jsstring) : option jsstring :=
  if is_empty text then None
  else
    let text := toLowerCase text in
    if test re_parle_g text then Some (str "Parle G")
    else first_brand SPECIAL_CASE_ITEMS text.

(** [new RegExp(`\\b${unit}\\b`, 'i')] *)
Definition re_unit (unit : string) : RegExp :=
  re_i (seqs [WordBoundary; lit unit; WordBoundary]).

Fixpoint first_unit (units : list string) (text : jsstring) : option string :=
  match units with
  | [] => None
  | unit :: more => if test (re_unit unit) text then Some unit else first_unit more text
  end.

Definition extractUnit (text : jsstring) : option jsstring :=
  if is_empty text then None
  else
    let text := toLowerCase text in
    if test re_parle_g text then
      if existsb (fun unit => includes text (str unit))
                 ["packet"; "packets"; "pack"; "packs"]
      then Some (str "packet")
      else Some []
    else
      match first_unit KNOWN_UNITS text with
      | Some unit => Some (normalizeUnit (str unit))
      | None => None
      end.

(* ================================================================== *)
(** * Item extractor *)
(* ================================================================== *)

Definition re_punctuation := re_g (Class true [CWord; CSpace]).      (* /[^\w\s]/g *)
Definition re_spaces := re_g (plus1 ws).                             (* /\s+/g *)
Definition re_spaces_split := re_ (plus1 ws).                        (* /\s+/ *)

(** [\b(w1|w2|...)\b] with the flags gi *)
Definition re_words_gi (alternatives : regex) : RegExp :=
  re_gi (seqs [WordBoundary; Group 1 alternatives; WordBoundary]).

(** [new RegExp(`\\b${unit}s?\\b`, 'gi')] *)
Definition re_unit_plural (unit : string) : RegExp :=
  re_gi (seqs [WordBoundary; lit unit; opt (ch "s"); WordBoundary]).

(** [/^\d+$/] *)
Definition re_all_digits := re_ (seqs [InputStart; plus1 digit; InputEnd]).

Definition extractItem (text : jsstring) : throws jsstring :=
  if is_empty text || is_empty (trim text)
  then inl (ParsingError (str "Empty input text") EMPTY_INPUT)
  else
    match containsSpecialBrand text with
    | Some ((_ :: _) as specialBrand) =>
        let lowerText := toLowerCase text in
        if includes lowerText (str "biscuit")
           && negb (includes (toLowerCase specialBrand) (str "biscuit"))
        then inr (specialBrand ++ str " Biscuits")
        else if includes lowerText (str "noodle")
                && negb (includes (toLowerCase specialBrand) (str "noodle"))
        then inr (specialBrand ++ str " Noodles")
        else if includes lowerText (str "chips")
                && negb (includes (toLowerCase specialBrand) (str "chips"))
        then inr (specialBrand ++ str " Chips")
        else inr specialBrand
    | _ =>
        let originalText := text in
        let text := toLowerCase text in
        let cleanedText :=
          trim
            (replace re_spaces
              (replace re_punctuation
                (replace (re_words_gi
                            (alts [Seq (lit "rs") (opt (ch ".")); Seq (lit "rupee") (opt (ch "s"));
                                   rupee; lit "each"; lit "per"]))
                  (replace (re_g (Seq (plus1 digit) (opt (Group 1 (Seq (ch ".") (plus1 digit))))))
                    (replace (re_words_gi
                                (any_of ["to"; "from"; "by"; "for"; "with"; "of"; "in"; "on";
                                         "at"; "the"; "a"; "an"]))
                      (replace (re_words_gi
                                  (any_of ["credit"; "paid"; "payment"; "cash"; "money"]))
                        (replace (re_words_gi
                                    (any_of ["sold"; "sell"; "sale"; "bought"; "buy";
                                             "purchased"; "expense"; "spent"; "income";
                                             "earned"]))
                          text [])
                        [])
                      [])
                    [])
                  [])
                (str " "))
              (str " ")) in
        let itemText :=
          fold_left (fun itemText unit => replace (re_unit_plural unit) itemText [])
            KNOWN_UNITS cleanedText in
        let itemText := trim (replace re_spaces itemText (str " ")) in
        let capitalized (itemText : jsstring) := titleCase itemText in
        if Nat.ltb (List.length itemText) 2 then
          let words :=
            filter
              (fun word =>
                 Nat.ltb 2 (List.length word)
                 && negb (one_of ["sold"; "sell"; "sale"; "bought"; "buy"; "purchased";
                                  "expense"; "spent"; "for"; "from"; "the"]
                            (toLowerCase word))
                 && negb (test re_all_digits word)
                 && negb (one_of KNOWN_UNITS (toLowerCase word)))
              (re_split re_spaces_split
                 (replace re_punctuation originalText (str " "))) in
          if Nat.ltb 0 (List.length words)
          then inr (capitalized (join (str " ") words))
          else inl (ParsingError (str "Unable to identify item name from input")
                      UNKNOWN_ITEM)
        else inr (capitalized itemText)
    end.

(* ================================================================== *)
(** * Single-item parser *)
(* ================================================================== *)

(** The inner [catch] of [parseSingleItem]: for an UNKNOWN_ITEM the whole
    chunk is tried as the name ([inr None] is the [return null]); any other
    error is thrown again. *)
Definition item_from_chunk (cleanedChunk : jsstring) (e : exn)
    : throws (option jsstring) :=
  match e with
  | ParsingError _ UNKNOWN_ITEM =>
      let cleanedName :=
        trim
          (replace re_spaces
            (replace (re_words_gi
                        (alts [Seq (lit "rs") (opt (ch ".")); Seq (lit "rupee") (opt (ch "s"));
                               rupee; lit "each"; lit "per"; lit "for"; lit "at"]))
              (replace (re_words_gi
                          (any_of ["sold"; "sell"; "sale"; "bought"; "buy"; "purchased";
                                   "expense"; "spent"]))
                (toLowerCase cleanedChunk) [])
              [])
            (str " ")) in
      if Nat.ltb 0 (List.length cleanedName)
      then inr (Some (join (str " ")
                        (map (fun word => toUpperCase (charAt0 word) ++ slice1 word)
                           (split_space cleanedName))))
      else inr None
  | _ => inl e
  end.

(** The item and the unit of a chunk, as the [if (specialBrand)] of
    [parseSingleItem] assigns them. *)
Definition item_and_unit (cleanedChunk : jsstring)
    : throws (option (jsstring * jsstring)) :=
  match containsSpecialBrand cleanedChunk with
  | Some ((_ :: _) as specialBrand) =>
      let item := specialBrand in
      let lowerText := toLowerCase cleanedChunk in
      let item :=
        if includes lowerText (str "biscuit")
           && negb (includes (toLowerCase item) (str "biscuit"))
        then item ++ str " Biscuits" else item in
      let unit :=
        if includes (toLowerCase cleanedChunk) (str "packet") then str "packet" else [] in
      inr (Some (item, unit))
  | _ =>
      let unit := match extractUnit cleanedChunk with Some u => str_or u [] | None => [] end in
      match extractItem cleanedChunk with
      | inr item => inr (Some (item, unit))
      | inl e =>
          match item_from_chunk cleanedChunk e with
          | inr (Some item) => inr (Some (item, unit))
          | inr None => inr None
          | inl e' => inl e'
          end
      end
  end.

(** [None] is [null]. *)
Definition parseSingleItem (chunk : jsstring) : option Entry.t :=
  if is_empty chunk || is_empty (trim chunk) then None
  else
    let cleanedChunk := trim chunk in
    let type := determineTransactionType cleanedChunk in
    let qty := extractQuantity cleanedChunk in
    match item_and_unit cleanedChunk with
    | inr (Some (item, unit)) =>
        let price :=
          match extractPrice cleanedChunk with
          | Some p => num_or p zero
          | None => zero
          end in
        let total := mul price qty in
        let entry :=
          Entry.mk item qty unit price total type cleanedChunk (nowISOString rt) None in
        if is_empty (Entry.item entry) || is_empty (trim (Entry.item entry))
        then None
        else Some entry
    | inr None => None
    | inl error => None        (* catch (error): logged, null *)
    end.

(* ================================================================== *)
(** * Sentence splitter *)
(* ================================================================== *)

(** [/,| and |(?<=[.!?]) (?=[0-9])/] *)
Definition re_chunk_delimiters : RegExp :=
  re_ (alts [lit ","; lit " and ";
             seqs [PrecededBy (chars ".!?"); lit " ";
                   LookAhead true (Class false [rng "0" "9"])]]).

(** [result ? [result] : []] *)
Definition to_array {A} (result : option A) : list A :=
  match result with Some r => [r] | None => [] end.

(** Nothing inside the [try] of [parseSentence] throws ([parseSingleItem]
    catches what it calls), so its [catch] has nothing to handle. *)
Definition parseSentence (raw : jsstring) : list Entry.t :=
  if is_empty raw || is_empty (trim raw) then []
  else
    let cleaned := toLowerCase raw in
    let chunks := re_split re_chunk_delimiters cleaned in
    if Nat.leb (List.length chunks) 1 then to_array (parseSingleItem raw)
    else
      let results :=
        flat_map
          (fun c => if is_empty (trim c) then [] else to_array (parseSingleItem c))
          chunks in
      if Nat.eqb (List.length results) 0
      then to_array (parseSingleItem raw)
      else results.

(* ================================================================== *)
(** * Order parser *)
(* ================================================================== *)

(** [new RegExp(`\\b${keyword}\\b`, 'gi')] *)
Definition re_keyword (keyword : string) : RegExp :=
  re_gi (seqs [WordBoundary; lit keyword; WordBoundary]).

(** [new RegExp(`\\bfor\\s+${customer.toLowerCase()}\\b`, 'gi')]: a customer
    name is made of ASCII letters and white space, which stand for
    themselves in a pattern. *)
Definition re_for_name_gi (lowerCustomer : jsstring) : RegExp :=
  re_gi (seqs [WordBoundary; lit "for"; plus1 ws; lit_units lowerCustomer; WordBoundary]).

(** [/\s+and\s+|,\s*/] *)
Definition re_item_delimiters : RegExp :=
  re_ (Alt (seqs [plus1 ws; lit "and"; plus1 ws]) (Seq (ch ",") (star ws))).

(** [{ item, qty: qty || 1, price: price || null, delivery_date: null }] *)
Definition to_order_item (parsed : Entry.t) : OrderItem.t :=
  OrderItem.mk (Entry.item parsed)
    (num_or (Entry.qty parsed) one)
    (if truthy (Entry.price parsed) then Some (Entry.price parsed) else None)
    None.

(** The result of the [catch] of [parseOrderCommand]. *)
Definition order_error (text : jsstring) : ParsedResult.t :=
  without_payload T_order [str "Error parsing order command"] text.

(** Nothing inside the [try] of [parseOrderCommand] throws. *)
Definition parseOrderCommand (text : jsstring) : ParsedResult.t :=
  let warnings : list jsstring := [] in
  if is_empty text || is_empty (trim text)
  then without_payload T_order [str "Empty input text"] text
  else
    let customer := extractCustomerName text in
    let itemText := toLowerCase text in
    let itemText :=
      fold_left (fun itemText keyword => replace (re_keyword keyword) itemText [])
        ORDER_KEYWORDS itemText in
    let itemText :=
      match customer with
      | Some ((_ :: _) as c) => replace (re_for_name_gi (toLowerCase c)) itemText []
      | _ => itemText
      end in
    let itemText := trim itemText in
    let itemChunks :=
      filter (fun chunk => negb (is_empty (trim chunk)))
        (re_split re_item_delimiters itemText) in
    let orderItems :=
      if Nat.ltb 1 (List.length itemChunks) then
        flat_map
          (fun chunk =>
             let trimmedChunk := trim chunk in
             if is_empty trimmedChunk then []
             else
               match parseSingleItem trimmedChunk with
               | Some parsedItem =>
                   if is_empty (Entry.item parsedItem) then []
                   else [to_order_item parsedItem]
               | None => []
               end)
          itemChunks
      else
        flat_map
          (fun entry =>
             if is_empty (Entry.item entry) then [] else [to_order_item entry])
          (parseSentence itemText) in
    if Nat.eqb (List.length orderItems) 0
    then without_payload T_order
           (warnings ++ [str "Could not identify any items in the order"]) text
    else
      ParsedResult.mk T_order None
        (Some (Order.mk
                 (match customer with Some c => str_or c (str "Walk-in")
                                    | None => str "Walk-in" end)
                 orderItems))
        None None warnings text None.

(* ================================================================== *)
(** * Price sentences *)
(* ================================================================== *)

(** [/^(.+?)\s+(\d+(?:\.\d{1,2})?)$/] *)
Definition re_item_price : RegExp :=
  re_ (seqs [InputStart; Group 1 (lazy_plus Dot); plus1 ws; Group 2 price_number;
             InputEnd]).

(** [/x\s+of\s+/gi] *)
Definition re_x_of (x : string) : RegExp :=
  re_gi (seqs [lit x; plus1 ws; lit "of"; plus1 ws]).

Definition parsePriceSentence (sentence : jsstring) : list PriceUpdate.t :=
  if is_empty sentence || is_empty (trim sentence) then []
  else if isCreditCommand sentence then []
  else
    let priceKeywords := [str "price"; str "cost"; str "rate"; str "rupees"; str "rs";
                          [rupee_sign]] in
    let hasPriceKeyword :=
      existsb (fun keyword => includes (toLowerCase sentence) keyword) priceKeywords in
    if negb hasPriceKeyword then []
    else
      let cleanedSentence :=
        trim
          (replace (re_words_gi (alts [Seq (lit "rupee") (opt (ch "s")); lit "rs"; rupee]))
            (replace (re_words_gi
                        (alts [lit "is"; lit "are"; Seq (lit "cost") (opt (ch "s"));
                               Seq (lit "price") (opt (ch "s"))]))
              (replace (re_x_of "rate")
                (replace (re_x_of "cost")
                  (replace (re_x_of "price") sentence [])
                  [])
                [])
              [])
            []) in
      let itemParts :=
        re_split (re_i (seqs [plus1 ws; lit "and"; plus1 ws])) cleanedSentence in
      flat_map
        (fun part =>
           let trimmedPart := trim part in
           if is_empty trimmedPart then []
           else
             match exec re_item_price trimmedPart with
             | Some priceMatch =>
                 match group 1 priceMatch, group 2 priceMatch with
                 | Some g1, Some g2 =>
                     let itemName := trim g1 in
                     let price := parseFloat g2 in
                     if negb (is_empty itemName) && negb (isNaN price) && ge0 price
                     then [PriceUpdate.mk (titleCase itemName) price]
                     else []
                 | _, _ => []
                 end
             | None => []
             end)
        itemParts.

(* ================================================================== *)
(** * Price-lookup enrichment *)
(* ================================================================== *)

Definition ret {A} (x : A) : throws A := inr x.

Definition bind {A B} (c : throws A) (f : A -> throws B) : throws B :=
  match c with inr x => f x | inl e => inl e end.

(** [try { body } catch (error) { handler }] *)
Definition try_catch {A} (body : throws A) (handler : exn -> throws A) : throws A :=
  match body with inr x => inr x | inl e => handler e end.

(** [await p]: the value, or the rejection thrown. *)
Definition await {A} (p : Awaited A) : throws A :=
  match p with Resolved v => inr v | Rejected e => inl e end.

(** [await Promise.all(items.map(f))]: the callbacks run in order; the
    first rejection rejects the whole. *)
Fixpoint promise_all_map {A B} (f : A -> throws B) (items : list A) : throws (list B) :=
  match items with
  | [] => ret []
  | x :: more =>
      bind (f x) (fun y => bind (promise_all_map f more) (fun ys => ret (y :: ys)))
  end.

Definition parsed_source : jsstring := str "parsed".
Definition auto_lookup_source : jsstring := str "auto-lookup".

(** The callback given to [items.map] in [parseSentenceWithPriceLookup]. *)
Definition enhance (item : Entry.t) : throws Entry.t :=
  let finalPrice := num_or (Entry.price item) zero in
  let priceSource := parsed_source in
  bind
    (if negb (truthy finalPrice) || is0 finalPrice then
       try_catch
         (bind (await (lookupPrice rt (str_or (Entry.item item) [])))
            (fun lookedUpPrice =>
               match lookedUpPrice with
               | Some p =>
                   if truthy p && gt0 p then ret (p, auto_lookup_source)
                   else ret (finalPrice, priceSource)
               | None => ret (finalPrice, priceSource)
               end))
         (fun error => ret (finalPrice, priceSource))      (* console.warn *)
     else ret (finalPrice, priceSource))
    (fun '(finalPrice, priceSource) =>
       let finalTotal := mul finalPrice (num_or (Entry.qty item) one) in
       ret (Entry.mk (Entry.item item) (Entry.qty item) (Entry.unit item)
              finalPrice finalTotal (Entry.type item) (Entry.source_text item)
              (Entry.transaction_date item) (Some priceSource))).

Definition is_auto_lookup (item : Entry.t) : bool :=
  match Entry.price_source item with
  | Some s => str_eqb s auto_lookup_source
  | None => false
  end.

Definition parseSentenceWithPriceLookup (text : jsstring) : throws PriceLookup.t :=
  let items := parseSentence text in
  let warnings : list jsstring := [] in
  if Nat.eqb (List.length items) 0
  then ret (PriceLookup.mk [] [str "Could not parse any items from input"])
  else
    bind (promise_all_map enhance items) (fun enhancedEntries =>
      let itemsWithoutPrices :=
        filter (fun item => negb (truthy (Entry.price item)) || is0 (Entry.price item))
          enhancedEntries in
      let warnings :=
        if Nat.ltb 0 (List.length itemsWithoutPrices)
        then warnings ++
             [str "No price found for: " ++
              join (str ", ") (map Entry.item itemsWithoutPrices)]
        else warnings in
      let autoLookedUpItems := filter is_auto_lookup enhancedEntries in
      let warnings :=
        if Nat.ltb 0 (List.length autoLookedUpItems)
        then warnings ++
             [str "Auto-populated prices for: " ++
              join (str ", ")
                (map (fun item =>
                        Entry.item item ++ str " (" ++ [rupee_sign] ++
                        numberToString rt (Entry.price item) ++ str ")")
                   autoLookedUpItems)]
        else warnings in
      ret (PriceLookup.mk enhancedEntries warnings)).

(* ================================================================== *)
(** * Credit parser *)
(* ================================================================== *)

(** [new RegExp(`\\s+for\\s+${escaped customer}\\s*$`, 'i')]: every code
    unit of the escaped name stands for itself. *)
Definition customerPattern (customer : jsstring) : RegExp :=
  re_i (seqs [plus1 ws; lit "for"; plus1 ws; lit_units customer; star ws; InputEnd]).

Definition to_credit_item (entry : Entry.t) : CreditItem.t :=
  CreditItem.mk
    (str_or (Entry.item entry) [])
    (num_or (Entry.qty entry) one)
    (str_or (Entry.unit entry) [])
    (num_or (Entry.price entry) zero)
    (num_or (Entry.total entry) zero).

(** [warnings] is the array of the caller, which the function pushes to;
    the result holds the array after the pushes.  The [catch] handles a
    lookup that throws. *)
Definition parseCreditSale (text : jsstring) (warnings : list jsstring)
    (source_text : jsstring) : ParsedResult.t :=
  let cleanText := trim (replace re_credit_sales text []) in
  let customer := extractCustomerName text in
  let itemText := cleanText in
  let itemText :=
    match customer with
    | Some ((_ :: _) as c) => trim (replace (customerPattern c) itemText [])
    | _ => itemText
    end in
  let customer_or_walk_in :=
    match customer with
    | Some c => str_or c (str "Walk-in")
    | None => str "Walk-in"
    end in
  match parseSentenceWithPriceLookup itemText with
  | inr (PriceLookup.mk entries parseWarnings) =>
      let warnings := warnings ++ parseWarnings in
      match entries with
      | [] =>
          without_payload T_transaction
            (warnings ++ [str "Could not parse item details from credit sale"])
            source_text
      | [entry] =>
          ParsedResult.mk T_credit None None None
            (Some (Credit.mk sale customer_or_walk_in
                     (Some (num_or (Entry.total entry) zero))
                     (Some (str_or (Entry.item entry) []))
                     (Some (num_or (Entry.qty entry) one))
                     (Some (str_or (Entry.unit entry) []))
                     (Some (num_or (Entry.price entry) zero))
                     None))
            warnings source_text None
      | _ =>
          let items := map to_credit_item entries in
          let totalAmount :=
            fold_left (fun sum item => add sum (CreditItem.total item)) items zero in
          ParsedResult.mk T_credit None None None
            (Some (Credit.mk sale customer_or_walk_in (Some totalAmount)
                     None None None None (Some items)))
            warnings source_text None
      end
  | inl error =>
      without_payload T_transaction
        (warnings ++ [str "Error parsing item details in credit sale"]) source_text
  end.

(** [parseFloat(m[i])]: an absent capture reads as NaN. *)
Definition parseFloat_group (i : nat) (m : MatchResult) : number :=
  match group i m with Some g => parseFloat g | None => NaN end.

Definition group_text (i : nat) (m : MatchResult) : jsstring :=
  match group i m with Some g => g | None => [] end.

(** [(?:by|from|for)] *)
Definition by_from_for : regex := any_of ["by"; "from"; "for"].

(** [/(?:rs\.?|rupees?|₹)\s*(\d+(?:\.\d+)?)\s+(?:by|from|for)\s+([a-zA-Z][a-zA-Z\s]*?)$/i] *)
Definition payment_pattern1 : RegExp :=
  re_i (seqs [currency; star ws; Group 1 decimal_number; plus1 ws; by_from_for; plus1 ws;
              Group 2 (Seq letter (lazy_star letter_or_space)); InputEnd]).

(** [/^(\d+(?:\.\d+)?)\s+(?:by|from|for)\s+([a-zA-Z][a-zA-Z\s]*?)$/i] *)
Definition payment_pattern2 : RegExp :=
  re_i (seqs [InputStart; Group 1 decimal_number; plus1 ws; by_from_for; plus1 ws;
              Group 2 (Seq letter (lazy_star letter_or_space)); InputEnd]).

(** [/(?:rs\.?|rupees?|₹)?\s*(\d+(?:\.\d+)?)\.?$/i] *)
Definition payment_pattern3 : RegExp :=
  re_i (seqs [opt currency; star ws; Group 1 decimal_number; opt (ch "."); InputEnd]).

(** The text after [Credit Paid]. *)
Definition payment_text (text : jsstring) : jsstring :=
  trim (replace re_credit_paid text []).

(** The amount and the customer that the three patterns, tried in order,
    take from the text; [None] when none of them matches. *)
Definition payment_extraction (cleanText : jsstring) : option (number * jsstring) :=
  match exec payment_pattern1 cleanText with
  | Some pattern1 => Some (parseFloat_group 1 pattern1, trim (group_text 2 pattern1))
  | None =>
      match exec payment_pattern2 cleanText with
      | Some pattern2 => Some (parseFloat_group 1 pattern2, trim (group_text 2 pattern2))
      | None =>
          match exec payment_pattern3 cleanText with
          | Some pattern3 => Some (parseFloat_group 1 pattern3, [])
          | None => None
          end
      end
  end.

Definition parseCreditPayment (text : jsstring) (warnings : list jsstring)
    (source_text : jsstring) : ParsedResult.t :=
  let cleanText := payment_text text in
  match payment_extraction cleanText with
  | None =>
      without_payload T_transaction
        (warnings ++ [str "Could not parse credit payment amount"]) source_text
  | Some (amount, customerName) =>
      if le0 amount then
        without_payload T_transaction
          (warnings ++ [str "Credit payment amount must be greater than 0"]) source_text
      else
        let formattedCustomer :=
          if is_empty customerName then [] else titleCase customerName in
        ParsedResult.mk T_credit None None None
          (Some (Credit.mk payment (str_or formattedCustomer (str "Walk-in"))
                   (Some amount) None None None None None))
          warnings source_text (Some true)
  end.

(** The result after the [catch] of [parseCreditCommand]; neither
    [parseCreditSale] nor [parseCreditPayment] throws. *)
Definition credit_error (message : jsstring) (warnings : list jsstring)
    (source_text : jsstring) : ParsedResult.t :=
  without_payload T_transaction
    (warnings ++ [str "Error parsing credit command: " ++ message]) source_text.

Definition parseCreditCommand (text : jsstring) : ParsedResult.t :=
  let warnings : list jsstring := [] in
  let source_text := text in
  if is_empty text || negb (isCreditCommand text)
  then without_payload T_transaction [str "Not a credit command"] source_text
  else
    match getCreditCommandType text with
    | None =>
        without_payload T_transaction [str "Could not determine credit command type"]
          source_text
    | Some sale => parseCreditSale text warnings source_text
    | Some payment => parseCreditPayment text warnings source_text
    end.

(* ================================================================== *)
(** * Command classifier *)
(* ================================================================== *)

(** The result of the [catch] of [parseEnhanced]; [parseSentence] does not
    throw. *)
Definition enhanced_error (text : jsstring) : ParsedResult.t :=
  without_payload T_transaction [str "Error parsing input"] text.

(** The result that the promise of [parseEnhanced(text)] resolves to. *)
Definition parseEnhanced (text : jsstring) : ParsedResult.t :=
  if is_empty text || is_empty (trim text)
  then without_payload T_transaction [str "Empty input text"] text
  else if isCreditCommand text then parseCreditCommand text
  else if isOrderCommand text then parseOrderCommand text
  else
    let priceUpdates := parsePriceSentence text in
    if Nat.ltb 0 (List.length priceUpdates)
    then ParsedResult.mk T_price None None (Some priceUpdates) None [] text None
    else
      match parseSentence text with
      | [] =>
          without_payload T_transaction [str "Could not parse any items from input"] text
      | first :: _ =>
          ParsedResult.mk T_transaction (Some first) None None None [] text None
      end.

(* ================================================================== *)
(** * Validation, numbers, and the legacy entry point *)
(* ================================================================== *)

Definition validateEntry (entry : Partial.t) : Validation.t :=
  let errors : list jsstring := [] in
  let errors :=
    match Partial.item entry with
    | Some item =>
        if is_empty item || is_empty (trim item)
        then errors ++ [str "Item name is required"] else errors
    | None => errors ++ [str "Item name is required"]
    end in
  let errors :=
    match Partial.qty entry with
    | Some qty =>
        if le0 qty then errors ++ [str "Quantity must be a positive number"] else errors
    | None => errors ++ [str "Quantity must be a positive number"]
    end in
  let errors :=
    match Partial.price entry with
    | Some price =>
        if lt0 price then errors ++ [str "Price cannot be negative"] else errors
    | None => errors
    end in
  Validation.mk (Nat.eqb (List.length errors) 0) errors.

(** [/\d+(\.\d+)?/g] *)
Definition re_numbers : RegExp :=
  re_g (Seq (plus1 digit) (opt (Group 1 (Seq (ch ".") (plus1 digit))))).

(** [text.match(re)] with the global flag lists the texts of all the
    matches from the left; [matches[0]] is the text of the leftmost one. *)
Definition extractNumber (text : jsstring) : option number :=
  if is_empty text then None
  else
    match exec re_numbers text with
    | Some first => Some (parseFloat (matched_text first text))
    | None => None
    end.

Definition normaliseQuantity (value : number) (unit : jsstring) : number :=
  if is_empty unit then value
  else
    let normalizedUnit := toLowerCase unit in
    if one_of ["gm"; "g"; "gram"; "grams"] normalizedUnit then divide_by value 1000
    else if one_of ["kg"; "kilo"; "kilogram"; "kilograms"] normalizedUnit then value
    else if one_of ["ml"] normalizedUnit then divide_by value 1000
    else if one_of ["l"; "litre"; "liter"; "litres"] normalizedUnit then value
    else value.

(** The result of the [catch] of [parseSingleSentence]; [parseSentence]
    does not throw. *)
Definition single_sentence_error (text : jsstring) : SingleSentence.t :=
  SingleSentence.mk
    (Entry.mk (str "Unknown Item") one [] zero zero cash_in text (nowISOString rt) None)
    [str "Error parsing input, fallback entry created"].

Definition parseSingleSentence (text : jsstring) : SingleSentence.t :=
  if is_empty text || is_empty (trim text)
  then
    SingleSentence.mk
      (Entry.mk [] zero [] zero zero cash_in text (nowISOString rt) None)
      [str "Empty input text"]
  else
    match parseSentence text with
    | first :: _ => SingleSentence.mk first []
    | [] =>
        SingleSentence.mk
          (Entry.mk (trim text) one [] zero zero cash_in text (nowISOString rt) None)
          [str "Could not parse details from input, basic entry created"]
    end.

End Parser.

(* ================================================================== *)
(** * Hosts for the examples, and the notions of the properties *)
(* ================================================================== *)

(** A host whose price store has every item at 45; its case mapping is
    that of texts whose code units outside ASCII have no case. *)
Definition catalog45 : Runtime :=
  mkRuntime (fun _ => Resolved (Some (num 45))) (map ascii_lower) (map ascii_upper)
    (fun _ => str "45") (str "2024-01-01T00:00:00.000Z").

(** A host whose price store fails for "Rice" and has every other item
    at 45. *)
Definition failing_for_rice : Runtime :=
  mkRuntime
    (fun item => if str_eqb item (str "Rice")
                 then Rejected (HostError (str "database is locked"))
                 else Resolved (Some (num 45)))
    (map ascii_lower) (map ascii_upper) (fun _ => str "45")
    (str "2024-01-01T00:00:00.000Z").

(** [round(x, 2)]: [Math.round(x * 100) / 100], halves rounded up. *)
Definition round2 (x : Q) : Q := Qmake (Qfloor (x * 100 + (1 # 2))) 100.

(** How many of [entry], [order], [priceUpdates], [credit] are populated. *)
Definition populated (r : ParsedResult.t) : nat :=
  (match ParsedResult.entry r with Some _ => 1 | None => 0 end)
  + (match ParsedResult.order r with Some _ => 1 | None => 0 end)
  + (match ParsedResult.priceUpdates r with Some _ => 1 | None => 0 end)
  + (match ParsedResult.credit r with Some _ => 1 | None => 0 end).

(** The payload field that belongs to a type is populated. *)
Definition payload_of_type (r : ParsedResult.t) : bool :=
  match ParsedResult.type r with
  | T_transaction => match ParsedResult.entry r with Some _ => true | None => false end
  | T_order => match ParsedResult.order r with Some _ => true | None => false end
  | T_price => match ParsedResult.priceUpdates r with Some _ => true | None => false end
  | T_credit => match ParsedResult.credit r with Some _ => true | None => false end
  end.

(** The lookups of a host with every rejection replaced by null. *)
Definition rejections_as_null (rt : Runtime) : Runtime :=
  mkRuntime
    (fun item => match lookupPrice rt item with
                 | Rejected _ => Resolved None
                 | answer => answer
                 end)
    (unicodeLowerCase rt) (unicodeUpperCase rt) (numberToString rt) (nowISOString rt).

(** A soft failure: a typed result without credit payload that says why
    in its warnings. *)
Definition soft_failure (r : ParsedResult.t) : Prop :=
  ParsedResult.type r = T_transaction /\
  ParsedResult.credit r = None /\
  ParsedResult.warnings r <> [].

(** The forms of the envelope that the parsers build for a text. *)
Inductive result_shape (source : jsstring) : ParsedResult.t -> Prop :=
| shape_soft ty ws :
    ty = T_transaction \/ ty = T_order -> ws <> [] ->
    result_shape source (without_payload ty ws source)
| shape_entry e ws :
    result_shape source
      (ParsedResult.mk T_transaction (Some e) None None None ws source None)
| shape_order o ws :
    result_shape source
      (ParsedResult.mk T_order None (Some o) None None ws source None)
| shape_price ps ws :
    result_shape source
      (ParsedResult.mk T_price None None (Some ps) None ws source None)
| shape_sale c ws :
    Credit.type c = sale ->
    result_shape source
      (ParsedResult.mk T_credit None None None (Some c) ws source None)
| shape_payment c ws amount :
    Credit.type c = payment -> Credit.amount c = Some amount -> gt0 amount = true ->
    result_shape source
      (ParsedResult.mk T_credit None None None (Some c) ws source (Some true)).

(** An entry with a price that is 0 or above 0, a quantity above 0 and
    their product as total. *)
Definition well_priced (e : Entry.t) : Prop :=
  (Entry.price e = zero \/ gt0 (Entry.price e) = true)
  /\ gt0 (Entry.qty e) = true
  /\ Entry.total e = mul (Entry.price e) (Entry.qty e).

(** The number is not NaN and has the sign [s]. *)
Definition has_sign (s : bool) (n : number) : bool :=
  match n with
  | S754_zero s' | S754_infinity s' | S754_finite s' _ _ => Bool.eqb s s'
  | S754_nan => false
  end.

(** [Math.abs(a - b) < 0.01] *)
Definition within_tolerance (a b : number) : bool :=
  SFltb (SFabs (SFsub prec emax a b)) (ratio 1 100).

(** The exact value of a finite number. *)
Definition value (n : number) : option Q :=
  match n with
  | S754_zero _ => Some 0%Q
  | S754_finite s m e =>
      Some ((if s then inject_Z (Zneg m) else inject_Z (Zpos m)) * Qpower 2 e)%Q
  | _ => None
  end.

(** A quantity of 310 digits. *)
Definition overflowing_quantity : jsstring :=
  str "1" ++ repeat (code "0") 309 ++ str " kg rice".

(** The host at the instant of another call, when the clock reads [now],
    and an entry with the date of that instant. *)
Definition at_time (rt : Runtime) (now : jsstring) : Runtime :=
  mkRuntime (lookupPrice rt) (unicodeLowerCase rt) (unicodeUpperCase rt)
    (numberToString rt) now.

Definition with_date (date : jsstring) (e : Entry.t) : Entry.t :=
  Entry.mk (Entry.item e) (Entry.qty e) (Entry.unit e) (Entry.price e) (Entry.total e)
    (Entry.type e) (Entry.source_text e) date (Entry.price_source e).

(** [b] comes after [a] in a match, and the captures outside [gs] are
    those of [a]. *)
Definition reach (gs : list nat) (a b : mstate) : Prop :=
  pos a <= pos b /\
  forall i, ~ In i gs -> cap_get i (caps b) = cap_get i (caps a).

(** [y] is a later position of the same input as [x]. *)
Definition follows (x y : mstate) : Prop :=
  pos x <= pos y /\
  pos y + List.length (rest y) = pos x + List.length (rest x).

(** The text has a decimal digit. *)
Definition has_digit (s : jsstring) : bool := existsb is_digit s.

(** [t] is what is left of [s] at some position. *)
Definition suffix_of (t s : jsstring) : Prop := exists pre, s = pre ++ t.

(** A match of the pattern needs a digit in the text. *)
Definition needs_digit (re : RegExp) : Prop :=
  forall s m, exec re s = Some m -> has_digit s = true.

(** A line of a credit sale: a price that is 0 or above 0, a quantity
    above 0, and as total their product, or 0 when the product is NaN. *)
Definition priced_line (i : CreditItem.t) : Prop :=
  (CreditItem.price i = zero \/ gt0 (CreditItem.price i) = true)
  /\ gt0 (CreditItem.qty i) = true
  /\ CreditItem.total i = num_or (mul (CreditItem.price i) (CreditItem.qty i)) zero
  /\ ge0 (CreditItem.total i) = true.

(** An item of an order as the parser builds it. *)
Definition order_line (i : OrderItem.t) : Prop :=
  OrderItem.item i <> []
  /\ gt0 (OrderItem.qty i) = true
  /\ (OrderItem.price i = None \/
      exists p, OrderItem.price i = Some p /\ gt0 p = true)
  /\ OrderItem.delivery_date i = None.

(** The branch of [parseEnhanced] that answers a text. *)
Inductive route (rt : Runtime) (text : jsstring) : ParsedResult.t -> Prop :=
| route_blank
    (Eblank : is_empty (trim text) = true) :
    route rt text (without_payload T_transaction [str "Empty input text"] text)
| route_credit
    (Eblank : is_empty (trim text) = false)
    (Ecredit : isCreditCommand text = true) :
    route rt text (parseCreditCommand rt text)
| route_order
    (Eblank : is_empty (trim text) = false)
    (Ecredit : isCreditCommand text = false)
    (Eorder : isOrderCommand rt text = true) :
    route rt text (parseOrderCommand rt text)
| route_price
    (Eblank : is_empty (trim text) = false)
    (Ecredit : isCreditCommand text = false)
    (Eorder : isOrderCommand rt text = false)
    (Eprice : parsePriceSentence rt text <> []) :
    route rt text
      (ParsedResult.mk T_price None None (Some (parsePriceSentence rt text)) None []
         text None)
| route_nothing
    (Eblank : is_empty (trim text) = false)
    (Ecredit : isCreditCommand text = false)
    (Eorder : isOrderCommand rt text = false)
    (Eprice : parsePriceSentence rt text = [])
    (Eparsed : parseSentence rt text = []) :
    route rt text
      (without_payload T_transaction [str "Could not parse any items from input"] text)
| route_entry first more
    (Eblank : is_empty (trim text) = false)
    (Ecredit : isCreditCommand text = false)
    (Eorder : isOrderCommand rt text = false)
    (Eprice : parsePriceSentence rt text = [])
    (Eparsed : parseSentence rt text = first :: more) :
    route rt text
      (ParsedResult.mk T_transaction (Some first) None None None [] text None).

(** Case analysis on a result through a lemma that gives its forms. *)
Ltac forms_of lemma result :=
  let Hforms := fresh "Hforms" in
  pose proof lemma as Hforms;
  remember result as r;
  destruct Hforms.

(** An entry that the parsers return for a text: an entry of
    [parseSentence], an entry of [parseSentenceWithPriceLookup], or the
    entry of [parseEnhanced]. *)
Definition parsed_entry (rt : Runtime) (text : jsstring) (e : Entry.t) : Prop :=
  In e (parseSentence rt text)
  \/ (exists l, parseSentenceWithPriceLookup rt text = inr l /\
                In e (PriceLookup.entries l))
  \/ ParsedResult.entry (parseEnhanced rt text) = Some e.

(** What a credit sale holds: one item, with as amount its price times
    its quantity, or 0 when that product is NaN; or at least two lines,
    with as amount the sum of their totals.  The amount is never NaN and
    never negative. *)
Definition sale_settled (c : Credit.t) : Prop :=
  Credit.customer c <> [] /\
  (exists amount, Credit.amount c = Some amount /\ ge0 amount = true) /\
  ((exists price qty,
      Credit.items c = None /\ Credit.price c = Some price /\
      Credit.qty c = Some qty /\
      (price = zero \/ gt0 price = true) /\ gt0 qty = true /\
      Credit.amount c = Some (num_or (mul price qty) zero))
   \/ (exists l,
         Credit.items c = Some l /\ 2 <= List.length l /\ Forall priced_line l /\
         Credit.amount c
         = Some (fold_left (fun sum item => add sum (CreditItem.total item)) l zero))).

(** The text starts with an upper-case ASCII letter. *)
Definition capitalised (s : jsstring) : bool :=
  match s with c :: _ => is_upper c | [] => false end.

(* ================================================================== *)
(** * Properties of the matcher *)
(* ================================================================== *)

Lemma opt_or_some {A} (a b : option A) (x : A) :
  opt_or a b = Some x -> a = Some x \/ b = Some x.
Proof. destruct a; simpl; auto. Qed.

Lemma cap_get_filter (i : nat) (q : nat * jsstring -> bool) (cs : list (nat * jsstring)) :
  (forall p, fst p = i -> q p = true) ->
  cap_get i (filter q cs) = cap_get i cs.
Proof.
  intros Hq. unfold cap_get. induction cs as [|p cs IH]; simpl; auto.
  destruct (q p) eqn:Eq; simpl.
  - destruct (Nat.eqb (fst p) i); auto.
  - destruct (Nat.eqb_spec (fst p) i) as [E|E]; auto.
    rewrite (Hq p E) in Eq. discriminate.
Qed.

Lemma cap_get_set_same (i : nat) (v : jsstring) (st : mstate) :
  cap_get i (caps (set_cap i v st)) = Some v.
Proof. unfold cap_get; simpl. rewrite Nat.eqb_refl. reflexivity. Qed.

Lemma cap_get_set_other (i j : nat) (v : jsstring) (st : mstate) :
  j <> i -> cap_get j (caps (set_cap i v st)) = cap_get j (caps st).
Proof.
  intros Hn. unfold set_cap; simpl. unfold cap_get at 1; simpl.
  destruct (Nat.eqb_spec i j) as [E|E]; [congruence|].
  apply cap_get_filter. intros p Hp.
  destruct (Nat.eqb_spec (fst p) i); [congruence | reflexivity].
Qed.

Lemma cap_get_clear (gs : list nat) (j : nat) (st : mstate) :
  ~ In j gs -> cap_get j (caps (clear_caps gs st)) = cap_get j (caps st).
Proof.
  intros Hn. unfold clear_caps; simpl. apply cap_get_filter.
  intros p Hp. apply negb_true_iff.
  destruct (existsb (Nat.eqb (fst p)) gs) eqn:E; auto.
  apply existsb_exists in E. destruct E as [g [Hg Hgp]].
  apply Nat.eqb_eq in Hgp. subst. contradiction.
Qed.

Lemma reach_refl gs a : reach gs a a.
Proof. split; auto. Qed.

Lemma reach_trans gs a b c : reach gs a b -> reach gs b c -> reach gs a c.
Proof.
  intros [H1 H2] [H3 H4]. split; [lia|].
  intros i Hi. rewrite H4, H2; auto.
Qed.

Lemma reach_weaken gs gs' a b :
  (forall i, In i gs -> In i gs') -> reach gs a b -> reach gs' a b.
Proof. intros Hs [H1 H2]. split; auto. Qed.

Lemma reach_clear gs x : reach gs x (clear_caps gs x).
Proof. split; simpl; auto. intros i Hi. apply cap_get_clear; assumption. Qed.

Lemma advance_reach gs st c st' : advance st = Some (c, st') -> reach gs st st'.
Proof.
  unfold advance. destruct (rest st); intros H; inversion H; subst.
  split; simpl; auto.
Qed.

Section Matcher.

Variable ic : bool.

Lemma RepeatMatcher_inv m gs greedy k :
  (forall st k' res, m st k' = Some res ->
     exists st1, k' st1 = Some res /\ reach gs st st1) ->
  forall budget mn mx x res,
    RepeatMatcher m gs greedy k budget mn mx x = Some res ->
    exists st1, k st1 = Some res /\ reach gs x st1.
Proof.
  intros Hm. induction budget as [|budget IH]; intros mn mx x res H.
  - discriminate.
  - simpl in H.
    assert (Hstep : forall d : mstate -> option mstate,
               (forall y, d y = Some res ->
                  exists st1, k st1 = Some res /\ reach gs y st1) ->
               m (clear_caps gs x) d = Some res ->
               exists st1, k st1 = Some res /\ reach gs x st1).
    { intros d Hd Hmd. destruct (Hm _ _ _ Hmd) as [y [Hy Hr]].
      destruct (Hd y Hy) as [st1 [Hk Hr1]]. exists st1. split; auto.
      eapply reach_trans; [apply reach_clear|]. eapply reach_trans; eauto. }
    assert (Hd : forall y,
               (if Nat.eqb mn 0 && Nat.eqb (pos y) (pos x) then None
                else RepeatMatcher m gs greedy k budget (Nat.pred mn) (dec_max mx) y)
               = Some res ->
               exists st1, k st1 = Some res /\ reach gs y st1).
    { intros y Hy. destruct (Nat.eqb mn 0 && Nat.eqb (pos y) (pos x));
        [discriminate | eauto]. }
    assert (Hbody :
              (if negb (Nat.eqb mn 0) then
                 m (clear_caps gs x)
                   (fun y => if Nat.eqb mn 0 && Nat.eqb (pos y) (pos x) then None
                             else RepeatMatcher m gs greedy k budget (Nat.pred mn)
                                    (dec_max mx) y)
               else if greedy then
                 opt_or (m (clear_caps gs x)
                           (fun y => if Nat.eqb mn 0 && Nat.eqb (pos y) (pos x) then None
                                     else RepeatMatcher m gs greedy k budget (Nat.pred mn)
                                            (dec_max mx) y)) (k x)
               else
                 opt_or (k x)
                   (m (clear_caps gs x)
                      (fun y => if Nat.eqb mn 0 && Nat.eqb (pos y) (pos x) then None
                                else RepeatMatcher m gs greedy k budget (Nat.pred mn)
                                       (dec_max mx) y))) = Some res ->
              exists st1, k st1 = Some res /\ reach gs x st1).
    { intros Hb. destruct (negb (Nat.eqb mn 0)).
      - exact (Hstep _ Hd Hb).
      - destruct greedy; apply opt_or_some in Hb; destruct Hb as [Hb|Hb];
          try exact (Hstep _ Hd Hb);
          exists x; split; auto using reach_refl. }
    destruct mx as [[|n]|]; auto.
    exists x; split; auto using reach_refl.
Qed.

Lemma mtch_inv r :
  forall st k res, mtch ic r st k = Some res ->
    exists st1, k st1 = Some res /\ reach (groups_of r) st st1.
Proof.
  induction r as [ | c | | neg items | r1 IH1 r2 IH2 | r1 IH1 r2 IH2
                 | mn mx greedy r1 IH1 | i r1 IH1 | | | | positive r1 IH1 | items ];
    intros st k res H; cbn [mtch] in H.
  - exists st; split; auto using reach_refl.
  - destruct (advance st) as [[x st']|] eqn:Ea; [|discriminate].
    destruct (N.eqb _ _); [|discriminate].
    exists st'; split; auto. eapply advance_reach; eauto.
  - destruct (advance st) as [[x st']|] eqn:Ea; [|discriminate].
    destruct (is_line_terminator x); [discriminate|].
    exists st'; split; auto. eapply advance_reach; eauto.
  - destruct (advance st) as [[x st']|] eqn:Ea; [|discriminate].
    destruct (class_matches _ _ _ _); [|discriminate].
    exists st'; split; auto. eapply advance_reach; eauto.
  - destruct (IH1 _ _ _ H) as [s1 [H1 R1]].
    destruct (IH2 _ _ _ H1) as [s2 [H2 R2]].
    exists s2; split; auto. simpl.
    apply reach_trans with s1;
      [ eapply reach_weaken; [|exact R1] | eapply reach_weaken; [|exact R2] ];
      intros j Hj; apply in_or_app; auto.
  - apply opt_or_some in H. destruct H as [H|H].
    + destruct (IH1 _ _ _ H) as [s1 [H1 R1]]. exists s1; split; auto.
      eapply reach_weaken; [|exact R1]. simpl; intros j Hj; apply in_or_app; auto.
    + destruct (IH2 _ _ _ H) as [s1 [H1 R1]]. exists s1; split; auto.
      eapply reach_weaken; [|exact R1]. simpl; intros j Hj; apply in_or_app; auto.
  - exact (RepeatMatcher_inv _ _ _ IH1 _ _ _ _ H).
  - destruct (IH1 _ _ _ H) as [s1 [H1 [R1 R2]]].
    eexists; split; [exact H1|]. split; [exact R1|].
    intros j Hj. simpl in Hj.
    rewrite cap_get_set_other by (intro; subst; tauto). apply R2. tauto.
  - destruct (prev st); [discriminate|]. exists st; split; auto using reach_refl.
  - destruct (rest st); [|discriminate]. exists st; split; auto using reach_refl.
  - destruct (xorb _ _); [|discriminate]. exists st; split; auto using reach_refl.
  - destruct positive.
    + destruct (mtch ic r1 st Some) as [s0|] eqn:E; [|discriminate].
      destruct (IH1 _ _ _ E) as [s1 [H1 [R1 R2]]]. inversion H1; subst s1.
      eexists; split; [exact H|]. split; simpl; auto.
    + destruct (mtch ic r1 st Some); [discriminate|].
      exists st; split; auto using reach_refl.
  - destruct (prev st); [|discriminate].
    destruct (class_matches _ _ _ _); [|discriminate].
    exists st; split; auto using reach_refl.
Qed.

Lemma follows_refl x : follows x x.
Proof. split; auto. Qed.

Lemma follows_trans x y z : follows x y -> follows y z -> follows x z.
Proof. intros [H1 H2] [H3 H4]. split; lia. Qed.

Lemma advance_follows st c st' : advance st = Some (c, st') -> follows st st'.
Proof.
  unfold advance. destruct (rest st) eqn:E; intros H; inversion H; subst.
  split; simpl; rewrite ?E; simpl; lia.
Qed.

(** The loop of a quantifier does not depend on its budget, once the
    budget is above [min] plus the number of code units left. *)
Lemma RepeatMatcher_budget m gs greedy :
  (forall st k1 k2, (forall y, follows st y -> k1 y = k2 y) -> m st k1 = m st k2) ->
  forall b1 b2 mn mx x k1 k2,
    mn + List.length (rest x) < b1 ->
    mn + List.length (rest x) < b2 ->
    (forall y, follows x y -> k1 y = k2 y) ->
    RepeatMatcher m gs greedy k1 b1 mn mx x
    = RepeatMatcher m gs greedy k2 b2 mn mx x.
Proof.
  intros Hm. induction b1 as [|b1 IH]; intros b2 mn mx x k1 k2 H1 H2 Hk; [lia|].
  destruct b2 as [|b2]; [lia|]. simpl.
  assert (Hx : k1 x = k2 x) by (apply Hk, follows_refl).
  assert (Hd : m (clear_caps gs x)
                 (fun y => if Nat.eqb mn 0 && Nat.eqb (pos y) (pos x) then None
                           else RepeatMatcher m gs greedy k1 b1 (Nat.pred mn)
                                  (dec_max mx) y)
               = m (clear_caps gs x)
                   (fun y => if Nat.eqb mn 0 && Nat.eqb (pos y) (pos x) then None
                             else RepeatMatcher m gs greedy k2 b2 (Nat.pred mn)
                                    (dec_max mx) y)).
  { apply Hm. intros y [Hy1 Hy2]. simpl in Hy1, Hy2.
    destruct (Nat.eqb mn 0 && Nat.eqb (pos y) (pos x)) eqn:E; [reflexivity|].
    assert (Hlt : Nat.pred mn + List.length (rest y) < mn + List.length (rest x)).
    { destruct mn as [|mn]; simpl in *; [|lia].
      apply Nat.eqb_neq in E. lia. }
    apply IH; try lia.
    intros z Hz. apply Hk. apply follows_trans with y; [split; assumption | exact Hz]. }
  rewrite Hd, Hx. reflexivity.
Qed.

(** The matcher calls the rest of the pattern at later positions of the
    same input only. *)
Lemma mtch_ext r :
  forall st k1 k2, (forall y, follows st y -> k1 y = k2 y) ->
    mtch ic r st k1 = mtch ic r st k2.
Proof.
  induction r as [ | c | | neg items | r1 IH1 r2 IH2 | r1 IH1 r2 IH2
                 | mn mx greedy r1 IH1 | i r1 IH1 | | | | positive r1 IH1 | items ];
    intros st k1 k2 Hk; cbn [mtch];
    try (rewrite (Hk st (follows_refl st)); reflexivity);
    try (destruct (advance st) as [[x st']|] eqn:Ea; [|reflexivity];
         rewrite (Hk st' (advance_follows _ Ea)); reflexivity).
  - apply IH1. intros y Hy. apply IH2. intros z Hz. apply Hk.
    eapply follows_trans; eauto.
  - rewrite (IH1 st k1 k2 Hk), (IH2 st k1 k2 Hk). reflexivity.
  - apply RepeatMatcher_budget; auto.
  - apply IH1. intros y Hy. apply Hk. exact Hy.
  - destruct positive; [|rewrite (Hk st (follows_refl st)); reflexivity].
    destruct (mtch ic r1 st Some); [|reflexivity].
    apply Hk. split; simpl; auto.
Qed.

(** More budget than the matcher gives to a quantifier changes nothing:
    the budget is never used up. *)
Lemma quantifier_budget_suffices r mn mx greedy st k extra :
  RepeatMatcher (mtch ic r) (groups_of r) greedy k
    (S (mn + List.length (rest st)) + extra) mn mx st
  = mtch ic (Quant mn mx greedy r) st k.
Proof.
  cbn [mtch]. apply RepeatMatcher_budget; try lia; auto.
  apply mtch_ext.
Qed.

End Matcher.

(* ================================================================== *)
(** * Properties of the numbers *)
(* ================================================================== *)

Unset Implicit Arguments.

Lemma iter_pos_keeps {A} (P : A -> Prop) (f : A -> A) :
  (forall x, P x -> P (f x)) -> forall n x, P x -> P (iter_pos f n x).
Proof. intros Hf. induction n; intros x Hx; simpl; auto. Qed.

Lemma shr_1_not_negative (mrs : shr_record) :
  (0 <= shr_m mrs)%Z -> (0 <= shr_m (shr_1 mrs))%Z.
Proof.
  destruct mrs as [m r s]. simpl.
  destruct m as [|[p|p|]|[p|p|]]; simpl; lia.
Qed.

Lemma shr_fexp_not_negative (m e : Z) (l : location) :
  (0 <= m)%Z -> (0 <= shr_m (fst (shr_fexp prec emax m e l)))%Z.
Proof.
  intros H. unfold shr_fexp, shr.
  assert (H0 : (0 <= shr_m (shr_record_of_loc m l))%Z)
    by (destruct l as [|[]]; exact H).
  destruct (Z.sub _ e); simpl; auto.
  apply (iter_pos_keeps (fun x => (0 <= shr_m x)%Z)); auto using shr_1_not_negative.
Qed.

(** Rounding keeps the sign, and never gives NaN. *)
Lemma binary_round_aux_sign (s : bool) (m e : Z) (l : location) :
  (0 <= m)%Z -> has_sign s (binary_round_aux prec emax s m e l) = true.
Proof.
  intros H. unfold binary_round_aux.
  pose proof (shr_fexp_not_negative m e l H) as H1.
  destruct (shr_fexp prec emax m e l) as [mrs' e']. simpl in H1.
  assert (H2 : (0 <= round_nearest_even (shr_m mrs') (loc_of_shr_record mrs'))%Z).
  { unfold round_nearest_even. destruct (loc_of_shr_record mrs') as [|[]];
      try destruct (Z.even (shr_m mrs')); lia. }
  pose proof (shr_fexp_not_negative _ e' loc_Exact H2) as H3.
  destruct (shr_fexp prec emax _ e' loc_Exact) as [mrs'' e'']. simpl in H3.
  destruct (shr_m mrs'') as [|q|q]; [| |lia].
  - simpl. apply eqb_reflx.
  - destruct (Z.leb e'' (Z.sub emax prec)); simpl; apply eqb_reflx.
Qed.

Lemma has_sign_not_nan (s : bool) (n : number) : has_sign s n = true -> isNaN n = false.
Proof. destruct n; simpl; auto; discriminate. Qed.

Lemma not_negative_ge0 (n : number) : has_sign false n = true -> ge0 n = true.
Proof. destruct n as [[|]|[|]| |[|] m e]; simpl; auto; discriminate. Qed.

Lemma num_not_nan (z : Z) : isNaN (num z) = false.
Proof.
  destruct z as [|m|m]; [reflexivity| |]; unfold num, binary_normalize, binary_round;
    destruct (shl_align _ _ _) as [mz ez];
    [ apply (has_sign_not_nan false) | apply (has_sign_not_nan true) ];
    apply binary_round_aux_sign; lia.
Qed.

Lemma div_core_not_negative (m1 m2 : positive) (e1 e2 : Z) :
  (0 <= fst (fst (SFdiv_core_binary prec emax (Zpos m1) e1 (Zpos m2) e2)))%Z.
Proof.
  unfold SFdiv_core_binary. cbv zeta.
  match goal with |- context [Z.div_eucl ?a ?b] =>
    assert (Ha : (0 <= a)%Z);
    [ | pose proof (Z.div_pos a b Ha ltac:(lia)) as Hq; unfold Z.div in Hq;
        destruct (Z.div_eucl a b) as [q r]; exact Hq ] end.
  destruct (Z.sub (Z.sub e1 e2) _); try lia.
  apply Z.shiftl_nonneg. lia.
Qed.

Lemma ratio_not_nan (n : Z) (d : positive) : isNaN (ratio n d) = false.
Proof.
  destruct n as [|m|m]; [reflexivity| |]; unfold ratio, SFdiv;
    pose proof (div_core_not_negative m d 0 0) as H;
    destruct (SFdiv_core_binary prec emax (Zpos m) 0 (Zpos d) 0) as [[mz ez] lz];
    simpl in H;
    [ apply (has_sign_not_nan (xorb false false))
    | apply (has_sign_not_nan (xorb true false)) ];
    apply binary_round_aux_sign; exact H.
Qed.

(** What the tests of the code tell of a number. *)
Lemma gt0_facts (n : number) :
  gt0 n = true ->
  isNaN n = false /\ truthy n = true /\ le0 n = false /\ lt0 n = false
  /\ ge0 n = true /\ is0 n = false /\ has_sign false n = true.
Proof.
  destruct n as [[|]|[|]| |[|] m e]; intros H; try discriminate H;
    repeat split; reflexivity.
Qed.

Lemma not_le0_gt0 (n : number) : isNaN n = false -> le0 n = false -> gt0 n = true.
Proof.
  destruct n as [[|]|[|]| |[|] m e]; intros H1 H2; try discriminate; reflexivity.
Qed.

Lemma not_gt0_le0 (n : number) : isNaN n = false -> gt0 n = false -> le0 n = true.
Proof.
  destruct n as [[|]|[|]| |[|] m e]; intros H1 H2; try discriminate; reflexivity.
Qed.

Lemma truthy_ge0 (n : number) : truthy n = true -> ge0 n = true -> gt0 n = true.
Proof.
  destruct n as [[|]|[|]| |[|] m e]; intros H1 H2; try discriminate; reflexivity.
Qed.

Lemma falsy_cases (n : number) :
  truthy n = false -> is0 n = true \/ n = NaN.
Proof. destruct n as [[|]|[|]| |[|] m e]; intros H; try discriminate; auto. Qed.

(** The product of a price that is 0 or above 0 and a quantity above 0
    is NaN for 0 times Infinity only, and is not negative otherwise. *)
Lemma mul_price_qty (p q : number) :
  p = zero \/ gt0 p = true -> gt0 q = true ->
  (mul p q = NaN /\ p = zero /\ q = Infinity)
  \/ (has_sign false (mul p q) = true /\ ~ (p = zero /\ q = Infinity)).
Proof.
  intros Hp Hq.
  destruct q as [[|]|[|]| |[|] mq eq]; try discriminate Hq.
  - destruct Hp as [Hp|Hp]; [left; subst; auto|].
    right. split; [|intros [E _]; subst; discriminate].
    destruct p as [[|]|[|]| |[|] mp ep]; try discriminate Hp; reflexivity.
  - right. split; [|intros [_ E]; discriminate].
    destruct Hp as [Hp|Hp]; [subst; reflexivity|].
    destruct p as [[|]|[|]| |[|] mp ep]; try discriminate Hp; [reflexivity|].
    unfold mul, SFmul. apply binary_round_aux_sign. lia.
Qed.

(** A sum of numbers that are not negative is not negative. *)
Lemma add_not_negative (a b : number) :
  ge0 a = true -> ge0 b = true -> ge0 (add a b) = true.
Proof.
  intros Ha Hb.
  destruct a as [[|]|[|]| |[|] ma ea]; try discriminate Ha;
    destruct b as [[|]|[|]| |[|] mb eb]; try discriminate Hb; try reflexivity.
  unfold add, SFadd. cbv zeta. simpl cond_Zopp.
  apply not_negative_ge0.
  match goal with |- context [binary_normalize _ _ (Z.add (Zpos ?x) (Zpos ?y)) ?e _] =>
    change (Z.add (Zpos x) (Zpos y)) with (Zpos (x + y)) end.
  unfold binary_normalize, binary_round.
  destruct (shl_align _ _ _) as [mz ez].
  apply binary_round_aux_sign. lia.
Qed.

Set Implicit Arguments.

Lemma digit_not_space (c : char) : is_digit c = true -> is_space c = false.
Proof.
  unfold is_digit, is_space. intros H.
  apply andb_true_iff in H. destruct H as [H1 H2].
  apply N.leb_le in H1, H2.
  repeat match goal with
         | |- (_ || _)%bool = false => apply orb_false_intro
         | |- (_ && _)%bool = false =>
             apply andb_false_iff;
             first [ left; apply N.leb_gt; lia | right; apply N.leb_gt; lia ]
         | |- N.eqb _ _ = false => apply N.eqb_neq; lia
         end.
Qed.

(** A text that starts with a digit reads as a number, never as NaN. *)
Lemma parseFloat_digit (c : char) (tl : jsstring) :
  is_digit c = true -> isNaN (parseFloat (c :: tl)) = false.
Proof.
  intros H. unfold parseFloat. simpl trimStart.
  rewrite (digit_not_space c H). simpl take_digits. rewrite H.
  destruct (take_digits tl) as [d r].
  destruct r as [|x r]; [apply num_not_nan|].
  destruct (N.eqb x 46); [|apply num_not_nan].
  destruct (take_digits r). apply ratio_not_nan.
Qed.

Lemma RepeatMatcher_min m gs greedy k budget mn x :
  RepeatMatcher m gs greedy k (S budget) (S mn) None x
  = m (clear_caps gs x) (fun y => RepeatMatcher m gs greedy k budget mn None y).
Proof. reflexivity. Qed.

(** A match of [[...]+] starts with a code unit of the class. *)
Lemma plus1_class_inv (ic neg : bool) items (st : mstate) k res :
  mtch ic (plus1 (Class neg items)) st k = Some res ->
  exists st1 c tl,
    k st1 = Some res /\ rest st = c :: tl /\
    class_matches ic neg items c = true /\ pos st < pos st1.
Proof.
  unfold plus1. intros H. cbn [mtch] in H.
  change (S (1 + List.length (rest st))) with (S (S (List.length (rest st)))) in H.
  rewrite RepeatMatcher_min in H. cbn [mtch] in H.
  destruct (advance (clear_caps (groups_of (Class neg items)) st))
    as [[c st']|] eqn:Ea; [|discriminate].
  destruct (class_matches ic neg items c) eqn:Ec; [|discriminate].
  destruct (@RepeatMatcher_inv _ _ _ _ (mtch_inv ic (Class neg items)) _ _ _ _ _ H)
    as [st1 [Hk [Hp _]]].
  unfold advance in Ea. simpl in Ea.
  destruct (rest st) as [|c0 tl] eqn:Er; [discriminate|].
  inversion Ea; subst c0 st'. simpl in Hp.
  exists st1, c, tl. repeat split; auto.
Qed.

(** A match of [\d+(?:\.\d+)?] is not empty and starts with a digit. *)
Lemma decimal_number_inv (ic : bool) (st : mstate) k res :
  mtch ic decimal_number st k = Some res ->
  exists st1 c tl,
    k st1 = Some res /\ rest st = c :: tl /\ is_digit c = true /\ pos st < pos st1.
Proof.
  unfold decimal_number, digit. intros H. cbn [mtch] in H.
  apply plus1_class_inv in H. destruct H as [s1 [c [tl [H [Hr [Hc Hp]]]]]].
  apply mtch_inv in H. destruct H as [s2 [Hk [Hp2 _]]].
  exists s2, c, tl. repeat split; auto; [|lia].
  unfold class_matches in Hc. simpl in Hc. rewrite orb_false_r in Hc. exact Hc.
Qed.

(** In a pattern [A(\d+(?:\.\d+)?)B], where [B] has no group 1, the first
    capture of a match starts with a digit. *)
Lemma group1_number (ic : bool) (A B : regex) (st res : mstate) :
  ~ In 1 (groups_of B) ->
  mtch ic (Seq A (Seq (Group 1 decimal_number) B)) st Some = Some res ->
  exists c tl, cap_get 1 (caps res) = Some (c :: tl) /\ is_digit c = true.
Proof.
  intros HB H. cbn [mtch] in H.
  apply mtch_inv in H. destruct H as [s1 [H _]].
  apply decimal_number_inv in H. destruct H as [s2 [c [tl [H [Hr [Hc Hp]]]]]].
  apply mtch_inv in H. destruct H as [s3 [H [_ Hcaps]]].
  inversion H; subst s3.
  rewrite (Hcaps 1 HB), cap_get_set_same, Hr.
  destruct (pos s2 - pos s1) as [|n] eqn:En; [lia|].
  simpl. exists c, (firstn n tl). auto.
Qed.

Lemma search_match_at (re : RegExp) (s : jsstring) :
  forall p i m, search re p s i = Some m ->
    exists st, match_at re st = Some m.
Proof.
  induction s as [|c s IH]; intros p i m H; simpl in H.
  - destruct (match_at re (MState p [] i [])) eqn:E; [|discriminate].
    inversion H; subst. eauto.
  - destruct (match_at re (MState p (c :: s) i [])) eqn:E.
    + inversion H; subst. eauto.
    + eauto.
Qed.

Lemma exec_group1_number (re : RegExp) (A B : regex) (s : jsstring) (m : MatchResult) :
  (forall st, mtch (ignoreCase re) (pattern re) st Some
              = mtch (ignoreCase re) (Seq A (Seq (Group 1 decimal_number) B)) st Some) ->
  ~ In 1 (groups_of B) ->
  exec re s = Some m ->
  isNaN (parseFloat_group 1 m) = false.
Proof.
  intros Hp HB H. unfold exec in H.
  apply search_match_at in H. destruct H as [st H].
  unfold match_at in H. rewrite Hp in H.
  destruct (mtch (ignoreCase re) _ st Some) as [res|] eqn:E; [|discriminate].
  inversion H; subst m.
  destruct (group1_number _ _ _ _ HB E) as [c [tl [Hg Hc]]].
  unfold parseFloat_group, group. simpl. rewrite Hg.
  apply parseFloat_digit. exact Hc.
Qed.

(** The amount that the payment patterns extract is never NaN. *)
Lemma payment_extraction_number (cleanText : jsstring) amount customerName :
  payment_extraction cleanText = Some (amount, customerName) ->
  isNaN amount = false.
Proof.
  unfold payment_extraction. intros H.
  destruct (exec payment_pattern1 cleanText) as [m1|] eqn:E1.
  { inversion H; subst.
    apply (@exec_group1_number payment_pattern1
             (Seq currency (star ws))
             (seqs [plus1 ws; by_from_for; plus1 ws;
                    Group 2 (Seq letter (lazy_star letter_or_space)); InputEnd])
             cleanText m1); [intros; reflexivity | | exact E1].
    vm_compute. intuition discriminate. }
  destruct (exec payment_pattern2 cleanText) as [m2|] eqn:E2.
  { inversion H; subst.
    apply (@exec_group1_number payment_pattern2
             InputStart
             (seqs [plus1 ws; by_from_for; plus1 ws;
                    Group 2 (Seq letter (lazy_star letter_or_space)); InputEnd])
             cleanText m2); [intros; reflexivity | | exact E2].
    vm_compute. intuition discriminate. }
  destruct (exec payment_pattern3 cleanText) as [m3|] eqn:E3; [|discriminate].
  inversion H; subst.
  apply (@exec_group1_number payment_pattern3
           (Seq (opt currency) (star ws))
           (Seq (opt (ch ".")) InputEnd)
           cleanText m3); [intros; reflexivity | | exact E3].
  vm_compute. intuition discriminate.
Qed.

(* ================================================================== *)
(** * The forms of the results *)
(* ================================================================== *)

Unset Implicit Arguments.

Lemma snoc_not_nil {A} (l : list A) (x : A) : l ++ [x] <> [].
Proof. destruct l; discriminate. Qed.

Section Shapes.

Variable rt : Runtime.

Lemma parseCreditPayment_shape text warnings source :
  result_shape source (parseCreditPayment rt text warnings source).
Proof.
  unfold parseCreditPayment.
  destruct (payment_extraction (payment_text text)) as [[amount customerName]|] eqn:E.
  - pose proof (payment_extraction_number _ E) as Hn.
    destruct (le0 amount) eqn:Hle.
    + apply shape_soft; auto using snoc_not_nil.
    + eapply shape_payment; [reflexivity | reflexivity |].
      exact (not_le0_gt0 amount Hn Hle).
  - apply shape_soft; auto using snoc_not_nil.
Qed.

Lemma parseCreditSale_shape text warnings source :
  result_shape source (parseCreditSale rt text warnings source).
Proof.
  unfold parseCreditSale.
  destruct (parseSentenceWithPriceLookup rt _) as [e|[entries parseWarnings]].
  - apply shape_soft; auto using snoc_not_nil.
  - destruct entries as [|entry [|entry' more]].
    + apply shape_soft; auto using snoc_not_nil.
    + apply shape_sale. reflexivity.
    + apply shape_sale. reflexivity.
Qed.

Lemma parseCreditCommand_shape text :
  result_shape text (parseCreditCommand rt text).
Proof.
  unfold parseCreditCommand.
  destruct (is_empty text || negb (isCreditCommand text)).
  - apply shape_soft; [auto | discriminate].
  - destruct (getCreditCommandType text) as [[|]|].
    + apply parseCreditSale_shape.
    + apply parseCreditPayment_shape.
    + apply shape_soft; [auto | discriminate].
Qed.

Lemma parseOrderCommand_shape text :
  result_shape text (parseOrderCommand rt text).
Proof.
  unfold parseOrderCommand.
  destruct (is_empty text || is_empty (trim text)).
  - apply shape_soft; [auto | discriminate].
  - cbv zeta.
    match goal with |- context [if Nat.eqb ?n 0 then _ else _] =>
      destruct (Nat.eqb n 0) end.
    + apply shape_soft; [auto | discriminate].
    + apply shape_order.
Qed.

Lemma parseEnhanced_shape text :
  result_shape text (parseEnhanced rt text).
Proof.
  unfold parseEnhanced.
  destruct (is_empty text || is_empty (trim text)).
  { apply shape_soft; [auto | discriminate]. }
  destruct (isCreditCommand text).
  { apply parseCreditCommand_shape. }
  destruct (isOrderCommand rt text).
  { apply parseOrderCommand_shape. }
  cbv zeta.
  destruct (Nat.ltb 0 (List.length (parsePriceSentence rt text))).
  { apply shape_price. }
  destruct (parseSentence rt text).
  - apply shape_soft; [auto | discriminate].
  - apply shape_entry.
Qed.

End Shapes.

(* ================================================================== *)
(** * Classifier ordering *)
(* ================================================================== *)

Lemma parseCreditCommand_type (rt : Runtime) (text : jsstring) :
  ParsedResult.type (parseCreditCommand rt text) = T_credit \/
  ParsedResult.type (parseCreditCommand rt text) = T_transaction.
Proof.
  unfold parseCreditCommand.
  destruct (is_empty text || negb (isCreditCommand text)); [right; reflexivity|].
  destruct (getCreditCommandType text) as [[|]|]; [| |right; reflexivity].
  - unfold parseCreditSale.
    destruct (parseSentenceWithPriceLookup rt _) as [e|[entries parseWarnings]];
      [right; reflexivity|].
    destruct entries as [|entry [|entry' more]]; [right|left|left]; reflexivity.
  - unfold parseCreditPayment.
    destruct (payment_extraction _) as [[amount customerName]|]; [|right; reflexivity].
    destruct (le0 amount); [right|left]; reflexivity.
Qed.

(** A credit command is never handled as a price update. *)
Lemma credit_command_never_price (rt : Runtime) (text : jsstring) :
  isCreditCommand text = true ->
  ParsedResult.type (parseEnhanced rt text) <> T_price /\
  parsePriceSentence rt text = [].
Proof.
  intros Hc. split.
  - unfold parseEnhanced.
    destruct (is_empty text || is_empty (trim text)); [discriminate|].
    rewrite Hc.
    destruct (parseCreditCommand_type rt text) as [H|H]; rewrite H; discriminate.
  - unfold parsePriceSentence.
    destruct (is_empty text || is_empty (trim text)); [reflexivity|].
    rewrite Hc. reflexivity.
Qed.

Lemma credit_command_not_blank (text : jsstring) :
  isCreditCommand text = true -> is_empty text || is_empty (trim text) = false.
Proof.
  unfold isCreditCommand. destruct text as [|c text]; [discriminate|].
  cbv zeta. simpl is_empty at 1. cbn [orb].
  destruct (trim (c :: text)); [discriminate | reflexivity].
Qed.

(** C1. The credit test runs before every other test of the classifier:
    for every text that is a credit command, whatever else it contains,
    [parseEnhanced] returns the result of the credit parser, so a result of
    type 'credit' or, on a soft failure, 'transaction', and never one of
    type 'price' or 'order'; and the price parser itself tests for a credit
    command first and returns no update for such a text.  For the text
    "Credit Sales 1 kg Rice for Rs 20 for Priya", on whatever host, the
    type is 'credit', although the text contains "Rs", the price keyword
    "rs" once in lower case. *)
Theorem classifier_credit_before_price (rt : Runtime) :
  (forall text,
     isCreditCommand text = true ->
     parseEnhanced rt text = parseCreditCommand rt text
     /\ ParsedResult.type (parseEnhanced rt text) <> T_price
     /\ ParsedResult.type (parseEnhanced rt text) <> T_order
     /\ parsePriceSentence rt text = [])
  /\ ParsedResult.type
       (parseEnhanced rt (str "Credit Sales 1 kg Rice for Rs 20 for Priya")) = T_credit
  /\ isCreditCommand (str "Credit Sales 1 kg Rice for Rs 20 for Priya") = true
  /\ includes (str "Credit Sales 1 kg Rice for Rs 20 for Priya") (str "Rs") = true
  /\ includes (toLowerCase rt (str "Credit Sales 1 kg Rice for Rs 20 for Priya"))
       (str "rs") = true
  /\ parsePriceSentence rt (str "Credit Sales 1 kg Rice for Rs 20 for Priya") = [].
Proof.
  split; [|vm_compute; repeat split; reflexivity].
  intros text Hc.
  assert (E : parseEnhanced rt text = parseCreditCommand rt text).
  { unfold parseEnhanced. rewrite (credit_command_not_blank text Hc), Hc. reflexivity. }
  rewrite E.
  pose proof (proj2 (credit_command_never_price rt text Hc)) as Hp.
  destruct (parseCreditCommand_type rt text) as [H|H]; rewrite H;
    repeat split; try discriminate; exact Hp.
Qed.

Lemma classifier_credit_before_price_witness :
  parseEnhanced catalog45 (str "credit paid rs 500 for order by Priya")
  = parseCreditCommand catalog45 (str "credit paid rs 500 for order by Priya")
  /\ isOrderCommand catalog45 (str "credit paid rs 500 for order by Priya") = true
  /\ ParsedResult.type (parseEnhanced catalog45 (str "credit paid rs 500 for order by Priya"))
     <> T_order
  /\ parsePriceSentence catalog45 (str "credit paid rs 500 for order by Priya") = [].
Proof.
  destruct (proj1 (classifier_credit_before_price catalog45)
              (str "credit paid rs 500 for order by Priya")) as [H1 [_ [H3 H4]]];
    [vm_compute; reflexivity|].
  split; [exact H1|]. split; [vm_compute; reflexivity|]. split; [exact H3 | exact H4].
Defined.

(* ================================================================== *)
(** * The envelope *)
(* ================================================================== *)

(** C2, as stated, fails: for the empty text the result has type
    'transaction' and none of the four payload fields. *)
Lemma exactly_one_payload_fails_on_empty_text :
  ~ (populated (parseEnhanced catalog45 []) = 1
     /\ payload_of_type (parseEnhanced catalog45 []) = true).
Proof. vm_compute. intros [H _]. discriminate. Qed.

(** C2, amended. For every text, at most one of [entry], [order],
    [priceUpdates], [credit] is populated, and a populated field is the
    one of the result's type; a result of type 'price' or 'credit' always
    has its payload; a result without payload (a soft failure, of type
    'transaction' or 'order') has a non-empty warnings list. *)
Theorem payload_follows_type (rt : Runtime) (text : jsstring) :
  populated (parseEnhanced rt text) <= 1
  /\ (populated (parseEnhanced rt text) = 1 ->
      payload_of_type (parseEnhanced rt text) = true)
  /\ (ParsedResult.type (parseEnhanced rt text) = T_price \/
      ParsedResult.type (parseEnhanced rt text) = T_credit ->
      populated (parseEnhanced rt text) = 1)
  /\ (populated (parseEnhanced rt text) = 0 ->
      (ParsedResult.type (parseEnhanced rt text) = T_transaction \/
       ParsedResult.type (parseEnhanced rt text) = T_order)
      /\ ParsedResult.warnings (parseEnhanced rt text) <> []).
Proof.
  remember (parseEnhanced rt text) as r eqn:Er.
  pose proof (parseEnhanced_shape rt text) as Hs. rewrite <- Er in Hs.
  destruct Hs as [ty ws Ht Hw | | | | | ];
    unfold populated, payload_of_type; simpl.
  - split; [lia|]. split; [discriminate|]. split.
    + intros [H|H]; destruct Ht; congruence.
    + intros _. split; assumption.
  - split; [lia|]. split; [reflexivity|]. split; [reflexivity|discriminate].
  - split; [lia|]. split; [reflexivity|]. split; [reflexivity|discriminate].
  - split; [lia|]. split; [reflexivity|]. split; [reflexivity|discriminate].
  - split; [lia|]. split; [reflexivity|]. split; [reflexivity|discriminate].
  - split; [lia|]. split; [reflexivity|]. split; [reflexivity|discriminate].
Qed.

Lemma payload_follows_type_witness :
  populated (parseEnhanced catalog45 (str "sold rice for 20 rupees")) = 1
  /\ payload_of_type (parseEnhanced catalog45 (str "sold rice for 20 rupees")) = true
  /\ populated (parseEnhanced catalog45 (str "order")) = 0
  /\ ParsedResult.warnings (parseEnhanced catalog45 (str "order")) <> [].
Proof.
  destruct (payload_follows_type catalog45 (str "sold rice for 20 rupees"))
    as [_ [H1 _]].
  destruct (payload_follows_type catalog45 (str "order")) as [_ [_ [_ H0]]].
  split; [vm_compute; reflexivity|].
  split; [apply H1; vm_compute; reflexivity|].
  split; [vm_compute; reflexivity|].
  apply H0. vm_compute. reflexivity.
Defined.

(** C4. A result of type 'credit' whose credit payload has type 'payment'
    has [forceReview] set to true. *)
Theorem credit_payment_forces_review (rt : Runtime) (text : jsstring) (c : Credit.t) :
  ParsedResult.type (parseEnhanced rt text) = T_credit ->
  ParsedResult.credit (parseEnhanced rt text) = Some c ->
  Credit.type c = payment ->
  ParsedResult.forceReview (parseEnhanced rt text) = Some true.
Proof.
  remember (parseEnhanced rt text) as r eqn:Er.
  pose proof (parseEnhanced_shape rt text) as Hs. rewrite <- Er in Hs.
  destruct Hs as [ | | | | c' ws Hsale | ]; simpl; intros Ht Hc Hp;
    try discriminate; try reflexivity.
  inversion Hc; subst. congruence.
Qed.

Lemma credit_payment_forces_review_witness :
  ParsedResult.type (parseEnhanced catalog45 (str "Credit Paid Rs 500 by priya")) = T_credit
  /\ option_map Credit.type
       (ParsedResult.credit (parseEnhanced catalog45 (str "Credit Paid Rs 500 by priya")))
     = Some payment
  /\ ParsedResult.forceReview (parseEnhanced catalog45 (str "Credit Paid Rs 500 by priya"))
     = Some true.
Proof.
  split; [vm_compute; reflexivity|].
  split; [vm_compute; reflexivity|].
  apply (credit_payment_forces_review catalog45 (str "Credit Paid Rs 500 by priya")
           (Credit.mk payment (str "Priya") (Some (num 500)) None None None None None));
    vm_compute; reflexivity.
Defined.

(** C10. For every text, the result of [parseEnhanced] has the text as its
    [source_text]; so have the results of the credit and order parsers,
    and the results that the [catch] blocks build. *)
Theorem source_text_preserved (rt : Runtime) (text : jsstring) :
  ParsedResult.source_text (parseEnhanced rt text) = text
  /\ ParsedResult.source_text (parseCreditCommand rt text) = text
  /\ ParsedResult.source_text (parseOrderCommand rt text) = text
  /\ ParsedResult.source_text (enhanced_error text) = text
  /\ ParsedResult.source_text (order_error text) = text
  /\ (forall message warnings,
        ParsedResult.source_text (credit_error message warnings text) = text).
Proof.
  assert (Hsh : forall r, result_shape text r -> ParsedResult.source_text r = text).
  { intros r Hs. destruct Hs; reflexivity. }
  repeat split.
  - apply Hsh, parseEnhanced_shape.
  - apply Hsh, parseCreditCommand_shape.
  - apply Hsh, parseOrderCommand_shape.
Qed.

(* ================================================================== *)
(** * Credit payments *)
(* ================================================================== *)

(** A credit-paid utterance goes to [parseCreditPayment] with a fresh
    warnings array. *)
Lemma parseCreditCommand_paid (rt : Runtime) (text : jsstring) :
  getCreditCommandType text = Some payment ->
  parseCreditCommand rt text = parseCreditPayment rt text [] text.
Proof.
  intros H. unfold parseCreditCommand. rewrite H.
  unfold getCreditCommandType in H. unfold isCreditCommand.
  destruct (is_empty text); [discriminate|].
  destruct (test re_credit_sales (trim text)); [discriminate|].
  destruct (test re_credit_paid (trim text)); [|discriminate].
  reflexivity.
Qed.

Lemma payment_extraction_none (cleanText : jsstring) :
  exec payment_pattern1 cleanText = None ->
  exec payment_pattern2 cleanText = None ->
  exec payment_pattern3 cleanText = None ->
  payment_extraction cleanText = None.
Proof. unfold payment_extraction. intros -> -> ->. reflexivity. Qed.

(** C5. For every credit-paid utterance: if none of the three patterns
    matches the text after "Credit Paid", or if the amount they extract is
    not above 0, the credit parser returns a result of type 'transaction'
    without credit payload and with a non-empty warnings list; and a credit
    payload that is returned has an amount above 0. *)
Theorem credit_payment_amount_validation (rt : Runtime) (text : jsstring) :
  getCreditCommandType text = Some payment ->
  (exec payment_pattern1 (payment_text text) = None ->
   exec payment_pattern2 (payment_text text) = None ->
   exec payment_pattern3 (payment_text text) = None ->
   soft_failure (parseCreditCommand rt text))
  /\ (forall amount customerName,
        payment_extraction (payment_text text) = Some (amount, customerName) ->
        gt0 amount = false ->
        soft_failure (parseCreditCommand rt text))
  /\ (forall c,
        ParsedResult.credit (parseCreditCommand rt text) = Some c ->
        Credit.type c = payment /\
        exists amount, Credit.amount c = Some amount /\ gt0 amount = true).
Proof.
  intros Hpaid. rewrite (parseCreditCommand_paid rt text Hpaid).
  unfold parseCreditPayment, soft_failure.
  split; [|split].
  - intros H1 H2 H3. rewrite (payment_extraction_none _ H1 H2 H3).
    split; [reflexivity|]. split; [reflexivity|]. apply snoc_not_nil.
  - intros amount customerName He Hgt. rewrite He.
    rewrite (not_gt0_le0 amount (payment_extraction_number _ He) Hgt).
    split; [reflexivity|]. split; [reflexivity|]. apply snoc_not_nil.
  - intros c Hc.
    destruct (payment_extraction (payment_text text)) as [[amount customerName]|] eqn:E;
      [|discriminate].
    pose proof (payment_extraction_number _ E) as Hn.
    destruct (le0 amount) eqn:Hle; [discriminate|].
    simpl in Hc. inversion Hc. simpl.
    split; [reflexivity|]. exists amount. split; [reflexivity|].
    exact (not_le0_gt0 amount Hn Hle).
Qed.

Lemma credit_payment_amount_validation_witness :
  (* nothing to extract *)
  (getCreditCommandType (str "Credit Paid soon") = Some payment
   /\ soft_failure (parseCreditCommand catalog45 (str "Credit Paid soon")))
  (* an amount of 0 *)
  /\ (getCreditCommandType (str "Credit Paid Rs 0 by Priya") = Some payment
      /\ payment_extraction (payment_text (str "Credit Paid Rs 0 by Priya"))
         = Some (zero, str "Priya")
      /\ soft_failure (parseCreditCommand catalog45 (str "Credit Paid Rs 0 by Priya")))
  (* an amount above 0 *)
  /\ (getCreditCommandType (str "Credit Paid Rs 500 by Priya") = Some payment
      /\ exists c amount,
           ParsedResult.credit (parseCreditCommand catalog45 (str "Credit Paid Rs 500 by Priya"))
           = Some c
           /\ Credit.amount c = Some amount /\ gt0 amount = true).
Proof.
  split; [|split].
  - split; [vm_compute; reflexivity|].
    apply (credit_payment_amount_validation catalog45 (str "Credit Paid soon")
             ltac:(vm_compute; reflexivity));
      vm_compute; reflexivity.
  - split; [vm_compute; reflexivity|].
    split; [vm_compute; reflexivity|].
    apply (proj1 (proj2 (credit_payment_amount_validation catalog45
                           (str "Credit Paid Rs 0 by Priya")
                           ltac:(vm_compute; reflexivity)))
             zero (str "Priya"));
      vm_compute; reflexivity.
  - split; [vm_compute; reflexivity|].
    exists (Credit.mk payment (str "Priya") (Some (num 500)) None None None None None).
    destruct (proj2 (proj2 (credit_payment_amount_validation catalog45
                              (str "Credit Paid Rs 500 by Priya")
                              ltac:(vm_compute; reflexivity)))
                (Credit.mk payment (str "Priya") (Some (num 500)) None None None None None)
                ltac:(vm_compute; reflexivity))
      as [_ [amount [Ha Hpos]]].
    exists amount. split; [vm_compute; reflexivity|]. split; assumption.
Defined.

(* ================================================================== *)
(** * Quantities and units *)
(* ================================================================== *)

Lemma first_positive_gt0 (patterns : list RegExp) (text : jsstring) (value : number) :
  first_positive patterns text = Some value -> gt0 value = true.
Proof.
  induction patterns as [|pattern more IH]; simpl; [discriminate|].
  destruct (exec pattern text) as [m|]; auto.
  destruct (group 1 m) as [g|]; auto.
  destruct (is_empty g); auto.
  destruct (negb (isNaN (parseFloat g)) && gt0 (parseFloat g)) eqn:E; auto.
  intros H. inversion H; subst. apply andb_true_iff in E. tauto.
Qed.

Lemma first_positive_no_match (patterns : list RegExp) (text : jsstring) :
  Forall (fun pattern => exec pattern text = None) patterns ->
  first_positive patterns text = None.
Proof.
  induction 1 as [|pattern more H _ IH]; simpl; [reflexivity|].
  rewrite H. exact IH.
Qed.

Lemma extractQuantity_positive (text : jsstring) :
  gt0 (extractQuantity text) = true.
Proof.
  unfold extractQuantity.
  destruct (is_empty text); [reflexivity|].
  destruct (first_positive quantityPatterns text) as [quantity|] eqn:E.
  - eapply first_positive_gt0; eauto.
  - reflexivity.
Qed.

(** C8. For every text, [extractQuantity] returns a number above 0 (so
    not NaN), and it returns 1 when none of its three patterns matches. *)
Theorem extractQuantity_positive_default_one (text : jsstring) :
  (gt0 (extractQuantity text) = true /\ isNaN (extractQuantity text) = false)
  /\ (Forall (fun pattern => exec pattern text = None) quantityPatterns ->
      extractQuantity text = num 1).
Proof.
  split.
  { pose proof (extractQuantity_positive text) as H.
    split; [exact H | exact (proj1 (gt0_facts _ H))]. }
  intros H. unfold extractQuantity.
  rewrite (first_positive_no_match _ _ H).
  destruct (is_empty text); reflexivity.
Qed.

Lemma extractQuantity_positive_default_one_witness :
  Forall (fun pattern => exec pattern (str "sold rice for 20 rupees") = None)
    quantityPatterns
  /\ extractQuantity (str "sold rice for 20 rupees") = num 1
  /\ List.length quantityPatterns = 3.
Proof.
  assert (H : Forall (fun pattern => exec pattern (str "sold rice for 20 rupees") = None)
                quantityPatterns).
  { unfold quantityPatterns. repeat constructor; vm_compute; reflexivity. }
  split; [exact H|].
  split; [|reflexivity].
  exact (proj2 (extractQuantity_positive_default_one (str "sold rice for 20 rupees")) H).
Defined.

(** C9. For every unit [u] of the known-unit table,
    [normalizeUnit(normalizeUnit(u))] is [normalizeUnit(u)]. *)
Theorem normalizeUnit_idempotent (rt : Runtime) (u : string) :
  In u KNOWN_UNITS ->
  normalizeUnit rt (normalizeUnit rt (str u)) = normalizeUnit rt (str u).
Proof.
  unfold KNOWN_UNITS. intros H.
  repeat (destruct H as [H|H]; [subst u; vm_compute; reflexivity|]).
  destruct H.
Qed.

Lemma normalizeUnit_idempotent_witness :
  In "kilograms" KNOWN_UNITS
  /\ normalizeUnit catalog45 (str "kilograms") = str "kg"
  /\ normalizeUnit catalog45 (normalizeUnit catalog45 (str "kilograms"))
     = normalizeUnit catalog45 (str "kilograms").
Proof.
  assert (H : In "kilograms" KNOWN_UNITS) by (vm_compute; tauto).
  split; [exact H|].
  split; [vm_compute; reflexivity|].
  exact (normalizeUnit_idempotent catalog45 "kilograms" H).
Defined.

(* ================================================================== *)
(** * Totals *)
(* ================================================================== *)

Lemma round2_close (x : Q) : (Qabs (x - round2 x) <= 1 # 200)%Q.
Proof.
  unfold round2.
  pose proof (Qfloor_le (x * 100 + (1 # 2))) as H1.
  pose proof (Qlt_floor (x * 100 + (1 # 2))) as H2.
  rewrite inject_Z_plus in H2. change (inject_Z 1) with 1%Q in H2.
  set (n := Qfloor (x * 100 + (1 # 2))) in *.
  assert (E : (n # 100 == inject_Z n * (1 # 100))%Q).
  { unfold Qeq. simpl. lia. }
  rewrite E. apply Qabs_Qle_condition. split; lra.
Qed.

Lemma extractPrice_positive (text : jsstring) (price : number) :
  extractPrice text = Some price -> gt0 price = true.
Proof.
  unfold extractPrice. destruct (is_empty text); [discriminate|].
  intros H. eapply first_positive_gt0; eauto.
Qed.

Lemma num_or_truthy (a d : number) : truthy a = true -> num_or a d = a.
Proof. unfold num_or. intros H; rewrite H; reflexivity. Qed.

Lemma num_or_gt0 (a d : number) : gt0 a = true -> num_or a d = a.
Proof. intros H. apply num_or_truthy. apply (gt0_facts a H). Qed.

Lemma parseSingleItem_well_priced (rt : Runtime) (chunk : jsstring) (e : Entry.t) :
  parseSingleItem rt chunk = Some e ->
  well_priced e /\ Entry.price_source e = None.
Proof.
  unfold parseSingleItem.
  destruct (is_empty chunk || is_empty (trim chunk)); [discriminate|].
  cbv zeta.
  destruct (item_and_unit rt (trim chunk)) as [err|[[item unit]|]]; try discriminate.
  match goal with |- context [if ?c then None else _] => destruct c end;
    [discriminate|].
  intros H. inversion H; subst e; clear H. split; [|reflexivity].
  unfold well_priced. simpl.
  split; [|split; [apply extractQuantity_positive | reflexivity]].
  destruct (extractPrice (trim chunk)) as [price|] eqn:Ep; [|left; reflexivity].
  pose proof (extractPrice_positive _ _ Ep) as Hp.
  rewrite (num_or_gt0 _ _ Hp). right. exact Hp.
Qed.

Lemma parseSentence_from_chunks (rt : Runtime) (raw : jsstring) (e : Entry.t) :
  In e (parseSentence rt raw) -> exists chunk, parseSingleItem rt chunk = Some e.
Proof.
  assert (Harr : forall c, In e (to_array (parseSingleItem rt c)) ->
                   exists chunk, parseSingleItem rt chunk = Some e).
  { intros c. destruct (parseSingleItem rt c) as [r|] eqn:E; simpl; [|tauto].
    intros [H|[]]. subst. eauto. }
  unfold parseSentence.
  destruct (is_empty raw || is_empty (trim raw)); [intros []|].
  cbv zeta.
  destruct (Nat.leb _ 1); [apply Harr|].
  match goal with |- context [if Nat.eqb ?n 0 then _ else _] =>
    destruct (Nat.eqb n 0) end; [apply Harr|].
  intros H. apply in_flat_map in H. destruct H as [c [_ H]].
  destruct (is_empty (trim c)); [destruct H|]. eapply Harr; eauto.
Qed.

Lemma parseSentence_well_priced (rt : Runtime) (raw : jsstring) (e : Entry.t) :
  In e (parseSentence rt raw) -> well_priced e /\ Entry.price_source e = None.
Proof.
  intros H. destruct (parseSentence_from_chunks _ _ _ H) as [chunk Hc].
  eapply parseSingleItem_well_priced; eauto.
Qed.

(* ================================================================== *)
(** * Price lookup *)
(* ================================================================== *)

Lemma str_or_nil (a : jsstring) : str_or a [] = a.
Proof. destruct a; reflexivity. Qed.

(** What the callback returns, by the parsed price and the answer of the
    price store. *)
Lemma enhance_cases (rt : Runtime) (item : Entry.t) :
  exists finalPrice priceSource,
    enhance rt item
    = inr (Entry.mk (Entry.item item) (Entry.qty item) (Entry.unit item)
             finalPrice (mul finalPrice (num_or (Entry.qty item) one))
             (Entry.type item) (Entry.source_text item)
             (Entry.transaction_date item) (Some priceSource))
    /\ ((truthy (Entry.price item) = true /\
         finalPrice = Entry.price item /\ priceSource = parsed_source)
        \/ (truthy (Entry.price item) = false /\
            ((exists p, lookupPrice rt (Entry.item item) = Resolved (Some p) /\
                        truthy p && gt0 p = true /\
                        finalPrice = p /\ priceSource = auto_lookup_source)
             \/ ((forall p, lookupPrice rt (Entry.item item) = Resolved (Some p) ->
                             truthy p && gt0 p = false) /\
                 finalPrice = zero /\ priceSource = parsed_source)))).
Proof.
  unfold enhance. rewrite str_or_nil.
  destruct (truthy (Entry.price item)) eqn:Ht; cbv zeta.
  - assert (Hn : num_or (Entry.price item) zero = Entry.price item).
    { unfold num_or. rewrite Ht. reflexivity. }
    assert (E : negb (truthy (Entry.price item)) || is0 (Entry.price item) = false).
    { rewrite Ht. unfold truthy in Ht.
      destruct (is0 (Entry.price item)); [discriminate | reflexivity]. }
    rewrite Hn, E. simpl. eexists _, _. split; [reflexivity|].
    left. repeat split; reflexivity.
  - assert (Hn : num_or (Entry.price item) zero = zero).
    { unfold num_or. rewrite Ht. reflexivity. }
    rewrite Hn. change (negb (truthy zero) || is0 zero) with true. cbv iota.
    destruct (lookupPrice rt (Entry.item item)) as [[p|]|err] eqn:El;
      cbn [bind try_catch await ret].
    + destruct (truthy p && gt0 p) eqn:Ep; cbn [bind try_catch await ret].
      * eexists _, _. split; [reflexivity|]. right. split; auto. left.
        exists p. auto.
      * eexists _, _. split; [reflexivity|]. right. split; auto. right.
        split; auto. intros p' Hp'. inversion Hp'; subst. exact Ep.
    + eexists _, _. split; [reflexivity|]. right. split; auto. right.
      split; auto. intros p' Hp'. discriminate.
    + eexists _, _. split; [reflexivity|]. right. split; auto. right.
      split; auto. intros p' Hp'. discriminate.
Qed.

Lemma enhance_returns (rt : Runtime) (item : Entry.t) :
  exists e, enhance rt item = inr e.
Proof. destruct (enhance_cases rt item) as [fp [ps [H _]]]. eauto. Qed.

Lemma promise_all_map_Forall2 {A B} (f : A -> throws B) (items : list A) :
  (forall x, exists y, f x = inr y) ->
  exists ys, promise_all_map f items = inr ys /\
             Forall2 (fun x y => f x = inr y) items ys.
Proof.
  intros Hf. induction items as [|x items [ys [IH1 IH2]]]; simpl.
  - exists []. split; [reflexivity | constructor].
  - destruct (Hf x) as [y Hy]. rewrite Hy, IH1. simpl.
    exists (y :: ys). split; [reflexivity | constructor; assumption].
Qed.

Lemma promise_all_map_ext {A B} (f g : A -> throws B) (items : list A) :
  (forall x, f x = g x) -> promise_all_map f items = promise_all_map g items.
Proof.
  intros H. induction items as [|x items IH]; simpl; [reflexivity|].
  rewrite H, IH. reflexivity.
Qed.

Lemma Forall2_impl_In {A B} (P Q : A -> B -> Prop) (xs : list A) (ys : list B) :
  Forall2 P xs ys ->
  (forall x y, In x xs -> In y ys -> P x y -> Q x y) ->
  Forall2 Q xs ys.
Proof.
  induction 1 as [|x y xs ys Hxy _ IH]; intros HQ; constructor.
  - apply HQ; simpl; auto.
  - apply IH. intros x' y' Hx Hy. apply HQ; simpl; auto.
Qed.

Lemma filter_nonempty {A} (f : A -> bool) (l : list A) (x : A) :
  In x l -> f x = true -> Nat.ltb 0 (List.length (filter f l)) = true.
Proof.
  intros Hin Hf. assert (H : In x (filter f l)) by (apply filter_In; auto).
  destruct (filter f l); [destruct H | reflexivity].
Qed.

Lemma starts_with_app_r (p a b : jsstring) :
  starts_with p a = true -> starts_with p (a ++ b) = true.
Proof.
  revert a. induction p as [|c p IH]; intros a; simpl; auto.
  destruct a as [|d a]; simpl; [discriminate|].
  intros H. apply andb_true_iff in H. destruct H as [H1 H2].
  rewrite H1. simpl. auto.
Qed.

Lemma includes_app_l (a b p : jsstring) :
  includes a p = true -> includes (a ++ b) p = true.
Proof.
  induction a as [|c a IH]; simpl.
  - rewrite orb_false_r. intros H. destruct p; [|discriminate].
    destruct b; reflexivity.
  - intros H. apply orb_true_iff in H. destruct H as [H|H].
    + change (c :: a ++ b) with ((c :: a) ++ b).
      rewrite (starts_with_app_r _ _ b H). reflexivity.
    + rewrite (IH H). apply orb_true_r.
Qed.

Lemma includes_app_r (a b p : jsstring) :
  includes b p = true -> includes (a ++ b) p = true.
Proof.
  intros H. induction a as [|c a IH]; simpl; auto.
  rewrite IH. apply orb_true_r.
Qed.

Lemma includes_self (p : jsstring) : includes p p = true.
Proof.
  assert (H : starts_with p p = true).
  { induction p as [|c p IH]; simpl; auto. rewrite N.eqb_refl. exact IH. }
  destruct p; simpl in *; auto. rewrite H. reflexivity.
Qed.

(** A joined text contains each of its parts. *)
Lemma includes_join (sep x : jsstring) (l : list jsstring) :
  In x l -> includes (join sep l) x = true.
Proof.
  induction l as [|w l IH]; [intros []|].
  intros [H|H].
  - subst w. destruct l as [|w' l]; simpl; [apply includes_self|].
    apply includes_app_l, includes_self.
  - destruct l as [|w' l]; [destruct H|].
    change (join sep (w :: w' :: l)) with (w ++ sep ++ join sep (w' :: l)).
    apply includes_app_r, includes_app_r, IH, H.
Qed.

Lemma starts_with_includes (p w : jsstring) :
  starts_with p w = true -> includes w p = true.
Proof. intros H. destruct w; simpl in *; rewrite H; reflexivity. Qed.

(** The lookup always returns; its entries are the items, each enhanced by
    its own callback; the two kinds of warnings are there when they apply. *)
Lemma parseSentenceWithPriceLookup_returns (rt : Runtime) (text : jsstring) :
  exists l,
    parseSentenceWithPriceLookup rt text = inr l
    /\ Forall2 (fun item e => enhance rt item = inr e)
         (parseSentence rt text) (PriceLookup.entries l)
    /\ (forall e, In e (PriceLookup.entries l) -> is_auto_lookup e = true ->
          exists w, In w (PriceLookup.warnings l) /\
                    starts_with (str "Auto-populated prices for: ") w = true)
    /\ (forall e, In e (PriceLookup.entries l) ->
          negb (truthy (Entry.price e)) || is0 (Entry.price e) = true ->
          exists w, In w (PriceLookup.warnings l) /\
                    starts_with (str "No price found for: ") w = true /\
                    includes w (Entry.item e) = true).
Proof.
  unfold parseSentenceWithPriceLookup.
  destruct (parseSentence rt text) as [|item items] eqn:Ep.
  { simpl. eexists. split; [reflexivity|]. simpl.
    split; [constructor|]. split; intros e []. }
  cbv zeta.
  change (Nat.eqb (List.length (item :: items)) 0) with false. cbv iota.
  destruct (promise_all_map_Forall2 (enhance rt) (item :: items) (enhance_returns rt))
    as [ys [Hys HF]].
  rewrite Hys. simpl bind. unfold ret.
  eexists. split; [reflexivity|]. simpl PriceLookup.entries. simpl PriceLookup.warnings.
  split; [exact HF|]. split.
  - intros e Hin Ha. rewrite (filter_nonempty _ _ _ Hin Ha).
    eexists. split; [apply in_or_app; right; left; reflexivity|].
    reflexivity.
  - intros e Hin Hz. rewrite (filter_nonempty _ _ _ Hin Hz).
    exists (str "No price found for: " ++
            join (str ", ")
              (map Entry.item
                 (filter (fun item => negb (truthy (Entry.price item))
                                      || is0 (Entry.price item)) ys))).
    split; [|split].
    + match goal with |- In _ (if ?c then _ else _) => destruct c end;
        simpl; left; reflexivity.
    + reflexivity.
    + apply includes_app_r, includes_join, in_map, filter_In. auto.
Qed.

Lemma starts_with_app (p1 p2 w : jsstring) :
  starts_with (p1 ++ p2) w = true -> starts_with p1 w = true.
Proof.
  revert w. induction p1 as [|c p1 IH]; intros w; simpl; auto.
  destruct w as [|d w]; [discriminate|].
  intros H. apply andb_true_iff in H. destruct H as [H1 H2].
  rewrite H1. simpl. auto.
Qed.

Lemma Forall2_In_r {A B} (P : A -> B -> Prop) (xs : list A) (ys : list B) (y : B) :
  Forall2 P xs ys -> In y ys -> exists x, In x xs /\ P x y.
Proof.
  induction 1 as [|x y' xs ys Hxy _ IH]; simpl; [tauto|].
  intros [H|H].
  - subst. exists x. auto.
  - destruct (IH H) as [x' [Hx' Hp]]. exists x'. auto.
Qed.

Lemma enhance_well_priced (rt : Runtime) (item e : Entry.t) :
  well_priced item -> enhance rt item = inr e -> well_priced e.
Proof.
  intros [Hp [Hq Ht]] He.
  destruct (enhance_cases rt item) as [fp [ps [Hc Hcases]]].
  rewrite Hc in He. inversion He; subst e; clear He.
  unfold well_priced. simpl. rewrite (num_or_gt0 _ one Hq).
  split; [|split; [exact Hq | reflexivity]].
  destruct Hcases as [[_ [Hfp _]] | [_ [[p' [_ [Hpos [Hfp _]]]] | [_ [Hfp _]]]]];
    subst fp.
  - exact Hp.
  - apply andb_true_iff in Hpos. right. apply Hpos.
  - left. reflexivity.
Qed.

(** When the product is NaN, and what it is otherwise. *)
Lemma well_priced_total (e : Entry.t) :
  well_priced e ->
  (isNaN (Entry.total e) = true <-> Entry.price e = zero /\ Entry.qty e = Infinity)
  /\ (isNaN (Entry.total e) = false -> ge0 (Entry.total e) = true).
Proof.
  intros [Hp [Hq Ht]]. rewrite Ht.
  destruct (mul_price_qty _ _ Hp Hq) as [[Hn Hz] | [Hs Hnz]].
  - rewrite Hn. split; [split; auto | discriminate].
  - rewrite (has_sign_not_nan _ _ Hs). split.
    + split; [discriminate | intros H; exfalso; exact (Hnz H)].
    + intros _. apply not_negative_ge0. exact Hs.
Qed.

Lemma parsed_or_looked_up_well_priced (rt : Runtime) (text : jsstring) (e : Entry.t) :
  In e (parseSentence rt text)
  \/ (exists l, parseSentenceWithPriceLookup rt text = inr l /\ In e (PriceLookup.entries l)) ->
  well_priced e.
Proof.
  intros [H | [l [Hl Hin]]].
  - apply (parseSentence_well_priced rt text e H).
  - destruct (parseSentenceWithPriceLookup_returns rt text) as [l' [Hl' [HF _]]].
    rewrite Hl in Hl'. inversion Hl'; subst l'.
    destruct (Forall2_In_r _ _ _ _ HF Hin) as [item [Hitem He]].
    apply (enhance_well_priced rt item e); [|exact He].
    apply (parseSentence_well_priced rt text item Hitem).
Qed.

(** C3, as stated, fails: for a quantity of 310 digits and no price, the
    quantity reads as Infinity, the price is 0, and the total, 0 times
    Infinity, is NaN, which is within 0.01 of no number. *)
Lemma tolerance_fails_on_overflowing_quantity :
  exists e,
    parseSentence catalog45 overflowing_quantity = [e]
    /\ Entry.qty e = Infinity /\ Entry.price e = zero /\ Entry.total e = NaN
    /\ forall expected, within_tolerance (Entry.total e) expected = false.
Proof.
  eexists. split; [vm_compute; reflexivity|].
  split; [reflexivity|]. split; [reflexivity|]. split; [reflexivity|].
  intros expected. reflexivity.
Qed.

(** C3, amended.  Every entry that the sentence parser returns (each comes
    from [parseSingleItem]), and every entry after the price lookup, has a
    price that is 0 or above 0, a quantity above 0, and as [total] the
    product price * qty of these two, as the multiplication of doubles
    gives it, without a rounding to two decimals.  The total is NaN
    exactly when the price is 0 and the quantity has overflowed to
    Infinity; otherwise it is not negative, and when it is finite it is
    within 0.01 of its own rounding to two decimals. *)
Theorem total_is_qty_times_price (rt : Runtime) (text : jsstring) (e : Entry.t) :
  In e (parseSentence rt text)
  \/ (exists l, parseSentenceWithPriceLookup rt text = inr l /\ In e (PriceLookup.entries l)) ->
  (Entry.price e = zero \/ gt0 (Entry.price e) = true)
  /\ gt0 (Entry.qty e) = true
  /\ Entry.total e = mul (Entry.price e) (Entry.qty e)
  /\ (isNaN (Entry.total e) = true <-> Entry.price e = zero /\ Entry.qty e = Infinity)
  /\ (isNaN (Entry.total e) = false -> ge0 (Entry.total e) = true)
  /\ (forall v, value (Entry.total e) = Some v ->
        (Qabs (v - round2 v) <= 1 # 100)%Q).
Proof.
  intros H. pose proof (parsed_or_looked_up_well_priced rt text e H) as Hw.
  destruct (well_priced_total e Hw) as [Hnan Hge].
  destruct Hw as [Hp [Hq Ht]].
  repeat (split; [assumption|]).
  intros v _. apply Qle_trans with (1 # 200)%Q; [apply round2_close|].
  unfold Qle; simpl; lia.
Qed.

Lemma total_is_qty_times_price_witness :
  exists e,
    In e (parseSentence catalog45 (str "sold 2.5 kg rice at 10.5 each"))
    /\ Entry.qty e = ratio 25 10 /\ Entry.price e = ratio 105 10
    /\ Entry.total e = ratio 2625 100
    /\ Entry.total e = mul (Entry.price e) (Entry.qty e)
    /\ isNaN (Entry.total e) = false.
Proof.
  assert (H : exists e, hd_error (parseSentence catalog45
                                    (str "sold 2.5 kg rice at 10.5 each")) = Some e
                        /\ Entry.qty e = ratio 25 10 /\ Entry.price e = ratio 105 10
                        /\ Entry.total e = ratio 2625 100).
  { vm_compute. eexists. split; [reflexivity|]. repeat split; reflexivity. }
  destruct H as [e [Hhd [Hq [Hp Ht]]]].
  assert (Hin : In e (parseSentence catalog45 (str "sold 2.5 kg rice at 10.5 each"))).
  { destruct (parseSentence catalog45 (str "sold 2.5 kg rice at 10.5 each"));
      simpl in Hhd; inversion Hhd. left. reflexivity. }
  exists e. split; [exact Hin|]. split; [exact Hq|]. split; [exact Hp|].
  split; [exact Ht|].
  destruct (total_is_qty_times_price catalog45 _ e (or_introl Hin))
    as [_ [_ [Hmul _]]].
  split; [exact Hmul|]. rewrite Ht. vm_compute. reflexivity.
Defined.

(** C6. After the price lookup, for each parsed item in turn: when its
    parsed price is 0 (the value of a missing price) and [lookupPrice]
    resolves to a price [p] above 0 for the item, the enriched entry has
    price [p], total [p * qty] and provenance 'auto-lookup', and the
    warnings contain a text that contains "Auto-populated"; when its
    price came from the text, the entry keeps that price and has
    provenance 'parsed'. *)
Theorem price_lookup_provenance (rt : Runtime) (text : jsstring) (l : PriceLookup.t) :
  parseSentenceWithPriceLookup rt text = inr l ->
  Forall2
    (fun item e =>
       (forall p,
          truthy (Entry.price item) = false ->
          lookupPrice rt (Entry.item item) = Resolved (Some p) ->
          gt0 p = true ->
          Entry.price e = p
          /\ (gt0 (Entry.qty e) = true /\ Entry.total e = mul p (Entry.qty e))
          /\ Entry.price_source e = Some (str "auto-lookup")
          /\ exists w, In w (PriceLookup.warnings l) /\
                       includes w (str "Auto-populated") = true)
       /\ (truthy (Entry.price item) = true ->
           Entry.price e = Entry.price item
           /\ Entry.price_source e = Some (str "parsed")))
    (parseSentence rt text) (PriceLookup.entries l).
Proof.
  intros Hl.
  destruct (parseSentenceWithPriceLookup_returns rt text) as [l' [Hl' [HF [Hauto _]]]].
  rewrite Hl in Hl'. inversion Hl'; subst l'.
  apply (Forall2_impl_In _ _ _ _ HF). intros item e Hitem He Henh.
  destruct (parseSentence_well_priced rt text item Hitem) as [[_ [Hq _]] _].
  destruct (enhance_cases rt item) as [fp [ps [Hc Hcases]]].
  rewrite Hc in Henh. inversion Henh; subst e; clear Henh. simpl.
  split.
  - intros p Hfalsy Hlook Hpos.
    destruct Hcases as [[Ht _] | [_ [[p' [Hl1 [_ [Hfp Hps]]]] | [Hno _]]]].
    + congruence.
    + rewrite Hlook in Hl1. inversion Hl1; subst p' fp ps.
      split; [reflexivity|]. split.
      * split; [exact Hq|]. rewrite (num_or_gt0 _ one Hq). reflexivity.
      * split; [reflexivity|].
        destruct (Hauto _ He eq_refl) as [w [Hw Hs]].
        exists w. split; [exact Hw|].
        apply starts_with_includes.
        apply (starts_with_app (str "Auto-populated") (str " prices for: ")).
        exact Hs.
    + specialize (Hno _ Hlook).
      rewrite (proj1 (proj2 (gt0_facts _ Hpos))), Hpos in Hno.
      discriminate.
  - intros Htruthy.
    destruct Hcases as [[_ [Hfp Hps]] | [Hf _]]; [|congruence].
    subst. split; reflexivity.
Qed.

Lemma Forall2_one {A B} (P : A -> B -> Prop) (x : A) (ys : list B) :
  Forall2 P [x] ys -> exists y, ys = [y] /\ P x y.
Proof.
  intros H. inversion H as [|x0 y xs ys' Hxy Hrest]; subst.
  inversion Hrest; subst. eauto.
Qed.

Lemma Forall2_two {A B} (P : A -> B -> Prop) (x1 x2 : A) (ys : list B) :
  Forall2 P [x1; x2] ys -> exists y1 y2, ys = [y1; y2] /\ P x1 y1 /\ P x2 y2.
Proof.
  intros H. inversion H as [|x0 y1 xs ys' H1 Hrest]; subst.
  destruct (Forall2_one _ _ _ Hrest) as [y2 [E H2]]. subst. eauto.
Qed.

Lemma price_lookup_provenance_witness :
  exists l item e,
    parseSentenceWithPriceLookup catalog45 (str "2 kg rice") = inr l
    /\ parseSentence catalog45 (str "2 kg rice") = [item]
    /\ PriceLookup.entries l = [e]
    /\ Entry.item item = str "Rice" /\ Entry.price item = zero
    /\ lookupPrice catalog45 (Entry.item item) = Resolved (Some (num 45))
    /\ Entry.price e = num 45
    /\ (gt0 (Entry.qty e) = true /\ Entry.total e = mul (num 45) (Entry.qty e))
    /\ Entry.price_source e = Some (str "auto-lookup")
    /\ exists w, In w (PriceLookup.warnings l) /\ includes w (str "Auto-populated") = true.
Proof.
  destruct (parseSentenceWithPriceLookup catalog45 (str "2 kg rice")) as [err|l] eqn:El;
    [vm_compute in El; discriminate|].
  pose proof (price_lookup_provenance catalog45 (str "2 kg rice") l El) as HF.
  remember (parseSentence catalog45 (str "2 kg rice")) as items eqn:Ei.
  vm_compute in Ei. subst items.
  destruct (Forall2_one _ _ _ HF) as [e [Hentries [Hauto _]]].
  destruct (Hauto (num 45) eq_refl eq_refl eq_refl) as [Hp [Hq [Hs Hw]]].
  exists l. eexists. exists e.
  split; [reflexivity|]. split; [reflexivity|]. split; [exact Hentries|].
  split; [reflexivity|]. split; [reflexivity|]. split; [reflexivity|].
  split; [exact Hp|]. split; [exact Hq|]. split; [exact Hs | exact Hw].
Defined.

(* ================================================================== *)
(** * Failures of the price store *)
(* ================================================================== *)

Lemma enhance_rejections_as_null (rt : Runtime) (item : Entry.t) :
  enhance (rejections_as_null rt) item = enhance rt item.
Proof.
  unfold enhance. simpl lookupPrice.
  destruct (negb (truthy (num_or (Entry.price item) zero))
            || is0 (num_or (Entry.price item) zero)); [|reflexivity].
  destruct (lookupPrice rt (str_or (Entry.item item) [])) as [[p|]|err]; reflexivity.
Qed.

Lemma parseSentenceWithPriceLookup_rejections_as_null (rt : Runtime) (text : jsstring) :
  parseSentenceWithPriceLookup (rejections_as_null rt) text
  = parseSentenceWithPriceLookup rt text.
Proof.
  unfold parseSentenceWithPriceLookup.
  change (parseSentence (rejections_as_null rt) text) with (parseSentence rt text).
  rewrite (promise_all_map_ext (enhance (rejections_as_null rt)) (enhance rt)
             (parseSentence rt text) (enhance_rejections_as_null rt)).
  reflexivity.
Qed.

(** C7. The price lookup always returns (a rejection of [lookupPrice] is
    never passed on to the caller), with one entry per parsed item, each
    the result of its own callback whatever happened to the others; when
    [lookupPrice] rejects for an item without parsed price, its entry has
    price 0 and provenance 'parsed' and a warning "No price found for: ..."
    names the item; the whole result is what it would be had every
    rejection been a null. *)
Theorem lookup_failure_isolated (rt : Runtime) (text : jsstring) :
  exists l,
    parseSentenceWithPriceLookup rt text = inr l
    /\ Forall2
         (fun item e =>
            enhance rt item = inr e
            /\ (forall err,
                  truthy (Entry.price item) = false ->
                  lookupPrice rt (Entry.item item) = Rejected err ->
                  Entry.price e = zero
                  /\ Entry.price_source e = Some (str "parsed")
                  /\ exists w, In w (PriceLookup.warnings l) /\
                               starts_with (str "No price found for: ") w = true /\
                               includes w (Entry.item item) = true))
         (parseSentence rt text) (PriceLookup.entries l)
    /\ parseSentenceWithPriceLookup (rejections_as_null rt) text = inr l.
Proof.
  destruct (parseSentenceWithPriceLookup_returns rt text) as [l [Hl [HF [_ Hnone]]]].
  exists l. split; [exact Hl|]. split.
  - apply (Forall2_impl_In _ _ _ _ HF). intros item e Hitem He Henh.
    split; [exact Henh|].
    intros err Hfalsy Hrej.
    destruct (enhance_cases rt item) as [fp [ps [Hc Hcases]]].
    rewrite Hc in Henh. inversion Henh; subst e; clear Henh.
    destruct Hcases as [[Ht _] | [_ [[p' [Hl1 _]] | [_ [Hfp Hps]]]]].
    + congruence.
    + congruence.
    + subst fp ps. simpl. split; [reflexivity|]. split; [reflexivity|].
      apply (Hnone _ He). reflexivity.
  - rewrite parseSentenceWithPriceLookup_rejections_as_null. exact Hl.
Qed.

Lemma lookup_failure_isolated_witness :
  exists l rice biscuit e1 e2,
    parseSentenceWithPriceLookup failing_for_rice (str "2 kg rice and 1 packet biscuit")
    = inr l
    /\ parseSentence failing_for_rice (str "2 kg rice and 1 packet biscuit")
       = [rice; biscuit]
    /\ PriceLookup.entries l = [e1; e2]
    /\ lookupPrice failing_for_rice (Entry.item rice)
       = Rejected (HostError (str "database is locked"))
    /\ Entry.price e1 = zero
    /\ Entry.price_source e1 = Some (str "parsed")
    /\ (exists w, In w (PriceLookup.warnings l) /\
                  starts_with (str "No price found for: ") w = true /\
                  includes w (str "Rice") = true)
    /\ enhance failing_for_rice biscuit = inr e2
    /\ Entry.price e2 = num 45.
Proof.
  destruct (lookup_failure_isolated failing_for_rice
              (str "2 kg rice and 1 packet biscuit")) as [l [Hl [HF _]]].
  remember (parseSentence failing_for_rice (str "2 kg rice and 1 packet biscuit"))
    as items eqn:Ei.
  vm_compute in Ei. subst items.
  destruct (Forall2_two _ _ _ _ HF) as [e1 [e2 [Hentries [[_ Hrice] [Hbiscuit _]]]]].
  destruct (Hrice (HostError (str "database is locked")) eq_refl eq_refl)
    as [Hp [Hs Hw]].
  exists l. eexists. eexists. exists e1, e2.
  split; [exact Hl|]. split; [reflexivity|]. split; [exact Hentries|].
  split; [reflexivity|]. split; [exact Hp|]. split; [exact Hs|].
  split; [exact Hw|]. split; [exact Hbiscuit|].
  vm_compute in Hbiscuit. inversion Hbiscuit. reflexivity.
Defined.

(* ================================================================== *)
(** * Strings: what [trim], [replace] and [split] keep *)
(* ================================================================== *)

Lemma trimStart_incl (s : jsstring) : incl (trimStart s) s.
Proof.
  induction s as [|c s IH]; simpl; [apply incl_refl|].
  destruct (is_space c); [apply incl_tl; exact IH | apply incl_refl].
Qed.

Lemma trim_incl (s : jsstring) : incl (trim s) s.
Proof.
  unfold trim, trimEnd. intros x Hx.
  apply trimStart_incl. apply in_rev.
  apply (trimStart_incl (rev (trimStart s))). apply in_rev. exact Hx.
Qed.

Lemma trimStart_fixed (s : jsstring) :
  match s with [] => True | c :: _ => is_space c = false end -> trimStart s = s.
Proof. destruct s as [|c s]; simpl; [reflexivity|]. intros H; rewrite H; reflexivity. Qed.

Lemma trimStart_head (s : jsstring) :
  match trimStart s with [] => True | c :: _ => is_space c = false end.
Proof.
  induction s as [|c s IH]; simpl; [exact I|].
  destruct (is_space c) eqn:E; [exact IH | exact E].
Qed.

Lemma trimStart_snoc (l : jsstring) (c : char) :
  is_space c = false -> exists l', trimStart (l ++ [c]) = l' ++ [c].
Proof.
  intros Hc. induction l as [|x l IH]; simpl.
  - rewrite Hc. exists []. reflexivity.
  - destruct (is_space x); [exact IH | exists (x :: l); reflexivity].
Qed.

(** A trimmed text is empty, or starts and ends with a code unit that is
    not white space. *)
Lemma trim_ends (s : jsstring) :
  match trim s with [] => True | c :: _ => is_space c = false end
  /\ match rev (trim s) with [] => True | c :: _ => is_space c = false end.
Proof.
  unfold trim, trimEnd. rewrite rev_involutive. split; [|apply trimStart_head].
  pose proof (trimStart_head s) as Hh.
  destruct (trimStart s) as [|c t]; [exact I|].
  simpl rev. destruct (trimStart_snoc (rev t) c Hh) as [l' El'].
  rewrite El', rev_app_distr. simpl. exact Hh.
Qed.

Lemma trim_idempotent (s : jsstring) : trim (trim s) = trim s.
Proof.
  destruct (trim_ends s) as [Hh Hl].
  unfold trim at 1. rewrite (trimStart_fixed _ Hh).
  unfold trimEnd. rewrite (trimStart_fixed _ Hl). apply rev_involutive.
Qed.

Lemma has_digit_incl (t s : jsstring) :
  incl t s -> has_digit s = false -> has_digit t = false.
Proof.
  unfold has_digit. intros Hi Hs.
  destruct (existsb is_digit t) eqn:E; [|reflexivity].
  apply existsb_exists in E. destruct E as [x [Hx Hd]].
  assert (Ht : existsb is_digit s = true)
    by (apply existsb_exists; exists x; split; auto).
  congruence.
Qed.

Lemma replace_first_incl (re : RegExp) (s by_ : jsstring) :
  incl (replace_first re s by_) (s ++ by_).
Proof.
  unfold replace_first. destruct (exec re s) as [m|];
    [|apply incl_appl, incl_refl].
  intros x Hx. apply in_or_app.
  apply in_app_or in Hx. destruct Hx as [Hx|Hx].
  - left. rewrite <- (firstn_skipn (m_index m) s). apply in_or_app; auto.
  - apply in_app_or in Hx. destruct Hx as [Hx|Hx]; [right; exact Hx|].
    left. rewrite <- (firstn_skipn (m_end m) s). apply in_or_app; auto.
Qed.

Lemma replace_scan_incl (re : RegExp) (by_ : jsstring) (s : jsstring) :
  forall p i drop, incl (replace_scan re by_ p s i drop) (s ++ by_).
Proof.
  induction s as [|c s IH]; intros p i drop x Hx.
  - destruct drop; simpl in Hx; [|contradiction].
    destruct (match_at re (MState p [] i [])); [|contradiction].
    rewrite app_nil_r in Hx. exact Hx.
  - simpl app. destruct drop as [|n]; simpl in Hx.
    + destruct (match_at re (MState p (c :: s) i [])) as [m|].
      * apply in_app_or in Hx. destruct Hx as [Hx|Hx].
        { right. apply in_or_app; auto. }
        destruct (m_end m - i).
        { destruct Hx as [Hx|Hx]; [left; exact Hx | right; exact (IH _ _ _ _ Hx)]. }
        right; exact (IH _ _ _ _ Hx).
      * destruct Hx as [Hx|Hx]; [left; exact Hx | right; exact (IH _ _ _ _ Hx)].
    + right; exact (IH _ _ _ _ Hx).
Qed.

(** A replacement brings in nothing but the replacement text. *)
Lemma replace_incl (re : RegExp) (s by_ : jsstring) :
  incl (replace re s by_) (s ++ by_).
Proof.
  unfold replace. destruct (global re);
    [apply replace_scan_incl | apply replace_first_incl].
Qed.

Lemma replace_nil_incl (re : RegExp) (s : jsstring) : incl (replace re s []) s.
Proof.
  intros x Hx. apply replace_incl in Hx. rewrite app_nil_r in Hx. exact Hx.
Qed.

Lemma split_scan_incl (re : RegExp) (s : jsstring) :
  forall pv i drop cur p piece,
    In piece (split_scan re pv s i drop cur p) -> incl piece (s ++ cur).
Proof.
  induction s as [|c s IH]; intros pv i drop cur p piece H x Hx.
  - simpl in H. destruct H as [H|[]]. subst piece. apply in_rev in Hx. exact Hx.
  - assert (Hrev : piece = rev cur -> In x ((c :: s) ++ cur)).
    { intros E. subst piece. apply in_or_app. right. apply in_rev. exact Hx. }
    assert (Hstep : forall pv' i' drop' cur' p',
               incl cur' (c :: cur) ->
               In piece (split_scan re pv' s i' drop' cur' p') ->
               In x ((c :: s) ++ cur)).
    { intros pv' i' drop' cur' p' Hc Hin.
      pose proof (IH _ _ _ _ _ _ Hin x Hx) as Hy.
      apply in_app_or in Hy. destruct Hy as [Hy|Hy].
      - right. apply in_or_app; auto.
      - destruct (Hc x Hy) as [E|Hz]; [left; exact E | right; apply in_or_app; auto]. }
    simpl in H. destruct drop as [|n].
    + destruct (match_at re (MState pv (c :: s) i [])) as [m|].
      * destruct (Nat.eqb (m_end m) p).
        { exact (Hstep _ _ _ _ _ (incl_refl _) H). }
        destruct (m_end m - i); destruct H as [H|H]; auto;
          refine (Hstep _ _ _ _ _ _ H); intros y Hy;
          [ destruct Hy as [Hy|[]]; left; exact Hy | destruct Hy ].
      * exact (Hstep _ _ _ _ _ (incl_refl _) H).
    + refine (Hstep _ _ _ _ _ _ H). intros y [].
Qed.

(** The pieces of a split are made of code units of the text. *)
Lemma re_split_incl (re : RegExp) (s piece : jsstring) :
  In piece (re_split re s) -> incl piece s.
Proof.
  unfold re_split. destruct s as [|c s].
  - destruct (match_at re (MState None [] 0 [])); [intros []|].
    intros [H|[]]; subst. apply incl_refl.
  - intros H x Hx. apply (split_scan_incl _ _ _ _ _ _ _ _ H) in Hx.
    rewrite app_nil_r in Hx. exact Hx.
Qed.

(* ================================================================== *)
(** * The matcher moves along the input *)
(* ================================================================== *)

Section Along.

(** A relation between the positions of a match that holds from a position
    to itself, composes, holds across one code unit, and does not look at
    the captures. *)
Variable R : mstate -> mstate -> Prop.
Hypothesis R_refl : forall x, R x x.
Hypothesis R_trans : forall x y z, R x y -> R y z -> R x z.
Hypothesis R_advance : forall st c st', advance st = Some (c, st') -> R st st'.
Hypothesis R_caps_l :
  forall x cs y, R (MState (prev x) (rest x) (pos x) cs) y -> R x y.
Hypothesis R_caps_r :
  forall x y cs, R x y -> R x (MState (prev y) (rest y) (pos y) cs).

Variable ic : bool.

Lemma RepeatMatcher_along m gs greedy k :
  (forall st k' res, m st k' = Some res -> exists st1, k' st1 = Some res /\ R st st1) ->
  forall budget mn mx x res,
    RepeatMatcher m gs greedy k budget mn mx x = Some res ->
    exists st1, k st1 = Some res /\ R x st1.
Proof.
  intros Hm. induction budget as [|budget IH]; intros mn mx x res H.
  - discriminate.
  - simpl in H.
    set (d := fun y => if Nat.eqb mn 0 && Nat.eqb (pos y) (pos x) then None
                       else RepeatMatcher m gs greedy k budget (Nat.pred mn)
                              (dec_max mx) y) in H.
    assert (Hstep : m (clear_caps gs x) d = Some res ->
                    exists st1, k st1 = Some res /\ R x st1).
    { intros Hmd. destruct (Hm _ _ _ Hmd) as [y [Hy Hr]].
      unfold d in Hy.
      destruct (Nat.eqb mn 0 && Nat.eqb (pos y) (pos x)); [discriminate|].
      destruct (IH _ _ _ _ Hy) as [st1 [Hk Hr1]]. exists st1. split; auto.
      apply R_caps_l with (cs := caps (clear_caps gs x)).
      apply R_trans with y; assumption. }
    assert (Hbody :
              (if negb (Nat.eqb mn 0) then m (clear_caps gs x) d
               else if greedy then opt_or (m (clear_caps gs x) d) (k x)
               else opt_or (k x) (m (clear_caps gs x) d)) = Some res ->
              exists st1, k st1 = Some res /\ R x st1).
    { intros Hb. destruct (negb (Nat.eqb mn 0)); [auto|].
      destruct greedy; apply opt_or_some in Hb; destruct Hb as [Hb|Hb]; auto;
        exists x; split; auto. }
    destruct mx as [[|n]|]; auto.
    exists x; split; auto.
Qed.

Lemma mtch_along r :
  forall st k res, mtch ic r st k = Some res ->
    exists st1, k st1 = Some res /\ R st st1.
Proof.
  induction r as [ | c | | neg items | r1 IH1 r2 IH2 | r1 IH1 r2 IH2
                 | mn mx greedy r1 IH1 | i r1 IH1 | | | | positive r1 IH1 | items ];
    intros st k res H; cbn [mtch] in H.
  - exists st; auto.
  - destruct (advance st) as [[x st']|] eqn:Ea; [|discriminate].
    destruct (N.eqb _ _); [|discriminate]. exists st'; split; eauto.
  - destruct (advance st) as [[x st']|] eqn:Ea; [|discriminate].
    destruct (is_line_terminator x); [discriminate|]. exists st'; split; eauto.
  - destruct (advance st) as [[x st']|] eqn:Ea; [|discriminate].
    destruct (class_matches _ _ _ _); [|discriminate]. exists st'; split; eauto.
  - destruct (IH1 _ _ _ H) as [s1 [H1 R1]].
    destruct (IH2 _ _ _ H1) as [s2 [H2 R2]].
    exists s2; split; auto. apply R_trans with s1; assumption.
  - apply opt_or_some in H. destruct H as [H|H]; auto.
  - exact (RepeatMatcher_along _ _ _ _ IH1 _ _ _ _ _ H).
  - destruct (IH1 _ _ _ H) as [s1 [H1 R1]].
    eexists; split; [exact H1|]. apply R_caps_r. exact R1.
  - destruct (prev st); [discriminate|]. exists st; auto.
  - destruct (rest st); [|discriminate]. exists st; auto.
  - destruct (xorb _ _); [|discriminate]. exists st; auto.
  - destruct positive.
    + destruct (mtch ic r1 st Some) as [s0|]; [|discriminate].
      eexists; split; [exact H|]. apply R_caps_r. apply R_refl.
    + destruct (mtch ic r1 st Some); [discriminate|]. exists st; auto.
  - destruct (prev st); [|discriminate].
    destruct (class_matches _ _ _ _); [|discriminate]. exists st; auto.
Qed.

End Along.

(** What is left of the input at a later position of a match is a suffix
    of what was left before. *)
Lemma mtch_suffix (ic : bool) (r : regex) (st : mstate) k res :
  mtch ic r st k = Some res ->
  exists st1, k st1 = Some res /\ suffix_of (rest st1) (rest st).
Proof.
  apply (mtch_along (fun x y => suffix_of (rest y) (rest x))).
  - intros x. exists []. reflexivity.
  - intros x y z [p1 E1] [p2 E2]. exists (p1 ++ p2).
    rewrite E1, E2, app_assoc. reflexivity.
  - intros s c s'. unfold advance. destruct (rest s) as [|c0 tl]; [discriminate|].
    intros E. inversion E; subst. exists [c]. reflexivity.
  - intros x cs y H. exact H.
  - intros x y cs H. exact H.
Qed.

(** The leftmost match starts at some index [k] of the text, where the
    rest of the text is what the matcher is given. *)
Lemma search_position (re : RegExp) (s : jsstring) :
  forall p i m, search re p s i = Some m ->
    exists q k, match_at re (MState q (skipn k s) (i + k) []) = Some m.
Proof.
  induction s as [|c s IH]; intros p i m H; simpl in H.
  - destruct (match_at re (MState p [] i [])) eqn:E; [|discriminate].
    inversion H; subst. exists p, 0. rewrite Nat.add_0_r. exact E.
  - destruct (match_at re (MState p (c :: s) i [])) eqn:E.
    + inversion H; subst. exists p, 0. rewrite Nat.add_0_r. exact E.
    + destruct (IH _ _ _ H) as [q [k Hk]]. exists q, (S k).
      rewrite Nat.add_succ_r. exact Hk.
Qed.

Lemma has_digit_suffix (t s : jsstring) (c : char) (tl : jsstring) :
  suffix_of t s -> t = c :: tl -> is_digit c = true -> has_digit s = true.
Proof.
  intros [pre E] Et Hc. subst. unfold has_digit.
  rewrite existsb_app. simpl. rewrite Hc. apply orb_true_r.
Qed.

Lemma skipn_suffix {A} (k : nat) (s : list A) : exists pre, s = pre ++ skipn k s.
Proof. exists (firstn k s). symmetry. apply firstn_skipn. Qed.

Lemma digit_class (ic : bool) (c : char) :
  class_matches ic false [CDigit] c = true -> is_digit c = true.
Proof.
  unfold class_matches. simpl. rewrite orb_false_r. intros H; exact H.
Qed.

(** A pattern [A(\d+N)B] matches only a text with a digit. *)
Lemma number_pattern_needs_digit (re : RegExp) (A N B : regex) (g : nat) :
  (forall st, mtch (ignoreCase re) (pattern re) st Some
              = mtch (ignoreCase re)
                  (Seq A (Seq (Group g (Seq (plus1 digit) N)) B)) st Some) ->
  needs_digit re.
Proof.
  intros Hp s m H. unfold exec in H.
  apply search_position in H. destruct H as [q [k H]].
  unfold match_at in H. rewrite Hp in H.
  destruct (mtch (ignoreCase re) _ _ Some) as [res|] eqn:E; [|discriminate].
  cbn [mtch] in E. apply mtch_suffix in E. destruct E as [s1 [E [pre Hpre]]].
  unfold digit in E. apply plus1_class_inv in E.
  destruct E as [s2 [c [tl [_ [Hr [Hc _]]]]]].
  simpl in Hpre. destruct (skipn_suffix k s) as [pre0 Es].
  apply (has_digit_suffix (rest s1) s c tl); auto.
  - exists (pre0 ++ pre). rewrite <- app_assoc, <- Hpre. exact Es.
  - apply digit_class with (ignoreCase re). exact Hc.
Qed.

Lemma first_positive_needs_digit (patterns : list RegExp) (text : jsstring) :
  Forall needs_digit patterns -> has_digit text = false ->
  first_positive patterns text = None.
Proof.
  intros Hall Hd. induction Hall as [|re more Hre _ IH]; simpl; [reflexivity|].
  destruct (exec re text) as [m|] eqn:E; [|exact IH].
  apply Hre in E. congruence.
Qed.

Lemma pricePatterns_need_digit : Forall needs_digit pricePatterns.
Proof.
  unfold pricePatterns. repeat constructor.
  - apply number_pattern_needs_digit
      with (A := seqs [opt (Seq (lit "for") (plus1 ws)); currency; star ws])
           (N := opt (Seq (ch ".") (between 1 2 digit))) (B := Empty) (g := 1).
    intros; reflexivity.
  - apply number_pattern_needs_digit
      with (A := opt (Seq (lit "for") (plus1 ws)))
           (N := opt (Seq (ch ".") (between 1 2 digit)))
           (B := Seq (star ws) (currency)) (g := 1).
    intros; reflexivity.
  - apply number_pattern_needs_digit
      with (A := Seq (any_of ["at"; "for"]) (star ws))
           (N := opt (Seq (ch ".") (between 1 2 digit)))
           (B := seqs [star ws; opt (currency); star ws;
                       alts [lit "each"; lit "per"; seqs [lit "a"; plus1 ws; lit "piece"]]])
           (g := 1).
    intros; reflexivity.
  - apply number_pattern_needs_digit
      with (A := seqs [Alt (Seq (lit "cost") (opt (ch "s"))) (lit "price"); star ws;
                       opt (currency); star ws])
           (N := opt (Seq (ch ".") (between 1 2 digit))) (B := Empty) (g := 1).
    intros; reflexivity.
  - apply number_pattern_needs_digit
      with (A := Alt InputStart (Class true [CDigit]))
           (N := opt (Seq (ch ".") (between 1 2 digit)))
           (B := Seq (star ws) (currency)) (g := 1).
    intros; reflexivity.
Qed.

Lemma quantityPatterns_need_digit : Forall needs_digit quantityPatterns.
Proof.
  unfold quantityPatterns. repeat constructor.
  - apply number_pattern_needs_digit
      with (A := WordBoundary) (N := opt (Seq (ch ".") (plus1 digit)))
           (B := seqs [star ws;
                any_of ["kg"; "g"; "gram"; "grams"; "kilo"; "kilos"; "kilogram";
                        "kilograms"; "l"; "liter"; "liters"; "litre"; "litres"; "ml";
                        "packet"; "packets"; "pack"; "packs"; "piece"; "pieces"; "pc";
                        "pcs"; "box"; "boxes"; "bottle"; "bottles"; "can"; "cans";
                        "bag"; "bags"; "dozen"; "dozens"];
                WordBoundary]) (g := 1).
    intros; reflexivity.
  - apply number_pattern_needs_digit
      with (A := Seq InputStart (star ws)) (N := opt (Seq (ch ".") (plus1 digit)))
           (B := WordBoundary) (g := 1).
    intros; reflexivity.
  - apply number_pattern_needs_digit
      with (A := WordBoundary) (N := opt (Seq (ch ".") (plus1 digit)))
           (B := seqs [plus1 ws; lit "of"; WordBoundary]) (g := 1).
    intros; reflexivity.
Qed.

Lemma re_item_price_needs_digit : needs_digit re_item_price.
Proof.
  apply number_pattern_needs_digit
    with (A := seqs [InputStart; Group 1 (lazy_plus Dot); plus1 ws])
         (N := opt (Seq (ch ".") (between 1 2 digit))) (B := InputEnd) (g := 2).
  intros; reflexivity.
Qed.

(* ================================================================== *)
(** * Texts without a digit *)
(* ================================================================== *)

Lemma extractQuantity_no_digit (text : jsstring) :
  has_digit text = false -> extractQuantity text = num 1.
Proof.
  intros H. unfold extractQuantity. destruct (is_empty text); [reflexivity|].
  rewrite (first_positive_needs_digit _ _ quantityPatterns_need_digit H). reflexivity.
Qed.

Lemma extractPrice_no_digit (text : jsstring) :
  has_digit text = false -> extractPrice text = None.
Proof.
  intros H. unfold extractPrice. destruct (is_empty text); [reflexivity|].
  apply (first_positive_needs_digit _ _ pricePatterns_need_digit H).
Qed.

(** X1. A text without a decimal digit has the default quantity 1 and no
    price: [extractQuantity] gives 1, [extractPrice] gives [null], and an
    entry that [parseSingleItem] builds from it has quantity 1, price 0 and
    total 0. *)
Theorem no_digit_defaults (rt : Runtime) (chunk : jsstring) :
  has_digit chunk = false ->
  extractQuantity chunk = num 1 /\
  extractPrice chunk = None /\
  forall e, parseSingleItem rt chunk = Some e ->
    Entry.qty e = num 1 /\ Entry.price e = num 0 /\ Entry.total e = num 0.
Proof.
  intros Hd. split; [exact (extractQuantity_no_digit _ Hd)|].
  split; [exact (extractPrice_no_digit _ Hd)|].
  intros e H. unfold parseSingleItem in H.
  destruct (is_empty chunk || is_empty (trim chunk)); [discriminate|].
  assert (Ht : has_digit (trim chunk) = false)
    by (apply has_digit_incl with chunk; [apply trim_incl | exact Hd]).
  rewrite (extractQuantity_no_digit _ Ht), (extractPrice_no_digit _ Ht) in H.
  destruct (item_and_unit rt (trim chunk)) as [err|[[item unit]|]]; try discriminate.
  cbn [Entry.item] in H.
  destruct (is_empty item || is_empty (trim item)); [discriminate|].
  inversion H; subst e. simpl.
  split; [reflexivity|]. split; reflexivity.
Qed.

Lemma no_digit_defaults_witness :
  exists e, parseSingleItem catalog45 (str "sold rice") = Some e /\
    Entry.qty e = num 1 /\ Entry.price e = num 0 /\ Entry.total e = num 0.
Proof.
  destruct (no_digit_defaults catalog45 (str "sold rice")) as [_ [_ H]];
    [vm_compute; reflexivity|].
  remember (parseSingleItem catalog45 (str "sold rice")) as r eqn:Er.
  vm_compute in Er. subst r.
  eexists; split; [reflexivity|]. apply H. reflexivity.
Defined.

Lemma flat_map_nil {A B} (f : A -> list B) (l : list A) :
  (forall x, In x l -> f x = []) -> flat_map f l = [].
Proof.
  induction l as [|x l IH]; intros H; simpl; [reflexivity|].
  rewrite (H x (or_introl eq_refl)). simpl. apply IH.
  intros y Hy. apply H. right. exact Hy.
Qed.

Lemma parseOrderCommand_type (rt : Runtime) (text : jsstring) :
  ParsedResult.type (parseOrderCommand rt text) = T_order.
Proof.
  unfold parseOrderCommand.
  destruct (is_empty text || is_empty (trim text)); [reflexivity|].
  cbv zeta.
  match goal with |- context [if Nat.eqb ?n 0 then _ else _] =>
    destruct (Nat.eqb n 0) end; reflexivity.
Qed.

Lemma parsePriceSentence_no_digit (rt : Runtime) (text : jsstring) :
  has_digit text = false -> parsePriceSentence rt text = [].
Proof.
  intros Hd. unfold parsePriceSentence.
  destruct (is_empty text || is_empty (trim text)); [reflexivity|].
  destruct (isCreditCommand text); [reflexivity|].
  match goal with |- (if negb ?b then _ else _) = _ => destruct b end;
    [|reflexivity].
  cbv zeta. cbn [negb]. apply flat_map_nil. intros part Hpart.
  destruct (is_empty (trim part)); [reflexivity|].
  destruct (exec re_item_price (trim part)) as [m|] eqn:E; [|reflexivity].
  apply re_item_price_needs_digit in E.
  assert (Hn : has_digit (trim part) = false); [|congruence].
  apply has_digit_incl with text; [|exact Hd].
  intros x Hx. apply trim_incl in Hx.
  apply (re_split_incl _ _ _ Hpart) in Hx.
  apply trim_incl in Hx.
  repeat apply replace_nil_incl in Hx. exact Hx.
Qed.

(** X2. A sentence without a decimal digit updates no price:
    [parsePriceSentence] returns the empty list for it, whatever price
    keywords it has, and [parseEnhanced] never returns a result of type
    'price' for it. *)
Theorem price_update_needs_digit (rt : Runtime) (text : jsstring) :
  has_digit text = false ->
  parsePriceSentence rt text = [] /\
  ParsedResult.type (parseEnhanced rt text) <> T_price.
Proof.
  intros Hd. pose proof (parsePriceSentence_no_digit rt text Hd) as Hp.
  split; [exact Hp|].
  unfold parseEnhanced.
  destruct (is_empty text || is_empty (trim text)); [discriminate|].
  destruct (isCreditCommand text).
  { destruct (parseCreditCommand_type rt text) as [H|H]; rewrite H; discriminate. }
  destruct (isOrderCommand rt text).
  { rewrite parseOrderCommand_type. discriminate. }
  cbv zeta. rewrite Hp. simpl.
  destruct (parseSentence rt text); discriminate.
Qed.

Lemma price_update_needs_digit_witness :
  parsePriceSentence catalog45 (str "price of rice is high") = [] /\
  ParsedResult.type (parseEnhanced catalog45 (str "price of rice is high")) <> T_price.
Proof.
  apply (price_update_needs_digit catalog45 (str "price of rice is high")).
  vm_compute. reflexivity.
Defined.

(* ================================================================== *)
(** * The first number of a text *)
(* ================================================================== *)

Lemma RepeatMatcher_greedy_found m gs (k : mstate -> option mstate) :
  (forall y, k y <> None) ->
  forall budget mx x, RepeatMatcher m gs true k (S budget) 0 mx x <> None.
Proof.
  intros Hk budget mx x. simpl.
  destruct mx as [[|n]|]; try apply Hk;
    (destruct (m _ _); simpl; [discriminate | apply Hk]).
Qed.

(** At a digit, [\d+(\.\d+)?] matches. *)
Lemma re_numbers_at_digit (p : option char) (c : char) (s : jsstring) (i : nat) :
  is_digit c = true -> match_at re_numbers (MState p (c :: s) i []) <> None.
Proof.
  intros Hc. unfold match_at.
  match goal with |- match ?t with _ => _ end <> None =>
    assert (Hm : t <> None); [|destruct t; [discriminate | congruence]] end.
  simpl ignoreCase. simpl pattern. unfold plus1. cbn [mtch].
  simpl rest. change (S (1 + List.length (c :: s))) with (S (S (S (List.length s)))).
  rewrite RepeatMatcher_min. unfold digit at 1. cbn [mtch]. unfold advance. simpl rest.
  unfold class_matches. cbn [existsb item_matches negb clear_caps rest prev pos caps].
  rewrite Hc. cbn [orb xorb].
  apply RepeatMatcher_greedy_found. intros y. unfold opt. cbn [mtch].
  apply RepeatMatcher_greedy_found. discriminate.
Qed.

Lemma search_re_numbers (s : jsstring) :
  forall p i, has_digit s = true -> search re_numbers p s i <> None.
Proof.
  induction s as [|c s IH]; intros p i Hd; [discriminate|].
  simpl. destruct (match_at re_numbers (MState p (c :: s) i [])) eqn:E;
    [discriminate|].
  unfold has_digit in Hd. simpl in Hd.
  destruct (is_digit c) eqn:Hc.
  - exfalso. exact (re_numbers_at_digit p c s i Hc E).
  - apply IH. exact Hd.
Qed.

(** The text of a match of [\d+(\.\d+)?] starts with a digit. *)
Lemma re_numbers_match (s : jsstring) (m : MatchResult) :
  exec re_numbers s = Some m ->
  exists c tl, matched_text m s = c :: tl /\ is_digit c = true /\ has_digit s = true.
Proof.
  intros H. unfold exec in H. apply search_position in H. destruct H as [q [k H]].
  unfold match_at in H.
  destruct (mtch _ _ _ Some) as [res|] eqn:E; [|discriminate].
  inversion H; subst m. clear H.
  unfold re_numbers, re_g in E. cbn [ignoreCase pattern mtch] in E.
  unfold digit in E. apply plus1_class_inv in E.
  destruct E as [s2 [c [tl [E [Hr [Hc Hp]]]]]].
  apply mtch_inv in E. destruct E as [s3 [E [Hp3 _]]]. inversion E; subst s3.
  simpl in Hr, Hp. apply digit_class in Hc.
  exists c, (firstn (pos res - S k) tl). unfold matched_text. simpl.
  rewrite Hr. split; [|split; [exact Hc|]].
  - destruct (pos res - k) as [|n] eqn:En; [lia|].
    simpl. f_equal. f_equal. lia.
  - destruct (skipn_suffix k s) as [pre Es].
    apply (has_digit_suffix (skipn k s) s c tl); auto. exists pre; exact Es.
Qed.

(** X3. [extractNumber] returns [null] exactly for a text without a
    decimal digit; for a text with a digit it returns a number, never
    NaN. *)
Theorem extractNumber_iff_digit (text : jsstring) :
  (has_digit text = false -> extractNumber text = None) /\
  (has_digit text = true ->
   exists v, extractNumber text = Some v /\ isNaN v = false).
Proof.
  unfold extractNumber. split; intros Hd.
  - destruct (is_empty text); [reflexivity|].
    destruct (exec re_numbers text) as [m|] eqn:E; [|reflexivity].
    destruct (re_numbers_match _ _ E) as [c [tl [_ [_ H]]]]. congruence.
  - destruct text as [|c0 text0]; [discriminate|]. cbn [is_empty].
    destruct (exec re_numbers (c0 :: text0)) as [m|] eqn:E.
    + destruct (re_numbers_match _ _ E) as [c [tl [Em [Hc _]]]].
      rewrite Em. eexists. split; [reflexivity|].
      exact (parseFloat_digit c tl Hc).
    + exfalso. exact (search_re_numbers _ None 0 Hd E).
Qed.

Lemma extractNumber_iff_digit_witness :
  extractNumber (str "no number") = None
  /\ exists v, extractNumber (str "rice 12.5 kg, 7 rs") = Some v /\ isNaN v = false.
Proof.
  split.
  - apply (proj1 (extractNumber_iff_digit (str "no number"))). vm_compute. reflexivity.
  - apply (proj2 (extractNumber_iff_digit (str "rice 12.5 kg, 7 rs"))).
    vm_compute. reflexivity.
Defined.

(* ================================================================== *)
(** * Where the results of the classifier come from *)
(* ================================================================== *)

Lemma parseCreditCommand_payload (rt : Runtime) (text : jsstring) :
  ParsedResult.entry (parseCreditCommand rt text) = None
  /\ ParsedResult.order (parseCreditCommand rt text) = None
  /\ ParsedResult.priceUpdates (parseCreditCommand rt text) = None.
Proof.
  unfold parseCreditCommand.
  destruct (is_empty text || negb (isCreditCommand text)); [auto|].
  destruct (getCreditCommandType text) as [[|]|]; [| |auto].
  - unfold parseCreditSale.
    destruct (parseSentenceWithPriceLookup rt _) as [e|[entries parseWarnings]];
      [auto|].
    destruct entries as [|entry [|entry' more]]; auto.
  - unfold parseCreditPayment.
    destruct (payment_extraction _) as [[amount customerName]|]; [|auto].
    destruct (le0 amount); auto.
Qed.

Lemma parseOrderCommand_payload (rt : Runtime) (text : jsstring) :
  ParsedResult.entry (parseOrderCommand rt text) = None
  /\ ParsedResult.credit (parseOrderCommand rt text) = None
  /\ ParsedResult.priceUpdates (parseOrderCommand rt text) = None.
Proof.
  unfold parseOrderCommand.
  destruct (is_empty text || is_empty (trim text)); [auto|].
  cbv zeta.
  match goal with |- context [if Nat.eqb ?n 0 then _ else _] =>
    destruct (Nat.eqb n 0) end; auto.
Qed.

Lemma blank_iff (text : jsstring) :
  is_empty text || is_empty (trim text) = is_empty (trim text).
Proof. destruct text; reflexivity. Qed.

Lemma parseEnhanced_route (rt : Runtime) (text : jsstring) :
  route rt text (parseEnhanced rt text).
Proof.
  unfold parseEnhanced. rewrite blank_iff.
  destruct (is_empty (trim text)) eqn:Eb; [apply route_blank; exact Eb|].
  destruct (isCreditCommand text) eqn:Ec; [apply route_credit; auto|].
  destruct (isOrderCommand rt text) eqn:Eo; [apply route_order; auto|].
  cbv zeta.
  destruct (parsePriceSentence rt text) as [|u us] eqn:Ep.
  - simpl. destruct (parseSentence rt text) as [|first more] eqn:Es.
    + apply route_nothing; auto.
    + apply route_entry with more; auto.
  - simpl. rewrite <- Ep. apply route_price; auto. rewrite Ep. discriminate.
Qed.

(** X4. The type of the result of [parseEnhanced] tells which test of the
    classifier the text passed: 'credit' only for a credit command, 'order'
    only for an order command that is not a credit command, 'price' only
    for a text that is neither and for which [parsePriceSentence] found
    updates, which are the payload.  So a caller that has already handled
    the credit commands and the non-empty results of [parsePriceSentence]
    gets neither 'credit' nor 'price'. *)
Theorem result_type_sound (rt : Runtime) (text : jsstring) :
  (ParsedResult.type (parseEnhanced rt text) = T_credit ->
     isCreditCommand text = true)
  /\ (ParsedResult.type (parseEnhanced rt text) = T_order ->
        isCreditCommand text = false /\ isOrderCommand rt text = true)
  /\ (ParsedResult.type (parseEnhanced rt text) = T_price ->
        isCreditCommand text = false /\ isOrderCommand rt text = false /\
        parsePriceSentence rt text <> [] /\
        ParsedResult.priceUpdates (parseEnhanced rt text)
        = Some (parsePriceSentence rt text))
  /\ (isCreditCommand text = false -> parsePriceSentence rt text = [] ->
        ParsedResult.type (parseEnhanced rt text) = T_transaction \/
        ParsedResult.type (parseEnhanced rt text) = T_order).
Proof.
  pose proof (parseCreditCommand_type rt text) as Hc.
  pose proof (parseOrderCommand_type rt text) as Ho.
  forms_of (parseEnhanced_route rt text) (parseEnhanced rt text); simpl; repeat split; intros;
    try discriminate; try congruence; auto;
    try (destruct Hc; congruence).
Qed.

Lemma result_type_sound_witness :
  isCreditCommand (str "Credit Sales 2 kg rice for Priya") = true.
Proof.
  apply (proj1 (result_type_sound catalog45 (str "Credit Sales 2 kg rice for Priya"))).
  vm_compute. reflexivity.
Defined.

(** Each call of [parseSingleItem] reads the clock; a call at another
    instant gives the same entry, with the date of that instant. *)
Lemma parseSingleItem_at_time (rt : Runtime) (now : jsstring) (chunk : jsstring) :
  parseSingleItem (at_time rt now) chunk = option_map (with_date now) (parseSingleItem rt chunk).
Proof.
  unfold parseSingleItem.
  destruct (is_empty chunk || is_empty (trim chunk)); [reflexivity|].
  cbv zeta.
  change (item_and_unit (at_time rt now)) with (item_and_unit rt).
  destruct (item_and_unit rt (trim chunk)) as [err|[[item unit]|]]; try reflexivity.
  cbn [Entry.item].
  destruct (is_empty item || is_empty (trim item)); reflexivity.
Qed.

Lemma to_array_map {A B} (f : A -> B) (r : option A) :
  to_array (option_map f r) = map f (to_array r).
Proof.
  destruct r; reflexivity.
Qed.

Lemma parseSentence_at_time (rt : Runtime) (now : jsstring) (text : jsstring) :
  parseSentence (at_time rt now) text = map (with_date now) (parseSentence rt text).
Proof.
  unfold parseSentence.
  destruct (is_empty text || is_empty (trim text)); [reflexivity|].
  cbv zeta.
  change (toLowerCase (at_time rt now)) with (toLowerCase rt).
  rewrite !parseSingleItem_at_time, to_array_map.
  destruct (Nat.leb _ 1); [reflexivity|].
  assert (E : flat_map (fun c => if is_empty (trim c) then []
                                 else to_array (parseSingleItem (at_time rt now) c))
                (re_split re_chunk_delimiters (toLowerCase rt text))
              = map (with_date now)
                  (flat_map (fun c => if is_empty (trim c) then []
                                      else to_array (parseSingleItem rt c))
                     (re_split re_chunk_delimiters (toLowerCase rt text)))).
  { induction (re_split re_chunk_delimiters (toLowerCase rt text)) as [|c l IH];
      [reflexivity|].
    simpl. rewrite map_app, IH. f_equal.
    destruct (is_empty (trim c)); [reflexivity|].
    rewrite parseSingleItem_at_time. apply to_array_map. }
  rewrite E, length_map.
  destruct (Nat.eqb _ 0); reflexivity.
Qed.

(** X5. When [parseEnhanced] returns an entry, a call of the legacy
    [parseSingleSentence] on the same text, at whatever instant it is
    made, returns that entry with the date of its own instant (each call
    stamps the entry with its own reading of the clock, so the date is the
    one field that can differ) and no warnings; and the entry is the first
    one of [parseSentence], again up to the date of the call. *)
Theorem legacy_entry_agrees (rt : Runtime) (text : jsstring) (e : Entry.t) :
  ParsedResult.entry (parseEnhanced rt text) = Some e ->
  forall later,
    parseSingleSentence (at_time rt later) text = SingleSentence.mk (with_date later e) []
    /\ exists more, parseSentence (at_time rt later) text = with_date later e :: more.
Proof.
  destruct (parseCreditCommand_payload rt text) as [Hc _].
  destruct (parseOrderCommand_payload rt text) as [Ho _].
  forms_of (parseEnhanced_route rt text) (parseEnhanced rt text); simpl; intros He; try discriminate; try congruence.
  inversion He; subst first. intros later.
  unfold parseSingleSentence.
  rewrite blank_iff, Eblank, parseSentence_at_time, Eparsed. simpl. eauto.
Qed.

Lemma legacy_entry_agrees_witness :
  exists e,
    ParsedResult.entry (parseEnhanced catalog45 (str "sold 2 kg rice")) = Some e
    /\ Entry.transaction_date e <> str "2026-01-01T09:30:00.000Z"
    /\ parseSingleSentence (at_time catalog45 (str "2026-01-01T09:30:00.000Z"))
         (str "sold 2 kg rice")
       = SingleSentence.mk (with_date (str "2026-01-01T09:30:00.000Z") e) [].
Proof.
  remember (ParsedResult.entry (parseEnhanced catalog45 (str "sold 2 kg rice")))
    as r eqn:Er.
  assert (Hr : exists e, r = Some e
                         /\ Entry.transaction_date e <> str "2026-01-01T09:30:00.000Z")
    by (vm_compute in Er; subst r; eexists; split; [reflexivity | discriminate]).
  destruct Hr as [e [He Hd]]. subst r. exists e.
  split; [exact He|]. split; [exact Hd|].
  apply (legacy_entry_agrees catalog45 (str "sold 2 kg rice") e He).
Defined.


(* ================================================================== *)
(** * Validation of the parsed entries *)
(* ================================================================== *)

Lemma price_not_negative (p : number) : p = zero \/ gt0 p = true -> lt0 p = false.
Proof.
  intros [H|H]; [subst; reflexivity | apply (gt0_facts p H)].
Qed.

Lemma validateEntry_accepts (e : Entry.t) :
  is_empty (Entry.item e) || is_empty (trim (Entry.item e)) = false ->
  well_priced e ->
  validateEntry (as_partial e) = Validation.mk true [].
Proof.
  intros Hn [Hp [Hq _]].
  unfold validateEntry, as_partial. cbn [Partial.item Partial.qty Partial.price].
  rewrite Hn, (proj1 (proj2 (proj2 (gt0_facts _ Hq)))), (price_not_negative _ Hp).
  reflexivity.
Qed.

Lemma parseSingleItem_named (rt : Runtime) (chunk : jsstring) (e : Entry.t) :
  parseSingleItem rt chunk = Some e ->
  is_empty (Entry.item e) || is_empty (trim (Entry.item e)) = false.
Proof.
  unfold parseSingleItem.
  destruct (is_empty chunk || is_empty (trim chunk)); [discriminate|].
  cbv zeta.
  destruct (item_and_unit rt (trim chunk)) as [err|[[item unit]|]]; try discriminate.
  match goal with |- context [if ?c then None else _] => destruct c eqn:E end;
    [discriminate|].
  intros H. inversion H; subst e. exact E.
Qed.

Lemma enhance_fields (rt : Runtime) (item e : Entry.t) :
  enhance rt item = inr e ->
  Entry.item e = Entry.item item /\ Entry.qty e = Entry.qty item
  /\ Entry.unit e = Entry.unit item /\ Entry.type e = Entry.type item
  /\ Entry.source_text e = Entry.source_text item
  /\ Entry.transaction_date e = Entry.transaction_date item.
Proof.
  destruct (enhance_cases rt item) as [fp [ps [H _]]]. rewrite H.
  intros E. inversion E; subst e. simpl. repeat split.
Qed.

(** An entry after the price lookup comes from a parsed entry. *)
Lemma looked_up_entry (rt : Runtime) (text : jsstring) (l : PriceLookup.t) (e : Entry.t) :
  parseSentenceWithPriceLookup rt text = inr l -> In e (PriceLookup.entries l) ->
  exists item, In item (parseSentence rt text) /\ enhance rt item = inr e.
Proof.
  intros Hl He.
  destruct (parseSentenceWithPriceLookup_returns rt text) as [l' [Hl' [Hall _]]].
  rewrite Hl in Hl'. inversion Hl'; subst l'.
  exact (Forall2_In_r _ _ _ _ Hall He).
Qed.

Lemma parsed_entry_valid (rt : Runtime) (text : jsstring) (e : Entry.t) :
  In e (parseSentence rt text) ->
  validateEntry (as_partial e) = Validation.mk true [].
Proof.
  intros H. destruct (parseSentence_from_chunks _ _ _ H) as [chunk Hc].
  apply validateEntry_accepts.
  - exact (parseSingleItem_named _ _ _ Hc).
  - exact (proj1 (parseSingleItem_well_priced _ _ _ Hc)).
Qed.

(** Every such entry is built by [parseSingleItem] from a chunk, and may
    then have gone through the price lookup. *)
Lemma parsed_entry_origin (rt : Runtime) (text : jsstring) (e : Entry.t) :
  parsed_entry rt text e ->
  exists chunk item,
    parseSingleItem rt chunk = Some item /\ (e = item \/ enhance rt item = inr e).
Proof.
  intros [H|[[l [Hl He]]|H]].
  - destruct (parseSentence_from_chunks _ _ _ H) as [chunk Hc]. eauto.
  - destruct (looked_up_entry _ _ _ _ Hl He) as [item [Hi Hen]].
    destruct (parseSentence_from_chunks _ _ _ Hi) as [chunk Hc]. eauto.
  - destruct (parseCreditCommand_payload rt text) as [Hc _].
    destruct (parseOrderCommand_payload rt text) as [Ho _].
    forms_of (parseEnhanced_route rt text) (parseEnhanced rt text); simpl in H; try discriminate; try congruence.
    inversion H; subst first.
    assert (Hin : In e (parseSentence rt text)) by (rewrite Eparsed; left; reflexivity).
    destruct (parseSentence_from_chunks _ _ _ Hin) as [chunk Hch]. eauto.
Qed.

(** X6. [validateEntry] accepts, with no errors, every entry that the
    parsers return: each entry of [parseSentence], each entry of
    [parseSentenceWithPriceLookup], and the entry of [parseEnhanced]. *)
Theorem parsed_entries_pass_validation (rt : Runtime) (text : jsstring) (e : Entry.t) :
  parsed_entry rt text e ->
  validateEntry (as_partial e) = Validation.mk true [].
Proof.
  intros H. destruct (parsed_entry_origin _ _ _ H) as [chunk [item [Hc [E|Hen]]]].
  - subst item. apply validateEntry_accepts.
    + exact (parseSingleItem_named _ _ _ Hc).
    + exact (proj1 (parseSingleItem_well_priced _ _ _ Hc)).
  - destruct (enhance_fields _ _ _ Hen) as [Hname _].
    apply validateEntry_accepts.
    + rewrite Hname. exact (parseSingleItem_named _ _ _ Hc).
    + apply (enhance_well_priced rt item e); [|exact Hen].
      exact (proj1 (parseSingleItem_well_priced _ _ _ Hc)).
Qed.

Lemma parsed_entries_pass_validation_witness :
  exists e,
    parsed_entry catalog45 (str "sold 2 kg rice, 3 packets maggi for rs 30") e
    /\ validateEntry (as_partial e) = Validation.mk true [].
Proof.
  remember (parseSentence catalog45 (str "sold 2 kg rice, 3 packets maggi for rs 30"))
    as items eqn:E.
  assert (H : exists e, In e items)
    by (vm_compute in E; subst items; eexists; left; reflexivity).
  destruct H as [e He]. exists e.
  assert (Hp : parsed_entry catalog45 (str "sold 2 kg rice, 3 packets maggi for rs 30") e)
    by (left; rewrite <- E; exact He).
  split; [exact Hp|].
  exact (parsed_entries_pass_validation catalog45
           (str "sold 2 kg rice, 3 packets maggi for rs 30") e Hp).
Defined.

(** X7. The entry of the legacy [parseSingleSentence] passes
    [validateEntry] exactly when the text is not blank: for a blank text
    the placeholder entry is rejected with the errors 'Item name is
    required' and 'Quantity must be a positive number'; for any other text
    the entry, parsed or the basic fallback, is accepted without errors. *)
Theorem parseSingleSentence_valid_iff_not_blank (rt : Runtime) (text : jsstring) :
  (is_empty (trim text) = true ->
     validateEntry (as_partial (SingleSentence.entry (parseSingleSentence rt text)))
     = Validation.mk false
         [str "Item name is required"; str "Quantity must be a positive number"])
  /\ (is_empty (trim text) = false ->
        validateEntry (as_partial (SingleSentence.entry (parseSingleSentence rt text)))
        = Validation.mk true []).
Proof.
  unfold parseSingleSentence. rewrite blank_iff. split; intros Hb; rewrite Hb.
  - reflexivity.
  - destruct (parseSentence rt text) as [|first more] eqn:Es.
    + unfold validateEntry, as_partial. simpl.
      rewrite trim_idempotent, Hb. reflexivity.
    + apply (parsed_entry_valid rt text). rewrite Es. left. reflexivity.
Qed.

Lemma parseSingleSentence_valid_iff_not_blank_witness :
  validateEntry (as_partial (SingleSentence.entry (parseSingleSentence catalog45 (str "  "))))
  = Validation.mk false
      [str "Item name is required"; str "Quantity must be a positive number"]
  /\ validateEntry
       (as_partial (SingleSentence.entry (parseSingleSentence catalog45 (str "hello"))))
     = Validation.mk true [].
Proof.
  split.
  - apply (proj1 (parseSingleSentence_valid_iff_not_blank catalog45 (str "  "))).
    vm_compute. reflexivity.
  - apply (proj2 (parseSingleSentence_valid_iff_not_blank catalog45 (str "hello"))).
    vm_compute. reflexivity.
Defined.

(** X8. The price lookup changes nothing but price, total and provenance:
    it returns one entry per parsed item, in the same order, and each has
    the item, quantity, unit, type, source text and date of the parsed
    item. *)
Theorem lookup_keeps_parsed_fields (rt : Runtime) (text : jsstring) :
  exists l,
    parseSentenceWithPriceLookup rt text = inr l
    /\ Forall2
         (fun item e =>
            Entry.item e = Entry.item item /\ Entry.qty e = Entry.qty item
            /\ Entry.unit e = Entry.unit item /\ Entry.type e = Entry.type item
            /\ Entry.source_text e = Entry.source_text item
            /\ Entry.transaction_date e = Entry.transaction_date item)
         (parseSentence rt text) (PriceLookup.entries l).
Proof.
  destruct (parseSentenceWithPriceLookup_returns rt text) as [l [Hl [Hall _]]].
  exists l. split; [exact Hl|].
  apply Forall2_impl_In with (1 := Hall).
  intros item e _ _ H. exact (enhance_fields _ _ _ H).
Qed.

(* ================================================================== *)
(** * The payload of an order and of a credit sale *)
(* ================================================================== *)

Lemma num_or_price (p : number) : p = zero \/ gt0 p = true -> num_or p zero = p.
Proof.
  intros [H|H]; [subst; reflexivity | apply num_or_gt0; exact H].
Qed.

(** [product || 0] is never NaN and never negative. *)
Lemma product_or_zero (p q : number) :
  p = zero \/ gt0 p = true -> gt0 q = true -> ge0 (num_or (mul p q) zero) = true.
Proof.
  intros Hp Hq. unfold num_or.
  destruct (truthy (mul p q)) eqn:Et; [|reflexivity].
  destruct (mul_price_qty _ _ Hp Hq) as [[Hn _] | [Hs _]].
  - rewrite Hn in Et. discriminate.
  - apply not_negative_ge0. exact Hs.
Qed.

Lemma str_or_not_nil (a d : jsstring) : d <> [] -> str_or a d <> [].
Proof. unfold str_or. destruct a; simpl; [auto | discriminate]. Qed.

Lemma is_empty_false (s : jsstring) : is_empty s = false -> s <> [].
Proof. destruct s; [discriminate | discriminate]. Qed.

Lemma to_order_item_line (e : Entry.t) :
  well_priced e -> is_empty (Entry.item e) = false -> order_line (to_order_item e).
Proof.
  intros [Hp [Hq _]] Hn.
  unfold order_line, to_order_item. simpl. rewrite (num_or_gt0 _ one Hq).
  split; [apply is_empty_false; exact Hn|].
  split; [exact Hq|]. split; [|reflexivity].
  destruct (truthy (Entry.price e)) eqn:Et; [right|left; reflexivity].
  exists (Entry.price e). split; [reflexivity|].
  destruct Hp as [Hp|Hp]; [rewrite Hp in Et; discriminate | exact Hp].
Qed.

Lemma parseOrderCommand_order (rt : Runtime) (text : jsstring) (o : Order.t) :
  ParsedResult.order (parseOrderCommand rt text) = Some o ->
  Order.customer o <> [] /\ Order.items o <> [] /\ Forall order_line (Order.items o).
Proof.
  unfold parseOrderCommand.
  destruct (is_empty text || is_empty (trim text)); [discriminate|].
  cbv zeta.
  match goal with |- context [Nat.eqb (List.length ?items) 0] =>
    remember items as orderItems eqn:Eo end.
  destruct orderItems as [|i0 more]; [discriminate|].
  simpl. intros H. inversion H; subst o; clear H. simpl.
  split.
  { destruct (extractCustomerName rt text);
      [apply str_or_not_nil|]; discriminate. }
  split; [discriminate|].
  rewrite Eo. clear Eo. apply Forall_forall. intros i Hi.
  match type of Hi with In _ (if ?c then _ else _) => destruct c end;
    apply in_flat_map in Hi; destruct Hi as [x [Hx Hi]].
  - destruct (is_empty (trim x)); [destruct Hi|].
    destruct (parseSingleItem rt (trim x)) as [parsedItem|] eqn:Ep; [|destruct Hi].
    destruct (is_empty (Entry.item parsedItem)) eqn:En; [destruct Hi|].
    destruct Hi as [Hi|[]]. subst i.
    apply to_order_item_line;
      [exact (proj1 (parseSingleItem_well_priced _ _ _ Ep)) | exact En].
  - destruct (is_empty (Entry.item x)) eqn:En; [destruct Hi|].
    destruct Hi as [Hi|[]]. subst i.
    apply to_order_item_line;
      [exact (proj1 (parseSentence_well_priced _ _ _ Hx)) | exact En].
Qed.

(** X9. An order that [parseEnhanced] returns is complete: the result has
    type 'order', the customer is not empty ('Walk-in' when the text names
    none), there is at least one item, and every item has a name, a
    quantity above 0, a price that is [null] or above 0, and no delivery
    date. *)
Theorem order_payload_complete (rt : Runtime) (text : jsstring) (o : Order.t) :
  ParsedResult.order (parseEnhanced rt text) = Some o ->
  ParsedResult.type (parseEnhanced rt text) = T_order
  /\ Order.customer o <> [] /\ Order.items o <> []
  /\ Forall order_line (Order.items o).
Proof.
  destruct (parseCreditCommand_payload rt text) as [_ [Hc _]].
  pose proof (parseOrderCommand_type rt text) as Ht.
  pose proof (parseOrderCommand_order rt text o) as Ho.
  forms_of (parseEnhanced_route rt text) (parseEnhanced rt text); simpl; intros Hres; try discriminate; try congruence.
  split; [exact Ht | exact (Ho Hres)].
Qed.

Lemma order_payload_complete_witness :
  exists o,
    ParsedResult.order (parseEnhanced catalog45 (str "order 2 kg rice and 3 maggi for priya"))
    = Some o
    /\ Order.customer o <> [] /\ Order.items o <> []
    /\ Forall order_line (Order.items o).
Proof.
  remember (ParsedResult.order
              (parseEnhanced catalog45 (str "order 2 kg rice and 3 maggi for priya")))
    as r eqn:Er.
  assert (Hr : exists o, r = Some o) by (vm_compute in Er; subst r; eexists; reflexivity).
  destruct Hr as [o Ho]. subst r. exists o. split; [exact Ho|].
  apply (order_payload_complete catalog45
           (str "order 2 kg rice and 3 maggi for priya") o Ho).
Defined.

Lemma to_credit_item_line (e : Entry.t) : well_priced e -> priced_line (to_credit_item e).
Proof.
  intros [Hp [Hq Ht]].
  unfold priced_line, to_credit_item. simpl.
  rewrite (num_or_price _ Hp), (num_or_gt0 _ one Hq), Ht.
  split; [exact Hp|]. split; [exact Hq|]. split; [reflexivity|].
  apply product_or_zero; assumption.
Qed.

(** The sum of the totals of the lines is never NaN and never negative. *)
Lemma total_of_lines (l : list CreditItem.t) :
  Forall priced_line l ->
  forall acc, ge0 acc = true ->
    ge0 (fold_left (fun sum item => add sum (CreditItem.total item)) l acc) = true.
Proof.
  induction 1 as [|i l Hi _ IH]; intros acc Hacc; simpl; [exact Hacc|].
  apply IH. apply add_not_negative; [exact Hacc | apply Hi].
Qed.

Lemma looked_up_well_priced (rt : Runtime) (text : jsstring) (l : PriceLookup.t) :
  parseSentenceWithPriceLookup rt text = inr l ->
  Forall well_priced (PriceLookup.entries l).
Proof.
  intros Hl. apply Forall_forall. intros e He.
  destruct (looked_up_entry _ _ _ _ Hl He) as [item [Hi Hen]].
  apply (enhance_well_priced rt item e); [|exact Hen].
  exact (proj1 (parseSentence_well_priced _ _ _ Hi)).
Qed.

Lemma parseCreditSale_settled (rt : Runtime) text warnings source (c : Credit.t) :
  ParsedResult.credit (parseCreditSale rt text warnings source) = Some c ->
  Credit.type c = sale /\ sale_settled c.
Proof.
  unfold parseCreditSale.
  destruct (parseSentenceWithPriceLookup rt _) as [e|[entries parseWarnings]] eqn:El;
    [discriminate|].
  apply looked_up_well_priced in El. simpl in El.
  assert (Hcust : match extractCustomerName rt text with
                  | Some c0 => str_or c0 (str "Walk-in")
                  | None => str "Walk-in"
                  end <> []).
  { destruct (extractCustomerName rt text); [apply str_or_not_nil|]; discriminate. }
  destruct entries as [|entry [|entry' more]]; [discriminate| |].
  - simpl. intros H. inversion H; subst c; clear H. split; [reflexivity|].
    split; [exact Hcust|]. simpl.
    inversion El as [|? ? [Hp [Hq Ht]] _]; subst.
    rewrite (num_or_price _ Hp), (num_or_gt0 _ one Hq), Ht.
    split.
    + eexists. split; [reflexivity|]. apply product_or_zero; assumption.
    + left. exists (Entry.price entry), (Entry.qty entry). repeat split; assumption.
  - cbv zeta. simpl ParsedResult.credit. intros H. inversion H; subst c; clear H.
    split; [reflexivity|]. split; [exact Hcust|].
    assert (Hl : Forall priced_line (map to_credit_item (entry :: entry' :: more))).
    { apply Forall_forall. intros i Hi. apply in_map_iff in Hi.
      destruct Hi as [e [Ee He]]. subst i. apply to_credit_item_line.
      rewrite Forall_forall in El. apply El. exact He. }
    cbn [Credit.items Credit.amount]. split.
    + eexists. split; [reflexivity|].
      apply (total_of_lines _ Hl zero). reflexivity.
    + right. exists (map to_credit_item (entry :: entry' :: more)).
      split; [reflexivity|]. split; [simpl; lia|]. split; [exact Hl | reflexivity].
Qed.

Lemma parseCreditCommand_sale (rt : Runtime) (text : jsstring) (c : Credit.t) :
  ParsedResult.credit (parseCreditCommand rt text) = Some c ->
  Credit.type c = sale -> sale_settled c.
Proof.
  unfold parseCreditCommand.
  destruct (is_empty text || negb (isCreditCommand text)); [discriminate|].
  destruct (getCreditCommandType text) as [[|]|]; [| |discriminate].
  - intros H _. exact (proj2 (parseCreditSale_settled _ _ _ _ _ H)).
  - unfold parseCreditPayment.
    destruct (payment_extraction _) as [[amount customerName]|]; [|discriminate].
    destruct (le0 amount); [discriminate|].
    simpl. intros H Hs. inversion H; subst c. discriminate.
Qed.

(** X10. A credit sale that [parseEnhanced] returns adds up, in the
    arithmetic of doubles: the customer is not empty ('Walk-in' when the
    text names none) and the amount is never NaN and never negative; with
    one item the quantity is above 0, the price is 0 or above 0, and the
    amount is price * qty, or 0 when that product is NaN (a price of 0
    with a quantity that overflowed to Infinity); with several items
    there are at least two lines, each with such a quantity, price and
    total, and the amount is the sum of the totals of the lines. *)
Theorem credit_sale_adds_up (rt : Runtime) (text : jsstring) (c : Credit.t) :
  ParsedResult.credit (parseEnhanced rt text) = Some c ->
  Credit.type c = sale ->
  sale_settled c.
Proof.
  destruct (parseOrderCommand_payload rt text) as [_ [Ho _]].
  pose proof (parseCreditCommand_sale rt text c) as Hc.
  forms_of (parseEnhanced_route rt text) (parseEnhanced rt text); simpl; intros Hres; try discriminate; try congruence.
  exact (Hc Hres).
Qed.

Lemma credit_sale_adds_up_witness :
  exists c,
    ParsedResult.credit
      (parseEnhanced catalog45 (str "Credit Sales 2 kg rice for rs 50, 3 maggi for Priya"))
    = Some c
    /\ sale_settled c.
Proof.
  remember (ParsedResult.credit
              (parseEnhanced catalog45
                 (str "Credit Sales 2 kg rice for rs 50, 3 maggi for Priya")))
    as r eqn:Er.
  assert (Hr : exists c, r = Some c /\ Credit.type c = sale)
    by (vm_compute in Er; subst r; eexists; split; reflexivity).
  destruct Hr as [c [Hc Hs]]. subst r. exists c. split; [exact Hc|].
  exact (credit_sale_adds_up catalog45
           (str "Credit Sales 2 kg rice for rs 50, 3 maggi for Priya") c Hc Hs).
Defined.

(* ================================================================== *)
(** * Credit commands and blank texts *)
(* ================================================================== *)

Lemma last_warning_differs (r : ParsedResult.t) (ws : list jsstring) (w w' : jsstring)
    (text : jsstring) :
  ParsedResult.warnings r = ws ++ [w] -> w <> w' ->
  r <> without_payload T_transaction [w'] text.
Proof.
  intros Hw Hn E. rewrite E in Hw. simpl in Hw.
  apply (app_inj_tail [] ws w' w) in Hw. destruct Hw as [_ Hw]. congruence.
Qed.

Lemma credit_type_differs (r : ParsedResult.t) (ws : list jsstring) (text : jsstring) :
  ParsedResult.type r = T_credit -> r <> without_payload T_transaction ws text.
Proof. intros Ht E. rewrite E in Ht. discriminate. Qed.

(** X11. [isCreditCommand] and [getCreditCommandType] agree: a text is a
    credit command exactly when it has a credit type.  So
    [parseCreditCommand] is [parseCreditSale] for a sale,
    [parseCreditPayment] for a payment, 'Not a credit command' for any
    other text, and never answers 'Could not determine credit command
    type'. *)
Theorem credit_command_has_type (rt : Runtime) (text : jsstring) :
  (isCreditCommand text = true <-> getCreditCommandType text <> None)
  /\ (getCreditCommandType text = Some sale ->
        parseCreditCommand rt text = parseCreditSale rt text [] text)
  /\ (getCreditCommandType text = Some payment ->
        parseCreditCommand rt text = parseCreditPayment rt text [] text)
  /\ (getCreditCommandType text = None ->
        parseCreditCommand rt text
        = without_payload T_transaction [str "Not a credit command"] text)
  /\ parseCreditCommand rt text
     <> without_payload T_transaction [str "Could not determine credit command type"]
          text.
Proof.
  assert (Hagree : isCreditCommand text
                   = match getCreditCommandType text with Some _ => true | None => false end).
  { unfold isCreditCommand, getCreditCommandType.
    destruct (is_empty text); [reflexivity|]. cbv zeta.
    destruct (test re_credit_sales (trim text)); [reflexivity|].
    destruct (test re_credit_paid (trim text)); reflexivity. }
  assert (Htext : getCreditCommandType text <> None -> is_empty text = false).
  { unfold getCreditCommandType. destruct (is_empty text); congruence. }
  unfold parseCreditCommand. rewrite Hagree.
  destruct (getCreditCommandType text) as [[|]|] eqn:Et.
  - rewrite Htext by discriminate. simpl.
    repeat split; try discriminate; auto.
    unfold parseCreditSale.
    destruct (parseSentenceWithPriceLookup rt _) as [e|[entries parseWarnings]].
    + apply last_warning_differs
        with (ws := []) (w := str "Error parsing item details in credit sale");
        [reflexivity | discriminate].
    + destruct entries as [|entry [|entry' more]];
        [ | apply credit_type_differs; reflexivity
          | apply credit_type_differs; reflexivity ].
      apply last_warning_differs
        with (ws := [] ++ parseWarnings)
             (w := str "Could not parse item details from credit sale");
        [reflexivity | discriminate].
  - rewrite Htext by discriminate. simpl.
    repeat split; try discriminate; auto.
    unfold parseCreditPayment.
    destruct (payment_extraction _) as [[amount customerName]|].
    + destruct (le0 amount); [|apply credit_type_differs; reflexivity].
      apply last_warning_differs
        with (ws := []) (w := str "Credit payment amount must be greater than 0");
        [reflexivity | discriminate].
    + apply last_warning_differs
        with (ws := []) (w := str "Could not parse credit payment amount");
        [reflexivity | discriminate].
  - rewrite orb_true_r.
    repeat split; try discriminate; try congruence; auto.
Qed.

Lemma credit_command_has_type_witness :
  parseCreditCommand catalog45 (str "Credit Paid 500 by Priya")
  = parseCreditPayment catalog45 (str "Credit Paid 500 by Priya") []
      (str "Credit Paid 500 by Priya").
Proof.
  apply (credit_command_has_type catalog45 (str "Credit Paid 500 by Priya")).
  vm_compute. reflexivity.
Defined.

Lemma blank_not_credit (text : jsstring) :
  is_empty (trim text) = true -> isCreditCommand text = false.
Proof.
  intros Hb. unfold isCreditCommand. destruct (is_empty text); [reflexivity|].
  destruct (trim text); [reflexivity | discriminate].
Qed.

Lemma blank_parseSentence (rt : Runtime) (text : jsstring) :
  is_empty (trim text) = true -> parseSentence rt text = [].
Proof. intros Hb. unfold parseSentence. rewrite blank_iff, Hb. reflexivity. Qed.

(** X12. A blank text (empty, or white space only) is refused at every
    entry point without being parsed: [parseEnhanced] and
    [parseOrderCommand] answer 'Empty input text' without payload,
    [parseSentence] and [parsePriceSentence] return nothing,
    [parseSingleItem] returns [null], [extractItem] throws EMPTY_INPUT,
    the price lookup returns no entry and one warning, the text is not a
    credit command, and the legacy parser warns 'Empty input text'. *)
Theorem blank_text_refused (rt : Runtime) (text : jsstring) :
  is_empty (trim text) = true ->
  parseEnhanced rt text = without_payload T_transaction [str "Empty input text"] text
  /\ parseOrderCommand rt text = without_payload T_order [str "Empty input text"] text
  /\ parseSentence rt text = []
  /\ parsePriceSentence rt text = []
  /\ parseSingleItem rt text = None
  /\ extractItem rt text = inl (ParsingError (str "Empty input text") EMPTY_INPUT)
  /\ parseSentenceWithPriceLookup rt text
     = inr (PriceLookup.mk [] [str "Could not parse any items from input"])
  /\ isCreditCommand text = false
  /\ parseCreditCommand rt text
     = without_payload T_transaction [str "Not a credit command"] text
  /\ SingleSentence.warnings (parseSingleSentence rt text) = [str "Empty input text"].
Proof.
  intros Hb.
  pose proof (blank_not_credit text Hb) as Hc.
  pose proof (blank_parseSentence rt text Hb) as Hs.
  unfold parseEnhanced, parseOrderCommand, parsePriceSentence, parseSingleItem,
    extractItem, parseSentenceWithPriceLookup, parseCreditCommand, parseSingleSentence.
  rewrite Hs, Hc, !blank_iff, Hb, orb_true_r. repeat split.
Qed.

Lemma blank_text_refused_witness :
  parseEnhanced catalog45 (str "   ")
  = without_payload T_transaction [str "Empty input text"] (str "   ")
  /\ parseSentence catalog45 (str "   ") = []
  /\ parseSingleItem catalog45 (str "   ") = None.
Proof.
  destruct (blank_text_refused catalog45 (str "   ")) as [H1 [_ [H3 [_ [H5 _]]]]];
    [vm_compute; reflexivity|].
  repeat split; assumption.
Defined.

(* ================================================================== *)
(** * Units *)
(* ================================================================== *)

Lemma str_eqb_eq (a b : jsstring) : str_eqb a b = true -> a = b.
Proof.
  revert b. induction a as [|x a IH]; intros [|y b]; simpl; try discriminate; auto.
  intros H. apply andb_true_iff in H. destruct H as [H1 H2].
  apply N.eqb_eq in H1. subst. f_equal. auto.
Qed.

Lemma one_of_In (l : list string) (x : jsstring) :
  one_of l x = true -> exists u, In u l /\ x = str u.
Proof.
  unfold one_of, arr_includes. intros H. apply existsb_exists in H.
  destruct H as [s [Hs He]]. apply in_map_iff in Hs. destruct Hs as [u [Eu Hu]].
  subst s. exists u. split; [exact Hu | apply str_eqb_eq; exact He].
Qed.

(** X13. Normalising the unit first does not change a conversion: for a
    unit that [normaliseQuantity] knows (a mass or a volume, in any
    letter case), [normaliseQuantity] gives the same value for the unit
    and for its normal form. *)
Theorem normaliseQuantity_of_normal_form (rt : Runtime) (value : number) (unit : jsstring) :
  one_of ["gm"; "g"; "gram"; "grams"; "kg"; "kilo"; "kilogram"; "kilograms";
          "ml"; "l"; "litre"; "liter"; "litres"] (toLowerCase rt unit) = true ->
  normaliseQuantity rt value (normalizeUnit rt unit) = normaliseQuantity rt value unit.
Proof.
  intros H. apply one_of_In in H. destruct H as [u [Hu Hx]].
  assert (Hn : is_empty unit = false).
  { destruct unit; [|reflexivity]. unfold toLowerCase in Hx. simpl in Hx.
    simpl in Hu. repeat (destruct Hu as [Hu|Hu]; [subst u; discriminate|]).
    destruct Hu. }
  unfold normalizeUnit. unfold normaliseQuantity at 2. rewrite Hn, Hx.
  simpl in Hu.
  repeat (destruct Hu as [Hu|Hu]; [subst u; reflexivity|]).
  destruct Hu.
Qed.

Lemma normaliseQuantity_of_normal_form_witness :
  normaliseQuantity catalog45 (num 500) (normalizeUnit catalog45 (str "Grams"))
  = normaliseQuantity catalog45 (num 500) (str "Grams").
Proof.
  apply (normaliseQuantity_of_normal_form catalog45 (num 500) (str "Grams")).
  vm_compute. reflexivity.
Defined.

Lemma first_unit_In (units : list string) (text : jsstring) (u : string) :
  first_unit units text = Some u -> In u units.
Proof.
  induction units as [|x units IH]; simpl; [discriminate|].
  destruct (test (re_unit x) text); [|auto].
  intros H. inversion H. left. reflexivity.
Qed.

(** What [extractUnit] returns is a normal form. *)
Lemma extractUnit_normal (rt : Runtime) (text u : jsstring) :
  extractUnit rt text = Some u -> normalizeUnit rt u = u.
Proof.
  unfold extractUnit. destruct (is_empty text); [discriminate|]. cbv zeta.
  destruct (test re_parle_g (toLowerCase rt text)).
  - destruct (existsb _ _); intros H; inversion H; reflexivity.
  - destruct (first_unit KNOWN_UNITS (toLowerCase rt text)) as [unit|] eqn:E;
      [|discriminate].
    intros H. inversion H; subst u. clear H.
    apply first_unit_In in E. unfold KNOWN_UNITS in E. simpl in E.
    repeat (destruct E as [E|E]; [subst unit; reflexivity|]).
    destruct E.
Qed.

Lemma item_and_unit_normal (rt : Runtime) (chunk item unit : jsstring) :
  item_and_unit rt chunk = inr (Some (item, unit)) -> normalizeUnit rt unit = unit.
Proof.
  unfold item_and_unit.
  assert (Hplain :
            match extractUnit rt chunk with Some u => str_or u [] | None => [] end = unit ->
            normalizeUnit rt unit = unit).
  { destruct (extractUnit rt chunk) as [u|] eqn:Eu; [|intros; subst; reflexivity].
    intros E. apply extractUnit_normal in Eu. unfold str_or in E.
    destruct u; simpl in E; subst; [reflexivity | exact Eu]. }
  assert (Hrest :
            match extractItem rt chunk with
            | inr item0 =>
                inr (Some (item0,
                           match extractUnit rt chunk with
                           | Some u => str_or u [] | None => [] end))
            | inl e =>
                match item_from_chunk rt chunk e with
                | inr (Some item0) =>
                    inr (Some (item0,
                               match extractUnit rt chunk with
                               | Some u => str_or u [] | None => [] end))
                | inr None => inr None
                | inl e' => inl e'
                end
            end = inr (Some (item, unit)) -> normalizeUnit rt unit = unit).
  { destruct (extractItem rt chunk) as [e|item0].
    - destruct (item_from_chunk rt chunk e) as [e'|[item0|]]; try discriminate.
      intros H. injection H as _ Hu. exact (Hplain Hu).
    - intros H. injection H as _ Hu. exact (Hplain Hu). }
  destruct (containsSpecialBrand rt chunk) as [[|c brand]|]; try exact Hrest.
  cbv zeta. intros H. inversion H.
  destruct (includes (toLowerCase rt chunk) (str "packet")); reflexivity.
Qed.

Lemma parseSingleItem_unit_normal (rt : Runtime) (chunk : jsstring) (e : Entry.t) :
  parseSingleItem rt chunk = Some e -> normalizeUnit rt (Entry.unit e) = Entry.unit e.
Proof.
  unfold parseSingleItem.
  destruct (is_empty chunk || is_empty (trim chunk)); [discriminate|].
  cbv zeta.
  destruct (item_and_unit rt (trim chunk)) as [err|[[item unit]|]] eqn:Ei;
    try discriminate.
  match goal with |- context [if ?c then None else _] => destruct c end;
    [discriminate|].
  intros H. inversion H; subst e. simpl.
  exact (item_and_unit_normal _ _ _ _ Ei).
Qed.

(** X14. The unit of every entry that the parsers return is a normal
    form: [normalizeUnit] leaves it as it is. *)
Theorem parsed_units_normal (rt : Runtime) (text : jsstring) (e : Entry.t) :
  parsed_entry rt text e ->
  normalizeUnit rt (Entry.unit e) = Entry.unit e.
Proof.
  intros H. destruct (parsed_entry_origin _ _ _ H) as [chunk [item [Hc [E|Hen]]]].
  - subst item. exact (parseSingleItem_unit_normal _ _ _ Hc).
  - destruct (enhance_fields _ _ _ Hen) as [_ [_ [Hunit _]]].
    rewrite Hunit. exact (parseSingleItem_unit_normal _ _ _ Hc).
Qed.

Lemma parsed_units_normal_witness :
  exists e,
    parsed_entry catalog45 (str "sold 2 kilos rice, 3 packs maggi") e
    /\ normalizeUnit catalog45 (Entry.unit e) = Entry.unit e.
Proof.
  remember (parseSentence catalog45 (str "sold 2 kilos rice, 3 packs maggi"))
    as items eqn:E.
  assert (H : exists e, In e items)
    by (vm_compute in E; subst items; eexists; left; reflexivity).
  destruct H as [e He]. exists e.
  assert (Hp : parsed_entry catalog45 (str "sold 2 kilos rice, 3 packs maggi") e)
    by (left; rewrite <- E; exact He).
  split; [exact Hp|].
  exact (parsed_units_normal catalog45 (str "sold 2 kilos rice, 3 packs maggi") e Hp).
Defined.

Local Open Scope N_scope.

Lemma ascii_lower_idempotent (c : char) : ascii_lower (ascii_lower c) = ascii_lower c.
Proof.
  unfold ascii_lower. destruct (is_upper c) eqn:E; [|rewrite E; reflexivity].
  unfold is_upper in *. apply andb_true_iff in E. destruct E as [E1 E2].
  apply N.leb_le in E1, E2.
  assert (H : (c + 32 <=? 90) = false) by (apply N.leb_gt; lia).
  rewrite H, andb_false_r. reflexivity.
Qed.

Lemma ascii_lower_ascii (c : char) : is_ascii c = true -> is_ascii (ascii_lower c) = true.
Proof.
  unfold ascii_lower, is_ascii, is_upper. intros H. apply N.ltb_lt in H.
  destruct ((65 <=? c) && (c <=? 90)) eqn:E; [|apply N.ltb_lt; exact H].
  apply andb_true_iff in E. destruct E as [_ E]. apply N.leb_le in E.
  apply N.ltb_lt. lia.
Qed.

Local Close Scope N_scope.

(** The trimmed lower case of an ASCII text is its own trimmed lower
    case. *)
Lemma trim_lower_fixed (rt : Runtime) (u : jsstring) :
  forallb is_ascii u = true ->
  trim (toLowerCase rt (trim (toLowerCase rt u))) = trim (toLowerCase rt u).
Proof.
  intros Hu.
  assert (El : toLowerCase rt u = map ascii_lower u)
    by (unfold toLowerCase; rewrite Hu; reflexivity).
  rewrite El.
  assert (Hin : forall c, In c (trim (map ascii_lower u)) ->
                  is_ascii c = true /\ ascii_lower c = c).
  { intros c Hc. apply trim_incl in Hc. apply in_map_iff in Hc.
    destruct Hc as [c0 [E H0]]. subst c. rewrite forallb_forall in Hu.
    split; [apply ascii_lower_ascii, Hu, H0 | apply ascii_lower_idempotent]. }
  unfold toLowerCase.
  assert (Ha : forallb is_ascii (trim (map ascii_lower u)) = true)
    by (apply forallb_forall; intros c Hc; apply (Hin c Hc)).
  rewrite Ha.
  assert (Hm : map ascii_lower (trim (map ascii_lower u)) = trim (map ascii_lower u)).
  { rewrite <- (map_id (trim (map ascii_lower u))) at 2.
    apply map_ext_in. intros c Hc. apply (Hin c Hc). }
  rewrite Hm. apply trim_idempotent.
Qed.

(** X15. [normalizeUnit] is idempotent on every ASCII text, in whatever
    letter case and with whatever white space around it: normalising a
    normalised unit changes nothing. *)
Theorem normalizeUnit_idempotent_ascii (rt : Runtime) (unit : jsstring) :
  forallb is_ascii unit = true ->
  normalizeUnit rt (normalizeUnit rt unit) = normalizeUnit rt unit.
Proof.
  intros Hu. pose proof (trim_lower_fixed rt unit Hu) as Hfix.
  unfold normalizeUnit at 2 3.
  remember (trim (toLowerCase rt unit)) as x eqn:Ex.
  destruct (one_of ["kgs"; "kilos"; "kilograms"] x) eqn:E1; [reflexivity|].
  destruct (one_of ["grams"; "gram"; "gm"; "gms"] x) eqn:E2; [reflexivity|].
  destruct (one_of ["litres"; "litre"; "ltr"; "ltrs"; "liters"; "liter"] x) eqn:E3;
    [reflexivity|].
  destruct (one_of ["milliliters"; "milliliter"; "mls"] x) eqn:E4; [reflexivity|].
  destruct (one_of ["pcs"; "pieces"; "piece"; "pc"] x) eqn:E5; [reflexivity|].
  destruct (one_of ["packets"; "pack"; "packs"] x) eqn:E6; [reflexivity|].
  destruct (one_of ["bottles"; "btl"; "btls"] x) eqn:E7; [reflexivity|].
  destruct (one_of ["dozens"] x) eqn:E8; [reflexivity|].
  unfold normalizeUnit. rewrite Hfix, E1, E2, E3, E4, E5, E6, E7, E8. reflexivity.
Qed.

Lemma normalizeUnit_idempotent_ascii_witness :
  normalizeUnit catalog45 (normalizeUnit catalog45 (str "  KiloGrams "))
  = normalizeUnit catalog45 (str "  KiloGrams ").
Proof.
  apply (normalizeUnit_idempotent_ascii catalog45 (str "  KiloGrams ")).
  vm_compute. reflexivity.
Defined.

(* ================================================================== *)
(** * Customer names *)
(* ================================================================== *)

(** In a pattern [A([...]X)B], where [B] does not set the group, the
    capture of a match starts with a code unit of the class. *)
Lemma group_head (ic neg : bool) items (A X B : regex) (g : nat) (st res : mstate) :
  ~ In g (groups_of B) ->
  mtch ic (Seq A (Seq (Group g (Seq (Class neg items) X)) B)) st Some = Some res ->
  exists c tl, cap_get g (caps res) = Some (c :: tl) /\
               class_matches ic neg items c = true.
Proof.
  intros HB H. cbn [mtch] in H.
  apply mtch_inv in H. destruct H as [s1 [H _]].
  destruct (advance s1) as [[c s1']|] eqn:Ea; [|discriminate].
  destruct (class_matches ic neg items c) eqn:Ec; [|discriminate].
  apply mtch_inv in H. destruct H as [s2 [H [Hp _]]].
  apply mtch_inv in H. destruct H as [s3 [H [_ Hcaps]]].
  inversion H; subst s3.
  rewrite (Hcaps g HB), cap_get_set_same.
  unfold advance in Ea. destruct (rest s1) as [|c0 tl] eqn:Er; [discriminate|].
  inversion Ea; subst c0 s1'. simpl in Hp.
  destruct (pos s2 - pos s1) as [|n] eqn:En; [lia|].
  simpl. exists c, (firstn n tl). auto.
Qed.

Lemma trim_head (c : char) (t : jsstring) :
  is_space c = false -> exists t', trim (c :: t) = c :: t'.
Proof.
  intros Hc. unfold trim, trimEnd. simpl trimStart. rewrite Hc. simpl rev.
  destruct (trimStart_snoc (rev t) c Hc) as [l' El'].
  rewrite El', rev_app_distr. simpl. eauto.
Qed.

Lemma split_space_head (c : char) (t : jsstring) :
  N.eqb c 32 = false -> exists w ws, split_space (c :: t) = (c :: w) :: ws.
Proof.
  intros Hc. simpl. rewrite Hc. destruct (split_space t); eauto.
Qed.

Local Open Scope N_scope.

Lemma letter_class (ic : bool) (c : char) :
  class_matches ic false [rng "a" "z"; rng "A" "Z"] c = true ->
  (97 <= c /\ c <= 122) \/ (65 <= c /\ c <= 90).
Proof.
  intros H.
  destruct (N.leb_spec 97 c) as [L1|L1]; destruct (N.leb_spec c 122) as [L2|L2];
    try (left; split; assumption);
    destruct (N.leb_spec 65 c) as [U1|U1]; destruct (N.leb_spec c 90) as [U2|U2];
    try (right; split; assumption); exfalso; try lia;
    unfold class_matches, item_matches, rng, code, ascii_upper, ascii_lower,
      is_lower, is_upper in H; simpl in H;
    repeat match type of H with
           | context [N.leb ?a ?b] =>
               let E := fresh "E" in
               first [ assert (E : N.leb a b = true) by (apply N.leb_le; lia)
                     | assert (E : N.leb a b = false) by (apply N.leb_gt; lia) ];
               rewrite E in H; simpl in H
           end;
    try discriminate; destruct ic; simpl in H; discriminate.
Qed.

Lemma letter_facts (ic : bool) (c : char) :
  class_matches ic false [rng "a" "z"; rng "A" "Z"] c = true ->
  is_space c = false /\ N.eqb c 32 = false /\ is_ascii c = true
  /\ is_upper (ascii_upper c) = true.
Proof.
  intros H. pose proof (letter_class ic c H) as Hr. clear H.
  split; [|split; [|split]].
  - unfold is_space.
    repeat match goal with
           | |- (_ || _)%bool = false => apply orb_false_intro
           | |- (_ && _)%bool = false =>
               apply andb_false_iff;
               first [ left; apply N.leb_gt; lia | right; apply N.leb_gt; lia ]
           | |- N.eqb _ _ = false => apply N.eqb_neq; lia
           end.
  - apply N.eqb_neq. lia.
  - apply N.ltb_lt. lia.
  - unfold ascii_upper, is_lower, is_upper.
    destruct ((97 <=? c) && (c <=? 122)) eqn:E.
    + apply andb_true_iff in E. destruct E as [E1 E2]. apply N.leb_le in E1, E2.
      apply andb_true_iff. split; apply N.leb_le; lia.
    + destruct Hr as [[H1 H2]|[H1 H2]].
      * apply N.leb_le in H1, H2. rewrite H1, H2 in E. discriminate.
      * apply andb_true_iff. split; apply N.leb_le; lia.
Qed.

Local Close Scope N_scope.

Lemma titleCase_capitalised (rt : Runtime) (c : char) (t : jsstring) :
  N.eqb c 32 = false -> is_ascii c = true -> is_upper (ascii_upper c) = true ->
  capitalised (titleCase rt (c :: t)) = true.
Proof.
  intros H32 Ha Hu. unfold titleCase.
  destruct (split_space_head c t H32) as [w [ws E]]. rewrite E.
  simpl map. unfold capitalize at 1. simpl charAt0. unfold toUpperCase at 1.
  simpl forallb. rewrite Ha. simpl.
  destruct (map (capitalize rt) ws); simpl; exact Hu.
Qed.

Lemma extractCustomerName_capitalised (rt : Runtime) (text name : jsstring) :
  extractCustomerName rt text = Some name -> capitalised name = true.
Proof.
  unfold extractCustomerName. destruct (is_empty text); [discriminate|]. cbv zeta.
  destruct (exec re_for_customer (toLowerCase rt text)) as [m|] eqn:E; [|discriminate].
  unfold exec in E. apply search_match_at in E. destruct E as [st E].
  unfold match_at in E.
  destruct (mtch _ _ st Some) as [res|] eqn:Em; [|discriminate].
  inversion E; subst m. clear E.
  apply (group_head false false [rng "a" "z"; rng "A" "Z"]
           (seqs [WordBoundary; lit "for"; plus1 ws])
           (lazy_star letter_or_space) (Seq (star ws) InputEnd) 1) in Em;
    [|vm_compute; intuition discriminate].
  destruct Em as [c [tl [Hg Hc]]]. unfold group. simpl m_groups. rewrite Hg.
  cbn [is_empty].
  destruct (letter_facts false c Hc) as [Hs [H32 [Ha Hu]]].
  destruct (trim_head c tl Hs) as [t' Et]. rewrite Et.
  destruct (one_of excludeWords _); [discriminate|].
  destruct (Nat.eqb _ 1); [discriminate|].
  intros H. inversion H. apply titleCase_capitalised; assumption.
Qed.

Lemma customer_or_walk_in_capitalised (rt : Runtime) (text : jsstring) :
  capitalised match extractCustomerName rt text with
              | Some c => str_or c (str "Walk-in")
              | None => str "Walk-in"
              end = true.
Proof.
  destruct (extractCustomerName rt text) as [name|] eqn:E; [|reflexivity].
  apply extractCustomerName_capitalised in E.
  destruct name; [discriminate | exact E].
Qed.

(** The customer that a payment pattern captures is empty or starts with
    a letter. *)
Lemma payment_customer_head (re : RegExp) (A : regex) (s : jsstring) (m : MatchResult) :
  (forall st, mtch (ignoreCase re) (pattern re) st Some
              = mtch (ignoreCase re)
                  (Seq A (Seq (Group 2 (Seq letter (lazy_star letter_or_space))) InputEnd))
                  st Some) ->
  exec re s = Some m ->
  forall rt, capitalised (str_or (if is_empty (trim (group_text 2 m)) then []
                                  else titleCase rt (trim (group_text 2 m)))
                            (str "Walk-in")) = true.
Proof.
  intros Hp H rt. unfold exec in H.
  apply search_match_at in H. destruct H as [st H].
  unfold match_at in H. rewrite Hp in H.
  destruct (mtch (ignoreCase re) _ st Some) as [res|] eqn:E; [|discriminate].
  inversion H; subst m. clear H.
  unfold letter in E. apply group_head in E; [|simpl; tauto].
  destruct E as [c [tl [Hg Hc]]].
  unfold group_text, group. simpl m_groups. rewrite Hg.
  destruct (letter_facts _ c Hc) as [Hs [H32 [Ha Hu]]].
  destruct (trim_head c tl Hs) as [t' Et]. rewrite Et. cbn [is_empty].
  pose proof (titleCase_capitalised rt c t' H32 Ha Hu) as Ht.
  destruct (titleCase rt (c :: t')); [discriminate | exact Ht].
Qed.

Lemma parseCreditPayment_customer (rt : Runtime) text warnings source (c : Credit.t) :
  ParsedResult.credit (parseCreditPayment rt text warnings source) = Some c ->
  capitalised (Credit.customer c) = true.
Proof.
  unfold parseCreditPayment, payment_extraction.
  destruct (exec payment_pattern1 (payment_text text)) as [m1|] eqn:E1.
  { destruct (le0 _); [discriminate|]. simpl. intros H. inversion H. simpl.
    apply (payment_customer_head payment_pattern1
             (seqs [currency; star ws; Group 1 decimal_number; plus1 ws; by_from_for;
                    plus1 ws]) (payment_text text) m1);
      [intros; reflexivity | exact E1]. }
  destruct (exec payment_pattern2 (payment_text text)) as [m2|] eqn:E2.
  { destruct (le0 _); [discriminate|]. simpl. intros H. inversion H. simpl.
    apply (payment_customer_head payment_pattern2
             (seqs [InputStart; Group 1 decimal_number; plus1 ws; by_from_for; plus1 ws])
             (payment_text text) m2);
      [intros; reflexivity | exact E2]. }
  destruct (exec payment_pattern3 (payment_text text)) as [m3|]; [|discriminate].
  destruct (le0 _); [discriminate|]. simpl. intros H. inversion H. reflexivity.
Qed.

(** X16. A customer name starts with an upper-case letter: the name that
    [extractCustomerName] takes from 'for <name>' at the end of a text,
    and so the customer of every order, of every credit sale and of every
    credit payment, which is a name taken from the text or 'Walk-in'. *)
Theorem customer_names_capitalised (rt : Runtime) (text : jsstring) :
  (forall name, extractCustomerName rt text = Some name -> capitalised name = true)
  /\ (forall o, ParsedResult.order (parseOrderCommand rt text) = Some o ->
        capitalised (Order.customer o) = true)
  /\ (forall warnings source c,
        ParsedResult.credit (parseCreditSale rt text warnings source) = Some c ->
        capitalised (Credit.customer c) = true)
  /\ (forall warnings source c,
        ParsedResult.credit (parseCreditPayment rt text warnings source) = Some c ->
        capitalised (Credit.customer c) = true).
Proof.
  pose proof (customer_or_walk_in_capitalised rt text) as Hw.
  split; [intros name; apply extractCustomerName_capitalised|]. split; [|split].
  - intros o. unfold parseOrderCommand.
    destruct (is_empty text || is_empty (trim text)); [discriminate|].
    cbv zeta.
    match goal with |- context [if Nat.eqb ?n 0 then _ else _] =>
      destruct (Nat.eqb n 0) end; [discriminate|].
    simpl. intros H. inversion H. exact Hw.
  - intros warnings source c. unfold parseCreditSale.
    destruct (parseSentenceWithPriceLookup rt _) as [e|[entries parseWarnings]];
      [discriminate|].
    destruct entries as [|entry [|entry' more]]; [discriminate| |];
      simpl; intros H; inversion H; exact Hw.
  - intros warnings source c. apply parseCreditPayment_customer.
Qed.

Lemma customer_names_capitalised_witness :
  exists name,
    extractCustomerName catalog45 (str "order 2 kg rice for priya sharma") = Some name
    /\ capitalised name = true.
Proof.
  remember (extractCustomerName catalog45 (str "order 2 kg rice for priya sharma"))
    as r eqn:Er.
  assert (Hr : exists name, r = Some name)
    by (vm_compute in Er; subst r; eexists; reflexivity).
  destruct Hr as [name Hn]. subst r. exists name. split; [exact Hn|].
  exact (proj1 (customer_names_capitalised catalog45
                  (str "order 2 kg rice for priya sharma")) name Hn).
Defined.

(* ================================================================== *)
(** * Price updates, and entries read again *)
(* ================================================================== *)

(** X17. Every price update of [parsePriceSentence] carries a price that
    is a number (not NaN) and is not negative. *)
Theorem price_updates_not_negative (rt : Runtime) (text : jsstring) :
  Forall (fun u => isNaN (PriceUpdate.price u) = false /\ ge0 (PriceUpdate.price u) = true)
    (parsePriceSentence rt text).
Proof.
  unfold parsePriceSentence.
  destruct (is_empty text || is_empty (trim text)); [constructor|].
  destruct (isCreditCommand text); [constructor|].
  match goal with |- Forall _ (if negb ?b then _ else _) => destruct b end;
    [|constructor].
  cbv zeta. cbn [negb]. apply Forall_forall. intros u Hu.
  apply in_flat_map in Hu. destruct Hu as [part [_ Hu]].
  destruct (is_empty (trim part)); [destruct Hu|].
  destruct (exec re_item_price (trim part)) as [m|]; [|destruct Hu].
  destruct (group 1 m) as [g1|]; [|destruct Hu].
  destruct (group 2 m) as [g2|]; [|destruct Hu].
  destruct (negb (is_empty (trim g1)) && negb (isNaN (parseFloat g2))
            && ge0 (parseFloat g2)) eqn:E; [|destruct Hu].
  destruct Hu as [Hu|[]]. subst u. simpl.
  apply andb_true_iff in E. destruct E as [E1 E2].
  apply andb_true_iff in E1. destruct E1 as [_ E1].
  apply negb_true_iff in E1. split; assumption.
Qed.

Lemma parseSingleItem_trim (rt : Runtime) (chunk : jsstring) :
  parseSingleItem rt (trim chunk) = parseSingleItem rt chunk.
Proof.
  unfold parseSingleItem. rewrite !blank_iff, !trim_idempotent. reflexivity.
Qed.

Lemma parseSingleItem_source (rt : Runtime) (chunk : jsstring) (e : Entry.t) :
  parseSingleItem rt chunk = Some e -> Entry.source_text e = trim chunk.
Proof.
  unfold parseSingleItem.
  destruct (is_empty chunk || is_empty (trim chunk)); [discriminate|].
  cbv zeta.
  destruct (item_and_unit rt (trim chunk)) as [err|[[item unit]|]]; try discriminate.
  match goal with |- context [if ?c then None else _] => destruct c end;
    [discriminate|].
  intros H. inversion H. reflexivity.
Qed.

(** X18. An entry can be read again from its own source text:
    [parseSingleItem] applied to the [source_text] of an entry of
    [parseSentence], at whatever instant the second call is made, returns
    that entry with the date of the second call (the call stamps the entry
    with its own reading of the clock, so the date is the one field that
    can differ); and the source text is trimmed and not blank. *)
Theorem entry_reparsed_from_source (rt : Runtime) (text : jsstring) (e : Entry.t) :
  In e (parseSentence rt text) ->
  (forall later,
     parseSingleItem (at_time rt later) (Entry.source_text e) = Some (with_date later e))
  /\ trim (Entry.source_text e) = Entry.source_text e
  /\ is_empty (Entry.source_text e) = false.
Proof.
  intros H. destruct (parseSentence_from_chunks _ _ _ H) as [chunk Hc].
  pose proof (parseSingleItem_source _ _ _ Hc) as Hs. rewrite Hs.
  split.
  { intros later. rewrite parseSingleItem_at_time, parseSingleItem_trim, Hc. reflexivity. }
  split; [apply trim_idempotent|].
  unfold parseSingleItem in Hc. rewrite blank_iff in Hc.
  destruct (is_empty (trim chunk)); [discriminate | reflexivity].
Qed.

Lemma entry_reparsed_from_source_witness :
  exists e,
    In e (parseSentence catalog45 (str "sold 2 kg rice for 50 rs, bought 3 packets maggi"))
    /\ Entry.transaction_date e <> str "2026-01-01T09:30:00.000Z"
    /\ parseSingleItem (at_time catalog45 (str "2026-01-01T09:30:00.000Z"))
         (Entry.source_text e)
       = Some (with_date (str "2026-01-01T09:30:00.000Z") e).
Proof.
  remember (parseSentence catalog45
              (str "sold 2 kg rice for 50 rs, bought 3 packets maggi")) as items eqn:E.
  assert (H : exists e, In e items
                        /\ Entry.transaction_date e <> str "2026-01-01T09:30:00.000Z")
    by (vm_compute in E; subst items; eexists; split;
        [right; left; reflexivity | discriminate]).
  destruct H as [e [He Hd]]. exists e. split; [exact He|]. split; [exact Hd|].
  apply (entry_reparsed_from_source catalog45
           (str "sold 2 kg rice for 50 rs, bought 3 packets maggi") e).
  rewrite <- E. exact He.
Defined.

(* ================================================================== *)
(** * The type and the brand of an entry *)
(* ================================================================== *)

Lemma parseSingleItem_type (rt : Runtime) (chunk : jsstring) (e : Entry.t) :
  parseSingleItem rt chunk = Some e ->
  Entry.type e = determineTransactionType rt (Entry.source_text e)
  /\ is_empty (trim (Entry.source_text e)) = false.
Proof.
  unfold parseSingleItem. rewrite blank_iff.
  destruct (is_empty (trim chunk)) eqn:Eb; [discriminate|].
  cbv zeta.
  destruct (item_and_unit rt (trim chunk)) as [err|[[item unit]|]]; try discriminate.
  match goal with |- context [if ?c then None else _] => destruct c end;
    [discriminate|].
  intros H. inversion H. simpl. rewrite trim_idempotent. auto.
Qed.

(** X19. Whether an entry is money out depends on the cash-out words
    alone: the type of every entry that the parsers return is 'cash-out'
    when one of the cash-out patterns matches its source text (in lower
    case, trimmed), and 'cash-in' otherwise, whatever words of sale or
    price indicators the text has. *)
Theorem entry_type_by_cash_out_words (rt : Runtime) (text : jsstring) (e : Entry.t) :
  parsed_entry rt text e ->
  Entry.type e
  = if existsb (fun pattern => test pattern (trim (toLowerCase rt (Entry.source_text e))))
         cashOutPatterns
    then cash_out else cash_in.
Proof.
  intros H. destruct (parsed_entry_origin _ _ _ H) as [chunk [item [Hc Ho]]].
  destruct (parseSingleItem_type _ _ _ Hc) as [Ht Hb].
  assert (He : Entry.type e = determineTransactionType rt (Entry.source_text e)
               /\ is_empty (trim (Entry.source_text e)) = false).
  { destruct Ho as [E|Hen]; [subst item; auto|].
    destruct (enhance_fields _ _ _ Hen) as [_ [_ [_ [Hty [Hsrc _]]]]].
    rewrite Hty, Hsrc. auto. }
  destruct He as [He Hn]. rewrite He.
  unfold determineTransactionType. rewrite blank_iff, Hn. cbv zeta.
  destruct (existsb _ cashOutPatterns); [reflexivity|].
  destruct (existsb _ cashInPatterns); [reflexivity|].
  destruct (test re_price_indicators _); reflexivity.
Qed.

Lemma entry_type_by_cash_out_words_witness :
  exists e,
    parsed_entry catalog45 (str "sold 2 kg rice, bought 3 packets maggi") e
    /\ Entry.type e = cash_out.
Proof.
  remember (parseSentence catalog45 (str "sold 2 kg rice, bought 3 packets maggi"))
    as items eqn:E.
  assert (H : exists e, In e items /\
                existsb (fun pattern =>
                           test pattern (trim (toLowerCase catalog45 (Entry.source_text e))))
                  cashOutPatterns = true)
    by (vm_compute in E; subst items; eexists; split;
        [right; left; reflexivity | vm_compute; reflexivity]).
  destruct H as [e [He Hout]]. exists e.
  assert (Hp : parsed_entry catalog45 (str "sold 2 kg rice, bought 3 packets maggi") e)
    by (left; rewrite <- E; exact He).
  split; [exact Hp|].
  rewrite (entry_type_by_cash_out_words catalog45
             (str "sold 2 kg rice, bought 3 packets maggi") e Hp), Hout.
  reflexivity.
Defined.

Lemma first_brand_In (table : list (string * string)) (text brand : jsstring) :
  first_brand table text = Some brand ->
  In brand (map (fun p => str (snd p)) table).
Proof.
  induction table as [|[b n] table IH]; simpl; [discriminate|].
  destruct (includes text (str b)); [|auto].
  intros H. inversion H. left. reflexivity.
Qed.

Lemma containsSpecialBrand_In (rt : Runtime) (text brand : jsstring) :
  containsSpecialBrand rt text = Some brand ->
  In brand (map (fun p => str (snd p)) SPECIAL_CASE_ITEMS).
Proof.
  unfold containsSpecialBrand. destruct (is_empty text); [discriminate|]. cbv zeta.
  destruct (test re_parle_g (toLowerCase rt text)).
  - intros H. inversion H. left. reflexivity.
  - apply first_brand_In.
Qed.

(** X20. A chunk that names a special brand becomes an entry of that
    brand: when [containsSpecialBrand] finds a brand in the source text of
    an entry of [parseSentence], the brand is one of the display names of
    the table, the item of the entry is that name, or that name followed by
    ' Biscuits', and its unit is 'packet' or empty. *)
Theorem brand_entry (rt : Runtime) (text : jsstring) (e : Entry.t) (brand : jsstring) :
  In e (parseSentence rt text) ->
  containsSpecialBrand rt (Entry.source_text e) = Some brand ->
  In brand (map (fun p => str (snd p)) SPECIAL_CASE_ITEMS)
  /\ (Entry.item e = brand \/ Entry.item e = brand ++ str " Biscuits")
  /\ (Entry.unit e = str "packet" \/ Entry.unit e = []).
Proof.
  intros H Hb. pose proof (containsSpecialBrand_In _ _ _ Hb) as Hin.
  split; [exact Hin|].
  destruct (parseSentence_from_chunks _ _ _ H) as [chunk Hc].
  rewrite (parseSingleItem_source _ _ _ Hc) in Hb.
  unfold parseSingleItem in Hc.
  destruct (is_empty chunk || is_empty (trim chunk)); [discriminate|].
  cbv zeta in Hc. unfold item_and_unit in Hc. rewrite Hb in Hc.
  destruct brand as [|c brand]; [simpl in Hin; intuition discriminate|].
  cbv zeta in Hc.
  match type of Hc with context [if ?c then None else _] => destruct c end;
    [discriminate|].
  inversion Hc; subst e; clear Hc. simpl. split.
  - match goal with |- context [if ?c then _ else _] => destruct c end; auto.
  - destruct (includes (toLowerCase rt (trim chunk)) (str "packet")); auto.
Qed.

Lemma brand_entry_witness :
  exists e brand,
    In e (parseSentence catalog45 (str "sold 3 packets maggi, 2 parle g biscuits"))
    /\ containsSpecialBrand catalog45 (Entry.source_text e) = Some brand
    /\ (Entry.item e = brand \/ Entry.item e = brand ++ str " Biscuits").
Proof.
  remember (parseSentence catalog45 (str "sold 3 packets maggi, 2 parle g biscuits"))
    as items eqn:E.
  assert (H : exists e brand, In e items /\
                containsSpecialBrand catalog45 (Entry.source_text e) = Some brand)
    by (vm_compute in E; subst items; eexists; eexists; split;
        [right; left; reflexivity | vm_compute; reflexivity]).
  destruct H as [e [brand [He Hb]]]. exists e, brand.
  subst items. split; [exact He|]. split; [exact Hb|].
  apply (brand_entry catalog45 (str "sold 3 packets maggi, 2 parle g biscuits")
           e brand He Hb).
Defined.

(** X21. The sentence parser falls back on the whole text: when
    [parseSingleItem] reads the text as one item, [parseSentence] returns
    at least one entry for it, and so does the price lookup; so
    [parseSentence] returns nothing only for a text that is not an item
    as a whole either. *)
Theorem sentence_falls_back_on_whole_text (rt : Runtime) (text : jsstring) (e : Entry.t) :
  parseSingleItem rt text = Some e ->
  parseSentence rt text <> []
  /\ exists l, parseSentenceWithPriceLookup rt text = inr l /\ PriceLookup.entries l <> [].
Proof.
  intros H.
  assert (Hs : parseSentence rt text <> []).
  { unfold parseSentence.
    assert (Hb : is_empty text || is_empty (trim text) = false).
    { unfold parseSingleItem in H.
      destruct (is_empty text || is_empty (trim text)); [discriminate | reflexivity]. }
    rewrite Hb, H. cbv zeta.
    destruct (Nat.leb _ 1); [discriminate|].
    match goal with |- context [Nat.eqb (List.length ?r) 0] => destruct r end;
      discriminate. }
  split; [exact Hs|].
  destruct (parseSentenceWithPriceLookup_returns rt text) as [l [Hl [Hall _]]].
  exists l. split; [exact Hl|].
  intros En. rewrite En in Hall. inversion Hall as [E|]. congruence.
Qed.

Lemma sentence_falls_back_on_whole_text_witness :
  parseSentence catalog45 (str "rice and dal") <> [].
Proof.
  remember (parseSingleItem catalog45 (str "rice and dal")) as r eqn:Er.
  assert (Hr : exists e, r = Some e)
    by (vm_compute in Er; subst r; eexists; reflexivity).
  destruct Hr as [e He]. subst r.
  exact (proj1 (sentence_falls_back_on_whole_text catalog45 (str "rice and dal") e He)).
Defined.
